(** * x402-open gateway: a shallow embedding of the routing core

    The development follows [src/gateway/core.ts] (helpers, [StickyRouter],
    [PeerRegistry], [aggregateSupportedKinds]) and the verify / settle
    handlers of [createHttpGatewayAdapter] and [createHonoGatewayAdapter],
    which share one algorithm.

    Modelling conventions.
    - Wall-clock time ([Date.now()]) and HTTP status codes are [Z].
    - Values typed [unknown] in the source (peer response bodies,
      capability descriptors) are [json] trees; [undefined] is [None].
    - The request body carries its declared TypeScript type [ForwardBody]:
      optional string fields are [option string], so the [typeof] guards
      of the source hold by typing.  The payer is the one field the source
      calls a method on without such a guard; [Raw] takes it as the JSON
      value that arrives.
    - Strings are ASCII: [toLowerCase] and [trim] are the JavaScript
      functions on such strings.
    - The two sticky maps are only ever read by key: they are [gmap]s.  The
      registry map is iterated, and its iteration order reaches the caller
      through [getActivePeers]: it is an insertion-ordered association list,
      as a JavaScript [Map] is.
    - Class methods are written in a small state monad over the instance.
    - [Math.random()], the network and the clock are explicit parameters.
    - A handler runs to completion on the gateway state it finds: requests
      are taken one at a time, and timers are left out.

    The later parts cover the remaining routes of the gateway
    ([POST /register], [GET /peers], [GET /supported]), the heartbeats of
    [startGatewayRegistration] and the [Facilitator] node, with the x402
    library as a parameter; and, in [Raw], the verify and settle handlers
    on a body whose payer is not of its declared type. *)

From Stdlib Require Import ZArith String Ascii List Lia Permutation.
From Stdlib Require Import DecimalString DecimalPos DecimalZ.
From stdpp Require Import base gmap list strings.
Import ListNotations.
Local Open Scope Z_scope.

(** ** JavaScript values *)

(** A parsed JSON document.  Numbers are restricted to integers; an object
    keeps its fields in property order. *)
#[local] Unset Elimination Schemes.
Inductive json : Type :=
| JNull
| JBool (b : bool)
| JNum (n : Z)
| JStr (s : string)
| JArr (items : list json)
| JObj (fields : list (string * json)).
#[local] Set Elimination Schemes.

(** A JavaScript value that may be [undefined]. *)
Abbreviation jsvalue := (option json).

(** Property read [o.k] on the fields of an object. *)
Fixpoint get_field (k : string) (fields : list (string * json)) : option json :=
  match fields with
  | [] => None
  | (k', v) :: rest => if decide (k' = k) then Some v else get_field k rest
  end.

(** Truthiness of an optional string: [undefined] and the empty string
    are falsy. *)
Definition truthy_string (o : option string) : option string :=
  match o with
  | Some s => if decide (s = EmptyString) then None else Some s
  | None => None
  end.

(** Optional chaining [o?.f] on a value that may be [undefined]. *)
Definition chain {A B} (o : option A) (f : A -> option B) : option B :=
  match o with
  | Some a => f a
  | None => None
  end.

Notation "o ?. f" := (chain o f) (at level 50, left associativity).

(** [String.prototype.toLowerCase], on the ASCII range. *)
Definition lower_ascii (c : ascii) : ascii :=
  let n := nat_of_ascii c in
  if (65 <=? n)%nat && (n <=? 90)%nat then ascii_of_nat (n + 32) else c.

Fixpoint toLowerCase (s : string) : string :=
  match s with
  | EmptyString => EmptyString
  | String c rest => String (lower_ascii c) (toLowerCase rest)
  end.

(** ** A small state monad for class instances *)

Definition State (S A : Type) : Type := S -> A * S.

Definition ret {S A} (a : A) : State S A := fun s => (a, s).
Definition bind {S A B} (m : State S A) (k : A -> State S B) : State S B :=
  fun s => let '(a, s') := m s in k a s'.
Definition get {S} : State S S := fun s => (s, s).
Definition modify {S} (f : S -> S) : State S unit := fun s => (tt, f s).
Definition exec {S A} (m : State S A) (s : S) : S := snd (m s).
Definition eval {S A} (m : State S A) (s : S) : A := fst (m s).

Notation "x <<- m ;; k" := (bind m (fun x => k))
  (at level 100, m at next level, right associativity).
Notation "m ;;; k" := (bind m (fun _ => k))
  (at level 100, right associativity).

(** ** Types ([src/gateway/types.ts]) *)

(** The part of a payment payload the gateway looks at:
    [payload.authorization.from] (EVM) and [payload.transaction] (Solana),
    at the types that [types.ts] declares.  A request can carry any JSON
    value under [from]: [Raw] has the handlers on such bodies, and
    [RawFacts.verify_of_typed] and [RawFacts.settle_of_typed] show that on
    a body of the declared type they are the handlers of this part. *)
Record Authorization := { from : option string }.

Record ExactPayload := {
  authorization : option Authorization;
  transaction : option string
}.

(** [PartialPaymentPayload = PaymentPayload | { header?: string }]. *)
Record PartialPaymentPayload := {
  header : option string;
  payload : option ExactPayload
}.

(** [PaymentRequirements] is forwarded untouched: an opaque object. *)
Definition PaymentRequirements := list (string * json).

Record ForwardBody := {
  paymentPayload : option PartialPaymentPayload;
  paymentRequirements : option PaymentRequirements;
  paymentHeader : option string
}.

Record StickyEntry := { peer : string; expiresAt : Z }.

Record RegisteredPeer := {
  url : string;
  kinds : option (list json);
  lastSeenMs : Z
}.

Record PeerResponse := { status : Z; body : jsvalue }.

(** ** Constants *)

Definition VERIFY_TIMEOUT : Z := 10000.
Definition SETTLE_TIMEOUT : Z := 30000.
Definition SELECTION_TTL_MS : Z := 1 * 60000.
Definition REGISTRY_TTL_MS : Z := 2 * 60000.
Definition CLEANUP_INTERVAL_MS : Z := 30000.

(** ** Helpers *)

(** [url.replace(/\/$/, empty)]: one slash is dropped when it is the last
    character. *)
Fixpoint normalizeUrl (url : string) : string :=
  match url with
  | EmptyString => EmptyString
  | String c rest =>
      match rest with
      | EmptyString => if decide (c = "/"%char) then EmptyString else url
      | String _ _ => String c (normalizeUrl rest)
      end
  end.

(** The last character of a string is a slash. *)
Fixpoint ends_with_slash (s : string) : bool :=
  match s with
  | EmptyString => false
  | String c rest =>
      match rest with
      | EmptyString => bool_decide (c = "/"%char)
      | String _ _ => ends_with_slash rest
      end
  end.

(** A draw of [Math.random()]: the numerator [u] of the fraction
    [u / 2^53] in [0, 1) (taken modulo [2^53]). *)
Definition two53 : N := 9007199254740992%N.

(** The double nearest to the integer [p], ties to even.  A double holds
    53 significant bits: of a longer integer the last [s] bits are rounded
    away. *)
Definition round_to_double (p : N) : N :=
  let s := (N.log2 p - 52)%N in
  if (s =? 0)%N then p
  else
    let q := (p / 2 ^ s)%N in
    let r := (p mod 2 ^ s)%N in
    let half := (2 ^ s / 2)%N in
    let up := (half <? r)%N || ((r =? half)%N && N.odd q) in
    ((if up then q + 1 else q) * 2 ^ s)%N.

(** [Math.floor(Math.random() * n)].  The product of the two doubles is
    the double nearest to [u * n / 2^53], which is
    [round_to_double (u * n) / 2^53]; dividing by [2^53] is exact. *)
Definition random_index (u : N) (n : nat) : nat :=
  N.to_nat (round_to_double ((u mod two53) * N.of_nat n) / two53)%N.

(** [arr[Math.floor(Math.random() * arr.length)]]; [None] is [undefined]. *)
Definition pickRandom {T} (arr : list T) (u : N) : option T :=
  arr !! random_index u (length arr).

(** The sticky fingerprint: [paymentHeader], else [paymentPayload.header],
    else the Solana [paymentPayload.payload.transaction]; each only when it
    is a non-empty string. *)
Definition getHeaderFromBody (body : ForwardBody) : option string :=
  match truthy_string (paymentHeader body) with
  | Some h => Some h
  | None =>
      let payloadObj := paymentPayload body in
      match truthy_string (payloadObj ?. header) with
      | Some h => Some h
      | None =>
          let solanaTx := payloadObj ?. payload ?. transaction in
          truthy_string solanaTx
      end
  end.

(** [paymentPayload?.payload?.authorization?.from].  On a typed body no
    read throws, so the [catch] branch is never taken. *)
Definition getPayerFromBody (body : ForwardBody) : option string :=
  paymentPayload body ?. payload ?. authorization ?. from.

(** The [payer] of a verify response, when the body is an object and
    [payer] a non-empty string.  An array is an object too, and has no
    [payer]. *)
Definition getPayerFromVerifyResponse (respBody : jsvalue) : option string :=
  match respBody with
  | Some (JObj fields) =>
      match get_field "payer" fields with
      | Some (JStr p) => truthy_string (Some p)
      | _ => None
      end
  | _ => None
  end.

(** ** Randomness

    The random source is the sequence of draws the engine hands out; a
    computation that calls [Math.random()] threads the index of the next
    draw. *)
Definition Rng := nat -> N.

Definition Math_random (rng : Rng) : State nat N :=
  fun i => (rng i, S i).

Definition pickRandomM {T} (rng : Rng) (arr : list T) : State nat (option T) :=
  u <<- Math_random rng ;; ret (pickRandom arr u).

(** The comparator [() => Math.random() - 0.5]: negative below one half. *)
Definition random_comparator (u : N) : comparison :=
  ((u mod two53) ?= two53 / 2)%N.

(** [Array.prototype.sort] with that comparator.  The algorithm is the
    engine's choice; here an insertion sort that asks the comparator once
    per comparison and places [x] before [y] on a negative answer. *)
Fixpoint insert_random {T} (rng : Rng) (x : T) (sorted : list T)
  : State nat (list T) :=
  match sorted with
  | [] => ret [x]
  | y :: ys =>
      u <<- Math_random rng ;;
      match random_comparator u with
      | Lt => ret (x :: y :: ys)
      | _ => r <<- insert_random rng x ys ;; ret (y :: r)
      end
  end.

Fixpoint sort_random {T} (rng : Rng) (l : list T) : State nat (list T) :=
  match l with
  | [] => ret []
  | x :: xs => s <<- sort_random rng xs ;; insert_random rng x s
  end.

Definition rotateToNext (rng : Rng) (peers : list string) (current : string)
  : State nat (list string) :=
  if (length peers <=? 1)%nat then ret peers
  else
    rest <<- sort_random rng (filter (fun p => p ≠ current) peers) ;;
    ret (current :: rest).

Definition pickSelectedPeerForVerify (rng : Rng) (peers : list string)
  : State nat (option string) :=
  if (length peers =? 1)%nat then ret (peers !! 0%nat)
  else pickRandomM rng peers.

Definition normalizeForwardBody (inbound : ForwardBody) : ForwardBody :=
  match paymentPayload inbound, paymentRequirements inbound with
  | Some _, Some _ => inbound
  | _, _ =>
      match truthy_string (paymentHeader inbound), paymentRequirements inbound with
      | Some h, Some reqs =>
          {| paymentPayload := Some {| header := Some h; payload := None |};
             paymentRequirements := Some reqs;
             paymentHeader := None |}
      | _, _ => inbound
      end
  end.

(** ** Sticky router (payer / header -> peer, with TTL) *)

Module StickyRouter.

Record t := {
  byPayer : gmap string StickyEntry;
  byHeader : gmap string StickyEntry
}.

(** [new StickyRouter()]: both maps empty. *)
Definition empty : t := {| byPayer := ∅; byHeader := ∅ |}.

Definition set_byPayer (k : string) (e : StickyEntry) (r : t) : t :=
  {| byPayer := <[k := e]> (byPayer r); byHeader := byHeader r |}.

Definition set_byHeader (k : string) (e : StickyEntry) (r : t) : t :=
  {| byPayer := byPayer r; byHeader := <[k := e]> (byHeader r) |}.

Definition recordSelection (peer : string) (body : ForwardBody)
    (verifyResponseBody : jsvalue) (now : Z) : State t unit :=
  let payer :=
    match getPayerFromVerifyResponse verifyResponseBody with
    | Some p => Some p
    | None => getPayerFromBody body
    end in
  match truthy_string payer with
  | Some p =>
      modify (set_byPayer (toLowerCase p)
                {| peer := peer; expiresAt := now + SELECTION_TTL_MS |})
  | None => ret tt
  end ;;;
  let key := getHeaderFromBody body in
  match truthy_string key with
  | Some k =>
      modify (set_byHeader k
                {| peer := peer; expiresAt := now + SELECTION_TTL_MS |})
  | None => ret tt
  end.

(** An entry that is present and whose expiry lies ahead. *)
Definition live (now : Z) (e : option StickyEntry) : option string :=
  match e with
  | Some e => if bool_decide (expiresAt e > now) then Some (peer e) else None
  | None => None
  end.

(** [payer ? this.byPayer.get(payer) : undefined]. *)
Definition byPayer_entry (body : ForwardBody) (r : t) : option StickyEntry :=
  let payer := toLowerCase <$> getPayerFromBody body in
  match truthy_string payer with
  | Some p => byPayer r !! p
  | None => None
  end.

(** [key ? this.byHeader.get(key) : undefined]. *)
Definition byHeader_entry (body : ForwardBody) (r : t) : option StickyEntry :=
  let key := getHeaderFromBody body in
  match truthy_string key with
  | Some k => byHeader r !! k
  | None => None
  end.

Definition getPreferredPeer (body : ForwardBody) (now : Z)
  : State t (option string) :=
  r <<- get ;;
  match live now (byPayer_entry body r) with
  | Some p => ret (Some p)
  | None =>
      match live now (byHeader_entry body r) with
      | Some p => ret (Some p)
      | None => ret None
      end
  end.

(** Remove expired entries from the cache. *)
Definition cleanup (now : Z) : State t unit :=
  modify (fun r =>
    {| byPayer := filter (fun kv => ¬ (expiresAt kv.2 <= now)) (byPayer r);
       byHeader := filter (fun kv => ¬ (expiresAt kv.2 <= now)) (byHeader r) |}).

(** Clear all state (the timer is not part of the model). *)
Definition destroy : State t unit := modify (fun _ => empty).

Record Size := { payers : nat; headers : nat }.

Definition size (r : t) : Size :=
  {| payers := base.size (byPayer r); headers := base.size (byHeader r) |}.

End StickyRouter.

(** ** Peer registry (static + registered peers, with TTL) *)

(** [Set.prototype.add] on a set kept in insertion order. *)
Definition set_add (out : list string) (x : string) : list string :=
  if decide (x ∈ out) then out else out ++ [x].

Module PeerRegistry.

(** [Map<string, RegisteredPeer>] in insertion order, keys distinct. *)
Definition t := list (string * RegisteredPeer).

Definition empty : t := [].

(** [Map.prototype.set]: an existing key keeps its place. *)
Fixpoint map_set (k : string) (v : RegisteredPeer) (m : t) : t :=
  match m with
  | [] => [(k, v)]
  | (k', v') :: rest =>
      if decide (k' = k) then (k, v) :: rest else (k', v') :: map_set k v rest
  end.

Fixpoint map_get (k : string) (m : t) : option RegisteredPeer :=
  match m with
  | [] => None
  | (k', v') :: rest => if decide (k' = k) then Some v' else map_get k rest
  end.

Definition register (url : string) (kinds : option (list json)) (now : Z)
  : State t unit :=
  modify (map_set url {| url := url; kinds := kinds; lastSeenMs := now |}).

Definition getActivePeers (staticPeers : list string) (now : Z)
  : State t (list string) :=
  r <<- get ;;
  let out := fold_left (fun out p => set_add out (normalizeUrl p)) staticPeers [] in
  let out :=
    fold_left
      (fun out (kv : string * RegisteredPeer) =>
         if bool_decide (now - lastSeenMs kv.2 <= REGISTRY_TTL_MS)
         then set_add out (normalizeUrl (url kv.2)) else out)
      r out in
  ret out.

(** Remove stale peers that have not sent a heartbeat within the TTL. *)
Definition cleanup (now : Z) : State t unit :=
  modify (filter (fun kv : string * RegisteredPeer =>
                    ¬ (now - lastSeenMs kv.2 > REGISTRY_TTL_MS))).

Definition destroy : State t unit := modify (fun _ => empty).

Definition size (r : t) : nat := length r.

End PeerRegistry.

(** ** Capability aggregation *)

(** [Number.prototype.toString] on an integer. *)
Definition Number_toString (n : Z) : string :=
  DecimalString.NilEmpty.string_of_int (Z.to_int n).

(** The double quote character. *)
Definition dquote : ascii := "034"%char.

Definition hex_digit (n : nat) : ascii :=
  nth n (list_ascii_of_string "0123456789abcdef") "0"%char.

(** The JSON escape of one character of a string literal: the quote and the
    backslash, the short escapes, [\u00XX] for other control codes. *)
Definition escape_char (c : ascii) : string :=
  let n := nat_of_ascii c in
  if (n =? 34)%nat then String "\" (String dquote EmptyString)
  else if (n =? 92)%nat then "\\"
  else if (n =? 8)%nat then "\b"
  else if (n =? 12)%nat then "\f"
  else if (n =? 10)%nat then "\n"
  else if (n =? 13)%nat then "\r"
  else if (n =? 9)%nat then "\t"
  else if (n <? 32)%nat then
    "\u00" +:+ String (hex_digit (n / 16)) (String (hex_digit (n mod 16)) EmptyString)
  else String c EmptyString.

Fixpoint escape (s : string) : string :=
  match s with
  | EmptyString => EmptyString
  | String c rest => escape_char c +:+ escape rest
  end.

Definition quote (s : string) : string :=
  String dquote (escape s +:+ String dquote EmptyString).

(** [JSON.stringify] on a parsed JSON value. *)
Fixpoint JSON_stringify (v : json) : string :=
  match v with
  | JNull => "null"
  | JBool b => if b then "true" else "false"
  | JNum n => Number_toString n
  | JStr s => quote s
  | JArr items =>
      match items with
      | [] => "[]"
      | x :: xs =>
          "[" +:+ JSON_stringify x +:+
          (fix tail (l : list json) : string :=
             match l with
             | [] => "]"
             | y :: ys => "," +:+ JSON_stringify y +:+ tail ys
             end) xs
      end
  | JObj fields =>
      match fields with
      | [] => "{}"
      | (k, x) :: xs =>
          "{" +:+ quote k +:+ ":" +:+ JSON_stringify x +:+
          (fix tail (l : list (string * json)) : string :=
             match l with
             | [] => "}"
             | (k', y) :: ys =>
                 "," +:+ quote k' +:+ ":" +:+ JSON_stringify y +:+ tail ys
             end) xs
      end
  end.

(** What [fetch(url)] followed by [r.json()] can come to. *)
Inductive FetchOutcome :=
| FetchFailed
| BodyNotJson
| BodyJson (j : json).

(** One peer's contribution:
    [Array.isArray(j?.kinds) ? j.kinds : []], and [[]] when either await
    throws. *)
Definition kinds_of_outcome (o : FetchOutcome) : list json :=
  match o with
  | BodyJson (JObj fields) =>
      match get_field "kinds" fields with
      | Some (JArr ks) => ks
      | _ => []
      end
  | _ => []
  end.

(** The closing [filter] with its [seen] set of keys. *)
Fixpoint filter_unseen (kinds : list json) (seen : gset string) : list json :=
  match kinds with
  | [] => []
  | k :: rest =>
      let key := JSON_stringify k in
      if decide (key ∈ seen) then filter_unseen rest seen
      else k :: filter_unseen rest ({[key]} ∪ seen)
  end.

(** Returns the merged kinds together with the URLs that were fetched. *)
Definition aggregateSupportedKinds (fetch : string -> FetchOutcome)
    (peers : list string) : list json * list string :=
  if (length peers =? 0)%nat then ([], [])
  else
    let results :=
      map (fun base =>
             let url := normalizeUrl base +:+ "/supported" in
             (url, kinds_of_outcome (fetch url))) peers in
    let kinds := concat (map snd results) in
    (filter_unseen kinds ∅, map fst results).

(** ** The gateway ([createHttpGatewayAdapter], [createHonoGatewayAdapter]) *)

Record GatewayOptions := {
  basePath : option string;
  httpPeers : list string;
  debug : bool
}.

Record Gateway := {
  sticky : StickyRouter.t;
  registry : PeerRegistry.t
}.

Definition zoom_sticky {A} (m : State StickyRouter.t A) : State Gateway A :=
  fun g =>
    let '(a, s) := m (sticky g) in (a, {| sticky := s; registry := registry g |}).

Definition zoom_registry {A} (m : State PeerRegistry.t A) : State Gateway A :=
  fun g =>
    let '(a, r) := m (registry g) in (a, {| sticky := sticky g; registry := r |}).

(** What awaiting [postJson] comes to: a rejection (network error, abort on
    timeout), or a response with its status and its body -- the parsed JSON
    text, the text itself as a string when it does not parse, [undefined]
    when it is empty. *)
Inductive CallOutcome :=
| Threw
| Returned (r : PeerResponse).

(** The environment of one inbound request.  [postJson] sees the URLs the
    handler has already called, so a peer may answer differently each
    time; [Date_now k] is the clock once [k] peer calls have completed. *)
Record World := {
  postJson : list string -> string -> ForwardBody -> Z -> CallOutcome;
  Date_now : nat -> Z;
  rng : Rng
}.

(** What the handler does with the inbound request. *)
Inductive Outcome :=
| Respond (status : Z) (body : jsvalue)
| Uncaught.

Definition error_body (msg : string) : jsvalue :=
  Some (JObj [("error", JStr msg)]).

Definition settle_error_body (msg : string) : jsvalue :=
  Some (JObj [("success", JBool false); ("error", JStr msg);
              ("txHash", JNull); ("networkId", JNull)]).

(** The message of the [TypeError] raised by [normalizeUrl(undefined)]. *)
Definition undefined_replace_message : string :=
  "Cannot read properties of undefined (reading 'replace')".

Definition internal_error_body (msg : string) : jsvalue :=
  Some (JObj [("error", JStr "Internal error"); ("message", JStr msg)]).

(** [peers()]. *)
Definition peers (w : World) (options : GatewayOptions) : State Gateway (list string) :=
  zoom_registry (PeerRegistry.getActivePeers (httpPeers options) (Date_now w 0)).

(** The [for (const base of order)] loop of the verify handler; [calls] are
    the URLs posted to so far. *)
Fixpoint verify_loop (w : World) (forwardBody : ForwardBody)
    (order : list string) (lastError : option PeerResponse)
    (calls : list string) : State StickyRouter.t (Outcome * list string) :=
  match order with
  | [] =>
      match lastError with
      | Some e => ret (Respond (status e) (body e), calls)
      | None => ret (Respond 503 (error_body "Verification unavailable"), calls)
      end
  | base :: rest =>
      let url := normalizeUrl base +:+ "/verify" in
      match postJson w calls url forwardBody VERIFY_TIMEOUT with
      | Returned response =>
          if bool_decide (status response = 200) then
            StickyRouter.recordSelection base forwardBody (body response)
              (Date_now w (S (length calls))) ;;;
            ret (Respond 200 (body response), calls ++ [url])
          else verify_loop w forwardBody rest (Some response) (calls ++ [url])
      | Threw => verify_loop w forwardBody rest lastError (calls ++ [url])
      end
  end.

(** The fallback order of the verify handler. *)
Definition verify_order (w : World) (activePeers : list string)
  : option (list string) :=
  let '(primary, i) := pickSelectedPeerForVerify (rng w) activePeers 0%nat in
  match primary with
  | Some primary => Some (eval (rotateToNext (rng w) activePeers primary) i)
  | None => None
  end.

(** [POST /verify]. *)
Definition verify (w : World) (options : GatewayOptions) (reqBody : ForwardBody)
  : State Gateway (Outcome * list string) :=
  activePeers <<- peers w options ;;
  if (length activePeers =? 0)%nat then
    ret (Respond 503 (error_body "No peers configured"), [])
  else
    let forwardBody := normalizeForwardBody reqBody in
    match verify_order w activePeers with
    | Some order => zoom_sticky (verify_loop w forwardBody order None [])
    | None => ret (Respond 500 (internal_error_body undefined_replace_message), [])
    end.

(** The [for (const peer of order)] loop of the settle handler. *)
Fixpoint settle_loop (w : World) (forwardBody : ForwardBody)
    (order : list string) (calls : list string) : Outcome * list string :=
  match order with
  | [] => (Respond 503 (settle_error_body "Settle unavailable"), calls)
  | peer :: rest =>
      let url := normalizeUrl peer +:+ "/settle" in
      match postJson w calls url forwardBody SETTLE_TIMEOUT with
      | Returned response =>
          if bool_decide (status response = 200)
          then (Respond 200 (body response), calls ++ [url])
          else settle_loop w forwardBody rest (calls ++ [url])
      | Threw => settle_loop w forwardBody rest (calls ++ [url])
      end
  end.

(** [sticky.getPreferredPeer(forwardBody) ?? pickSelectedPeerForVerify(activePeers)],
    with the index of the next draw. *)
Definition settle_preferred (w : World) (activePeers : list string)
    (stickyPeer : option string) : option string * nat :=
  match stickyPeer with
  | Some p => (Some p, 0%nat)
  | None => pickSelectedPeerForVerify (rng w) activePeers 0%nat
  end.

(** The fallback order of the settle handler. *)
Definition settle_order (w : World) (activePeers : list string)
    (stickyPeer : option string) : option (list string) :=
  let '(preferred, i) := settle_preferred w activePeers stickyPeer in
  match preferred with
  | Some preferred => Some (eval (rotateToNext (rng w) activePeers preferred) i)
  | None => None
  end.

(** [POST /settle]. *)
Definition settle (w : World) (options : GatewayOptions) (reqBody : ForwardBody)
  : State Gateway (Outcome * list string) :=
  activePeers <<- peers w options ;;
  if (length activePeers =? 0)%nat then
    ret (Respond 503 (settle_error_body "No peers configured"), [])
  else
    let forwardBody := normalizeForwardBody reqBody in
    stickyPeer <<- zoom_sticky (StickyRouter.getPreferredPeer forwardBody (Date_now w 0)) ;;
    match settle_order w activePeers stickyPeer with
    | Some order => ret (settle_loop w forwardBody order [])
    | None => ret (Uncaught, [])
    end.

(** [POST /register], after the handler's URL check has passed. *)
Definition register_route (w : World) (url : string) (kinds : option (list json))
  : State Gateway Outcome :=
  zoom_registry (PeerRegistry.register url kinds (Date_now w 0)) ;;;
  ret (Respond 200 (Some (JObj [("ok", JBool true)]))).

(** [GET /supported]. *)
Definition supported_route (w : World) (fetch : string -> FetchOutcome)
    (options : GatewayOptions) : State Gateway Outcome :=
  activePeers <<- peers w options ;;
  let kinds := fst (aggregateSupportedKinds fetch activePeers) in
  ret (Respond 200 (Some (JObj [("kinds", JArr kinds)]))).

(** ** Observations used in the statements *)

(** Unfolds the monadic plumbing of a method call. *)
Ltac run_state :=
  unfold exec, eval, bind, ret, get, modify,
         zoom_sticky, zoom_registry in *; simpl in *.

(** The payer identity a recording files its entry under, if any:
    the verify response's payer, else the request's, when truthy. *)
Definition recorded_payer (body : ForwardBody) (resp : jsvalue) : option string :=
  truthy_string
    (match getPayerFromVerifyResponse resp with
     | Some p => Some p
     | None => getPayerFromBody body
     end).

(** Every entry of the router expires at [T] or earlier. *)
Definition expire_by (T : Z) (r : StickyRouter.t) : Prop :=
  map_Forall (fun _ e => expiresAt e <= T) (StickyRouter.byPayer r) ∧
  map_Forall (fun _ e => expiresAt e <= T) (StickyRouter.byHeader r).

(** The routers a gateway can hold at time [T]: built from the empty router
    by recordings made at [T] or earlier, and by sweeps. *)
Inductive built_by (T : Z) : StickyRouter.t -> Prop :=
| built_empty : built_by T StickyRouter.empty
| built_record r peer body resp now :
    built_by T r -> now <= T ->
    built_by T (exec (StickyRouter.recordSelection peer body resp now) r)
| built_cleanup r now :
    built_by T r -> built_by T (exec (StickyRouter.cleanup now) r).

(** Request bodies used in the examples. *)
Definition body_with_payer (payer : string) : ForwardBody :=
  {| paymentPayload :=
       Some {| header := None;
               payload := Some {| authorization := Some {| from := Some payer |};
                                  transaction := None |} |};
     paymentRequirements := None;
     paymentHeader := None |}.

Definition body_with_header (h : string) : ForwardBody :=
  {| paymentPayload := None; paymentRequirements := None; paymentHeader := Some h |}.

Definition body_with_payer_and_header (payer h : string) : ForwardBody :=
  {| paymentPayload :=
       Some {| header := None;
               payload := Some {| authorization := Some {| from := Some payer |};
                                  transaction := None |} |};
     paymentRequirements := None;
     paymentHeader := Some h |}.

(** A verify response body [{ payer }]. *)
Definition response_with_payer (payer : string) : jsvalue :=
  Some (JObj [("payer", JStr payer)]).

(** The keys of the registry map are pairwise distinct, as those of a
    JavaScript [Map] are. *)
Definition distinct_keys (reg : PeerRegistry.t) : Prop := NoDup (map fst reg).

(** The registries a gateway can hold: built from the empty registry by
    registrations and sweeps. *)
Inductive registry_built : PeerRegistry.t -> Prop :=
| registry_built_empty : registry_built PeerRegistry.empty
| registry_built_register r u kinds now :
    registry_built r ->
    registry_built (exec (PeerRegistry.register u kinds now) r)
| registry_built_cleanup r now :
    registry_built r -> registry_built (exec (PeerRegistry.cleanup now) r).

(** A registered peer whose heartbeat is no older than the registry TTL. *)
Definition fresh_at (now : Z) (e : RegisteredPeer) : Prop :=
  now - lastSeenMs e <= REGISTRY_TTL_MS.

(** A gateway with two static peers, and two moments in its life: a verify
    at 100 s which only the self-registered peer [http://c] answers, and a
    settle at 130 s which nobody answers. *)
Definition two_static_peers : GatewayOptions :=
  {| basePath := Some "/facilitator";
     httpPeers := ["http://a"; "http://b"];
     debug := false |}.

Definition fresh_gateway : Gateway :=
  {| sticky := StickyRouter.empty; registry := PeerRegistry.empty |}.

Definition verify_ok_body : jsvalue :=
  Some (JObj [("isValid", JBool true); ("payer", JStr "0xABC")]).

Definition world_at_100s : World :=
  {| postJson := fun _ url _ _ =>
       if decide (url = "http://c/verify")
       then Returned {| status := 200; body := verify_ok_body |}
       else Threw;
     Date_now := fun _ => 100000;
     rng := fun _ => (two53 - 1)%N |}.

Definition world_at_130s : World :=
  {| postJson := fun _ _ _ _ => Threw;
     Date_now := fun _ => 130000;
     rng := fun _ => 0%N |}.

Definition world_at_0s : World :=
  {| postJson := fun _ _ _ _ => Threw;
     Date_now := fun _ => 0;
     rng := fun _ => 0%N |}.

(** A peer call counts as a success when it returns status 200. *)
Definition is_success (o : CallOutcome) : bool :=
  match o with
  | Returned r => bool_decide (status r = 200)
  | Threw => false
  end.

(** The URLs a handler posts to when it goes through [order]. *)
Definition call_urls (suffix : string) (order : list string) : list string :=
  map (fun base => normalizeUrl base +:+ suffix) order.

(** What the peers of [order] answer when they are called one after the
    other, [calls] having been made before. *)
Fixpoint call_outcomes (w : World) (forwardBody : ForwardBody) (suffix : string)
    (timeout : Z) (calls : list string) (order : list string)
  : list CallOutcome :=
  match order with
  | [] => []
  | base :: rest =>
      let url := normalizeUrl base +:+ suffix in
      postJson w calls url forwardBody timeout
        :: call_outcomes w forwardBody suffix timeout (calls ++ [url]) rest
  end.

(** A world in which [http://a] answers verify with 402 and [http://b]
    with 200, and one in which [http://a] answers 402 and [http://b] does
    not answer at all. *)
Definition payment_required : PeerResponse :=
  {| status := 402; body := Some (JObj [("error", JStr "insufficient_funds")]) |}.

Definition world_b_succeeds : World :=
  {| postJson := fun _ url _ _ =>
       if decide (url = "http://b/verify")
       then Returned {| status := 200; body := verify_ok_body |}
       else if decide (url = "http://a/verify") then Returned payment_required
       else Threw;
     Date_now := fun k => 1000 + Z.of_nat k;
     rng := fun _ => 0%N |}.

Definition world_nobody_succeeds : World :=
  {| postJson := fun _ url _ _ =>
       if decide (url = "http://a/verify") then Returned payment_required
       else if decide (url = "http://a/settle") then Returned payment_required
       else Threw;
     Date_now := fun k => 1000 + Z.of_nat k;
     rng := fun _ => 0%N |}.

(** ** JSON documents: equality, and reading [JSON.stringify] back *)

(** Induction on a JSON document, through its arrays and objects. *)
Fixpoint json_ind (P : json -> Prop)
    (Hnull : P JNull) (Hbool : forall b, P (JBool b))
    (Hnum : forall n, P (JNum n)) (Hstr : forall s, P (JStr s))
    (Harr : forall items, Forall P items -> P (JArr items))
    (Hobj : forall fields, Forall (fun kv => P (snd kv)) fields -> P (JObj fields))
    (v : json) {struct v} : P v :=
  match v with
  | JNull => Hnull
  | JBool b => Hbool b
  | JNum n => Hnum n
  | JStr s => Hstr s
  | JArr items =>
      Harr items
        ((fix go (l : list json) : Forall P l :=
            match l with
            | [] => List.Forall_nil P
            | x :: xs =>
                @List.Forall_cons _ P x xs
                  (json_ind P Hnull Hbool Hnum Hstr Harr Hobj x) (go xs)
            end) items)
  | JObj fields =>
      Hobj fields
        ((fix go (l : list (string * json)) : Forall (fun kv => P (snd kv)) l :=
            match l with
            | [] => List.Forall_nil _
            | (k, x) :: xs =>
                @List.Forall_cons _ (fun kv => P (snd kv)) (k, x) xs
                  (json_ind P Hnull Hbool Hnum Hstr Harr Hobj x) (go xs)
            end) fields)
  end.

(** Two documents are equal when they are field-for-field identical. *)
Global Instance json_eq_dec : EqDecision json.
Proof.
  refine (fix go (x y : json) {struct x} : Decision (x = y) :=
    match x, y with
    | JNull, JNull => left eq_refl
    | JBool a, JBool b => cast_if (decide (a = b))
    | JNum a, JNum b => cast_if (decide (a = b))
    | JStr a, JStr b => cast_if (decide (a = b))
    | JArr l1, JArr l2 =>
        cast_if
          ((fix go_items (l1 l2 : list json) {struct l1} : Decision (l1 = l2) :=
              match l1, l2 with
              | [], [] => left eq_refl
              | x1 :: r1, x2 :: r2 => cast_if_and (go x1 x2) (go_items r1 r2)
              | _, _ => right _
              end) l1 l2)
    | JObj f1, JObj f2 =>
        cast_if
          ((fix go_fields (l1 l2 : list (string * json)) {struct l1}
              : Decision (l1 = l2) :=
              match l1, l2 with
              | [], [] => left eq_refl
              | (k1, x1) :: r1, (k2, x2) :: r2 =>
                  cast_if_and3 (decide (k1 = k2)) (go x1 x2) (go_fields r1 r2)
              | _, _ => right _
              end) f1 f2)
    | _, _ => right _
    end); abstract congruence.
Defined.

(** The elements of an array after the first, each behind its comma, and
    the closing bracket. *)
Fixpoint arr_tail (l : list json) : string :=
  match l with
  | [] => "]"
  | y :: ys => "," +:+ JSON_stringify y +:+ arr_tail ys
  end.

(** The members of an object after the first, and the closing brace. *)
Fixpoint obj_tail (l : list (string * json)) : string :=
  match l with
  | [] => "}"
  | (k, y) :: ys => "," +:+ quote k +:+ ":" +:+ JSON_stringify y +:+ obj_tail ys
  end.

Definition hex_value (c : ascii) : nat :=
  let n := nat_of_ascii c in
  if (48 <=? n)%nat && (n <=? 57)%nat then (n - 48)%nat
  else if (97 <=? n)%nat && (n <=? 102)%nat then (n - 87)%nat
  else 0%nat.

(** Reads one escaped character off the front of a string literal's body;
    [None] at the closing quote. *)
Definition unescape_head (s : string) : option (ascii * string) :=
  match s with
  | EmptyString => None
  | String c rest =>
      if decide (c = dquote) then None
      else if decide (c = "\"%char) then
        match rest with
        | EmptyString => None
        | String e rest' =>
            if decide (e = dquote) then Some (dquote, rest')
            else if decide (e = "\"%char) then Some ("\"%char, rest')
            else if decide (e = "b"%char) then Some (ascii_of_nat 8, rest')
            else if decide (e = "f"%char) then Some (ascii_of_nat 12, rest')
            else if decide (e = "n"%char) then Some (ascii_of_nat 10, rest')
            else if decide (e = "r"%char) then Some (ascii_of_nat 13, rest')
            else if decide (e = "t"%char) then Some (ascii_of_nat 9, rest')
            else if decide (e = "u"%char) then
              match rest' with
              | String _ (String _ (String h1 (String h2 rest''))) =>
                  Some (ascii_of_nat (hex_value h1 * 16 + hex_value h2), rest'')
              | _ => None
              end
            else None
        end
      else Some (c, rest)
  end.

(** The characters of a printed integer. *)
Definition is_num_char (c : ascii) : bool :=
  let n := nat_of_ascii c in
  ((48 <=? n)%nat && (n <=? 57)%nat) || (n =? 45)%nat.

Fixpoint all_chars (P : ascii -> bool) (s : string) : bool :=
  match s with
  | EmptyString => true
  | String c rest => P c && all_chars P rest
  end.

(** What may follow a value inside a document: nothing, a comma, a closing
    bracket or a closing brace. *)
Definition delimited (r : string) : Prop :=
  match r with
  | EmptyString => True
  | String c _ => c = ","%char ∨ c = "]"%char ∨ c = "}"%char
  end.

(** A value is read back unambiguously: its printed form, followed by what
    may follow a value, determines the value and what follows. *)
Definition reads_back (v1 : json) : Prop :=
  forall v2 r1 r2, delimited r1 -> delimited r2 ->
    JSON_stringify v1 +:+ r1 = JSON_stringify v2 +:+ r2 -> v1 = v2 ∧ r1 = r2.

(** The constructor of a value shows in the first character it prints. *)
Definition ctor_kind (v : json) : nat :=
  match v with
  | JNull => 0
  | JBool _ => 1
  | JNum _ => 2
  | JStr _ => 3
  | JArr _ => 4
  | JObj _ => 5
  end.

Definition kind_of_char (c : ascii) : nat :=
  if decide (c = "n"%char) then 0
  else if decide (c = "t"%char) then 1
  else if decide (c = "f"%char) then 1
  else if is_num_char c then 2
  else if decide (c = dquote) then 3
  else if decide (c = "["%char) then 4
  else if decide (c = "{"%char) then 5
  else 6.

Definition head_kind (s : string) : option nat :=
  match s with
  | EmptyString => None
  | String c _ => Some (kind_of_char c)
  end.

(** Removing exact duplicates, the first occurrence staying where it is:
    [prev] holds the documents already met. *)
Fixpoint first_occurrences_from (prev : list json) (kinds : list json) : list json :=
  match kinds with
  | [] => []
  | k :: rest =>
      if decide (k ∈ prev) then first_occurrences_from prev rest
      else k :: first_occurrences_from (k :: prev) rest
  end.

Definition first_occurrences (kinds : list json) : list json :=
  first_occurrences_from [] kinds.

(** The capability descriptors of the examples, and two peers: [http://a]
    advertises [x], [http://b] advertises [x] and [y]; [http://down] does
    not answer and [http://html] answers with a page that is not JSON. *)
Definition kind_x : json :=
  JObj [("x402Version", JNum 1); ("scheme", JStr "exact"); ("network", JStr "base-sepolia")].

Definition kind_y : json :=
  JObj [("x402Version", JNum 1); ("scheme", JStr "exact"); ("network", JStr "solana")].

Definition fetch_supported (url : string) : FetchOutcome :=
  if decide (url = "http://a/supported")
  then BodyJson (JObj [("kinds", JArr [kind_x])])
  else if decide (url = "http://b/supported")
  then BodyJson (JObj [("kinds", JArr [kind_x; kind_y])])
  else if decide (url = "http://html/supported") then BodyNotJson
  else FetchFailed.

(** ** [POST /register] and [GET /peers] *)

(** White space of [String.prototype.trim], on the ASCII range: tab, line
    feed, vertical tab, form feed, carriage return and space. *)
Definition is_white_space (c : ascii) : bool :=
  let n := nat_of_ascii c in
  ((9 <=? n)%nat && (n <=? 13)%nat) || (n =? 32)%nat.

Fixpoint trimStart (s : string) : string :=
  match s with
  | EmptyString => EmptyString
  | String c rest => if is_white_space c then trimStart rest else s
  end.

Fixpoint trimEnd (s : string) : string :=
  match s with
  | EmptyString => EmptyString
  | String c rest =>
      match trimEnd rest with
      | EmptyString => if is_white_space c then EmptyString else String c EmptyString
      | kept => String c kept
      end
  end.

Definition trim (s : string) : string := trimEnd (trimStart s).

(** [/^https?:\/\//i.test(url)]: the letters match in either case. *)
Definition has_http_scheme (url : string) : bool :=
  let lowered := toLowerCase url in
  String.prefix "http://" lowered || String.prefix "https://" lowered.

(** The body of a registration request, with its declared type
    [{ url?: string; kinds?: unknown[] }]. *)
Module RegisterBody.
Record t := {
  url : option string;
  kinds : option (list json)
}.
End RegisterBody.

(** [POST /register].  [String(body?.url || empty).trim()] is the URL, or
    the empty string; on a typed body nothing in the [try] block throws. *)
Definition register_handler (w : World) (body : option RegisterBody.t)
  : State Gateway Outcome :=
  let url :=
    trim (default EmptyString (truthy_string (body ?. RegisterBody.url))) in
  if bool_decide (url = EmptyString) || negb (has_http_scheme url) then
    ret (Respond 400 (error_body "Invalid url"))
  else
    register_route w url (body ?. RegisterBody.kinds).

(** [GET /peers]. *)
Definition peers_route (w : World) (options : GatewayOptions)
  : State Gateway Outcome :=
  activePeers <<- peers w options ;;
  ret (Respond 200 (Some (JObj [("peers", JArr (map JStr activePeers))]))).

(** ** Node registration heartbeats ([startGatewayRegistration]) *)

Module Registrar.

(** What awaiting [kindsProvider()] comes to. *)
Inductive ProviderOutcome :=
| ProviderThrew
| ProviderReturned (v : json).

(** The provider is called once per heartbeat; [kindsProvider n] is what
    the call of heartbeat number [n] comes to.  [intervalMs] only sets the
    period of the timer, which is not part of the model. *)
Record NodeRegistrarOptions := {
  gatewayUrls : list string;
  nodeBaseUrl : string;
  kindsProvider : option (nat -> ProviderOutcome);
  debug : bool
}.

Definition safeKinds (o : ProviderOutcome) : option (list json) :=
  match o with
  | ProviderReturned (JArr v) => Some v
  | _ => None
  end.

(** One run of [heartbeat()]: the requests it posts, as pairs of URL and
    body, in order.  What a gateway answers, or that the request fails, is
    only logged: it has no bearing on the requests that follow. *)
Definition heartbeat (opts : NodeRegistrarOptions) (stopped : bool) (n : nat)
  : list (string * RegisterBody.t) :=
  if stopped then []
  else
    let kinds := kindsProvider opts ?. (fun provider => safeKinds (provider n)) in
    let body :=
      {| RegisterBody.url := Some (normalizeUrl (nodeBaseUrl opts));
         RegisterBody.kinds := kinds |} in
    map (fun gw => (normalizeUrl gw +:+ "/register", body)) (gatewayUrls opts).

End Registrar.

(** ** The facilitator node ([Facilitator])

    The x402 library is a parameter: its schemas, its lists of supported
    networks and its asynchronous functions.  The calls made to
    [createConnectedClient], [createSigner], [verify] and [settle] are
    logged in order. *)

(** What is thrown: an [Error] with its message, or another value. *)
Inductive Thrown :=
| ErrorWith (message : string)
| NotAnError.

(** How an evaluation that may throw ends. *)
Inductive Completion (A : Type) :=
| Normal (a : A)
| Throw (e : Thrown).
Arguments Normal {A} a.
Arguments Throw {A} e.

Definition and_then {A B} (m : Completion A) (k : A -> Completion B)
  : Completion B :=
  match m with
  | Normal a => k a
  | Throw e => Throw e
  end.

Inductive Call :=
| CreateConnectedClient (network : string)
| CreateSigner (network : string) (privateKey : string)
| Verify
| Settle.

(** An evaluation that may throw and that logs its library calls. *)
Definition Run (A : Type) : Type := State (list Call) (Completion A).

Definition bind_run {A B} (m : Run A) (k : A -> Run B) : Run B :=
  r <<- m ;;
  match r with
  | Normal a => k a
  | Throw e => ret (Throw e)
  end.

Definition lift {A} (m : Completion A) : Run A := ret m.

(** An awaited library call. *)
Definition call {A} (c : Call) (result : Completion A) : Run A :=
  modify (fun log => log ++ [c]) ;;; ret result.

Notation "x <~ m ;; k" := (bind_run m (fun x => k))
  (at level 100, m at next level, right associativity).

(** [error instanceof Error ? error.message : "Unknown error"]. *)
Definition message_of (e : Thrown) : string :=
  match e with
  | ErrorWith message => message
  | NotAnError => "Unknown error"
  end.

Module Facilitator.

(** A viem [Chain], of which only [network] is read. *)
Module Chain.
Record t := { network : option string }.
End Chain.

Module FacilitatorConfig.
Record t := {
  evmPrivateKey : option string;
  svmPrivateKey : option string;
  svmRpcUrl : option string;
  evmNetworks : option (list Chain.t);
  svmNetworks : option (list string);
  networks : option (list Chain.t)
}.
End FacilitatorConfig.

Inductive Method := GET | POST.

Record HandlerRequest := {
  method : Method;
  path : string;
  body : jsvalue
}.

Record HandlerResponse := {
  status : Z;
  response_body : jsvalue
}.

(** [{ svmConfig: { rpcUrl } }]. *)
Record X402Config := { rpcUrl : string }.

(** Parsed payment requirements: the [network] and the whole document. *)
Module Requirements.
Record t := { network : string; document : json }.
End Requirements.

(** The x402 library.  Signers and connected clients are opaque values;
    of a signer the code reads [address], after [isSvmSignerWallet]. *)
Record X402 := {
  PaymentRequirementsSchema_parse : jsvalue -> Completion Requirements.t;
  PaymentPayloadSchema_parse : jsvalue -> Completion json;
  SupportedEVMNetworks : list string;
  SupportedSVMNetworks : list string;
  createConnectedClient : string -> Completion json;
  createSigner : string -> string -> Completion json;
  isSvmSignerWallet : json -> bool;
  verify : json -> json -> Requirements.t -> option X402Config -> Completion json;
  settle : json -> json -> Requirements.t -> option X402Config -> Completion json
}.

Record t := {
  evmPrivateKey : option string;
  svmPrivateKey : option string;
  svmRpcUrl : option string;
  evmNetworks : list Chain.t;
  svmNetworks : list string;
  x402Config : option X402Config
}.

Definition constructor (config : FacilitatorConfig.t) : t :=
  let svmPrivateKey := FacilitatorConfig.svmPrivateKey config in
  let svmRpcUrl := FacilitatorConfig.svmRpcUrl config in
  {| evmPrivateKey := FacilitatorConfig.evmPrivateKey config;
     svmPrivateKey := svmPrivateKey;
     svmRpcUrl := svmRpcUrl;
     evmNetworks :=
       match FacilitatorConfig.evmNetworks config with
       | Some chains => chains
       | None => default [] (FacilitatorConfig.networks config)
       end;
     svmNetworks :=
       match FacilitatorConfig.svmNetworks config with
       | Some networks => networks
       | None =>
           match truthy_string svmPrivateKey with
           | Some _ => ["solana-devnet"]
           | None => []
           end
       end;
     x402Config :=
       match truthy_string svmRpcUrl with
       | Some u => Some {| rpcUrl := u |}
       | None => None
       end |}.

(** [raw.k] for [raw = body ?? {}]: a property of an object, [undefined]
    on anything else. *)
Definition raw_field (k : string) (body : jsvalue) : jsvalue :=
  match body with
  | Some (JObj fields) => get_field k fields
  | _ => None
  end.

(** The requirements are parsed first. *)
Definition parseBody (x : X402) (body : jsvalue)
  : Completion (json * Requirements.t) :=
  and_then (PaymentRequirementsSchema_parse x (raw_field "paymentRequirements" body))
    (fun paymentRequirements =>
  and_then (PaymentPayloadSchema_parse x (raw_field "paymentPayload" body))
    (fun paymentPayload =>
  Normal (paymentPayload, paymentRequirements))).

Definition getVerifyClient (x : X402) (this : t)
    (paymentRequirements : Requirements.t) : Run json :=
  let network := Requirements.network paymentRequirements in
  if bool_decide (network ∈ SupportedEVMNetworks x) then
    call (CreateConnectedClient network) (createConnectedClient x network)
  else if bool_decide (network ∈ SupportedSVMNetworks x) then
    match truthy_string (svmPrivateKey this) with
    | None => lift (Throw (ErrorWith "Missing svmPrivateKey for SVM verification"))
    | Some key => call (CreateSigner network key) (createSigner x network key)
    end
  else lift (Throw (ErrorWith "Invalid network")).

Definition getSettleSigner (x : X402) (this : t)
    (paymentRequirements : Requirements.t) : Run json :=
  let network := Requirements.network paymentRequirements in
  if bool_decide (network ∈ SupportedEVMNetworks x) then
    match truthy_string (evmPrivateKey this) with
    | None => lift (Throw (ErrorWith "Missing evmPrivateKey for EVM settlement"))
    | Some key => call (CreateSigner network key) (createSigner x network key)
    end
  else if bool_decide (network ∈ SupportedSVMNetworks x) then
    match truthy_string (svmPrivateKey this) with
    | None => lift (Throw (ErrorWith "Missing svmPrivateKey for SVM settlement"))
    | Some key => call (CreateSigner network key) (createSigner x network key)
    end
  else lift (Throw (ErrorWith "Invalid network")).

Definition getViemChainNetwork (chain : Chain.t) : Completion string :=
  match truthy_string (Chain.network chain) with
  | Some network => Normal network
  | None =>
      Throw (ErrorWith "Provided viem Chain is missing the 'network' identifier")
  end.

(** [{ x402Version: 1, scheme: "exact", network }]. *)
Definition evm_kind (network : string) : json :=
  JObj [("x402Version", JNum 1); ("scheme", JStr "exact");
        ("network", JStr network)].

(** The same with [extra: { feePayer }]; a property that is [undefined]
    is not part of the document. *)
Definition svm_kind (network : string) (feePayer : jsvalue) : json :=
  JObj [("x402Version", JNum 1); ("scheme", JStr "exact");
        ("network", JStr network);
        ("extra", JObj match feePayer with
                       | Some a => [("feePayer", a)]
                       | None => []
                       end)].

(** The loop over [this.evmNetworks]. *)
Fixpoint evm_kinds (chains : list Chain.t) (kinds : list json)
  : Completion (list json) :=
  match chains with
  | [] => Normal kinds
  | chain :: rest =>
      and_then (getViemChainNetwork chain) (fun network =>
      evm_kinds rest (kinds ++ [evm_kind network]))
  end.

(** The loop over [this.svmNetworks]. *)
Fixpoint svm_kinds (x : X402) (key : string) (networks : list string)
    (kinds : list json) : Run (list json) :=
  match networks with
  | [] => lift (Normal kinds)
  | network :: rest =>
      if bool_decide (network ∈ SupportedSVMNetworks x) then
        signer <~ call (CreateSigner network key) (createSigner x network key) ;;
        let feePayer :=
          if isSvmSignerWallet x signer then raw_field "address" (Some signer)
          else None in
        svm_kinds x key rest (kinds ++ [svm_kind network feePayer])
      else svm_kinds x key rest kinds
  end.

Definition getSupportedKinds (x : X402) (this : t) : Run (list json) :=
  kinds <~
    match truthy_string (evmPrivateKey this) with
    | Some _ =>
        if (0 <? length (evmNetworks this))%nat
        then lift (evm_kinds (evmNetworks this) [])
        else lift (Normal [])
    | None => lift (Normal [])
    end ;;
  match truthy_string (svmPrivateKey this) with
  | Some key =>
      if (0 <? length (svmNetworks this))%nat
      then svm_kinds x key (svmNetworks this) kinds
      else lift (Normal kinds)
  | None => lift (Normal kinds)
  end.

(** The [try] block of [handleRequest]. *)
Definition route (x : X402) (this : t) (req : HandlerRequest)
  : Run HandlerResponse :=
  match method req with
  | GET =>
      if bool_decide (path req = "/supported") then
        kinds <~ getSupportedKinds x this ;;
        lift (Normal {| status := 200;
                        response_body := Some (JObj [("kinds", JArr kinds)]) |})
      else
        lift (Normal {| status := 404; response_body := error_body "Not Found" |})
  | POST =>
      if bool_decide (path req = "/verify") then
        parsed <~ lift (parseBody x (body req)) ;;
        let '(paymentPayload, paymentRequirements) := parsed in
        client <~ getVerifyClient x this paymentRequirements ;;
        valid <~ call Verify
                   (verify x client paymentPayload paymentRequirements
                      (x402Config this)) ;;
        lift (Normal {| status := 200; response_body := Some valid |})
      else if bool_decide (path req = "/settle") then
        parsed <~ lift (parseBody x (body req)) ;;
        let '(paymentPayload, paymentRequirements) := parsed in
        signer <~ getSettleSigner x this paymentRequirements ;;
        response <~ call Settle
                      (settle x signer paymentPayload paymentRequirements
                         (x402Config this)) ;;
        lift (Normal {| status := 200; response_body := Some response |})
      else
        lift (Normal {| status := 404; response_body := error_body "Not Found" |})
  end.

(** [handleRequest]: whatever is thrown in the [try] block is answered
    400 with its message. *)
Definition handleRequest (x : X402) (this : t) (req : HandlerRequest)
  : State (list Call) HandlerResponse :=
  r <<- route x this req ;;
  match r with
  | Normal response => ret response
  | Throw e => ret {| status := 400; response_body := error_body (message_of e) |}
  end.

End Facilitator.

(** ** Request bodies as they arrive

    [req.body] is whatever JSON the client sent.  The handlers read
    [paymentPayload.payload.authorization.from] from it without a [typeof]
    test and call [toLowerCase] on what they find.  Here that value is the
    JSON value it is, and the call raises a [TypeError] on anything but a
    string.  The other fields are as in [ForwardBody]: none of them is the
    receiver of a method call. *)

Module Raw.

Record Authorization := { from : jsvalue }.

Record ExactPayload := {
  authorization : option Authorization;
  transaction : option string
}.

Record PartialPaymentPayload := {
  header : option string;
  payload : option ExactPayload
}.

Record ForwardBody := {
  paymentPayload : option PartialPaymentPayload;
  paymentRequirements : option PaymentRequirements;
  paymentHeader : option string
}.

(** Truthiness of a JavaScript value. *)
Definition truthy (v : jsvalue) : bool :=
  match v with
  | None | Some JNull => false
  | Some (JBool b) => b
  | Some (JNum n) => negb (n =? 0)
  | Some (JStr s) => negb (bool_decide (s = EmptyString))
  | Some (JArr _) | Some (JObj _) => true
  end.

(** [v.toLowerCase()] on a value that is neither [null] nor [undefined]:
    a string has the method, anything else has no such property and the
    call throws. *)
Definition call_toLowerCase (v : json) : Completion string :=
  match v with
  | JStr s => Normal (toLowerCase s)
  | _ => Throw (ErrorWith "toLowerCase is not a function")
  end.

Definition getHeaderFromBody (body : ForwardBody) : option string :=
  match truthy_string (paymentHeader body) with
  | Some h => Some h
  | None =>
      let payloadObj := paymentPayload body in
      match truthy_string (payloadObj ?. header) with
      | Some h => Some h
      | None =>
          let solanaTx := payloadObj ?. payload ?. transaction in
          truthy_string solanaTx
      end
  end.

(** [paymentPayload?.payload?.authorization?.from], as found. *)
Definition getPayerFromBody (body : ForwardBody) : jsvalue :=
  paymentPayload body ?. payload ?. authorization ?. from.

Definition normalizeForwardBody (inbound : ForwardBody) : ForwardBody :=
  match paymentPayload inbound, paymentRequirements inbound with
  | Some _, Some _ => inbound
  | _, _ =>
      match truthy_string (paymentHeader inbound), paymentRequirements inbound with
      | Some h, Some reqs =>
          {| paymentPayload := Some {| header := Some h; payload := None |};
             paymentRequirements := Some reqs;
             paymentHeader := None |}
      | _, _ => inbound
      end
  end.

(** The second half of [recordSelection]: the header key. *)
Definition record_header (e : StickyEntry) (body : ForwardBody)
  : State StickyRouter.t (Completion unit) :=
  match truthy_string (getHeaderFromBody body) with
  | Some k => modify (StickyRouter.set_byHeader k e) ;;; ret (Normal tt)
  | None => ret (Normal tt)
  end.

(** [StickyRouter.recordSelection].  A truthy payer that is not a string
    throws at [payer.toLowerCase()], before either map is written. *)
Definition recordSelection (peer : string) (body : ForwardBody)
    (verifyResponseBody : jsvalue) (now : Z)
  : State StickyRouter.t (Completion unit) :=
  let payer : jsvalue :=
    match getPayerFromVerifyResponse verifyResponseBody with
    | Some p => Some (JStr p)
    | None => getPayerFromBody body
    end in
  let e := {| peer := peer; expiresAt := now + SELECTION_TTL_MS |} in
  match payer with
  | Some v =>
      if truthy payer then
        match call_toLowerCase v with
        | Normal key =>
            modify (StickyRouter.set_byPayer key e) ;;; record_header e body
        | Throw t => ret (Throw t)
        end
      else record_header e body
  | None => record_header e body
  end.

(** [getPayerFromBody(body)?.toLowerCase()]: [undefined] on [null] and
    [undefined], a call of the method on anything else. *)
Definition lowered_payer (body : ForwardBody) : Completion (option string) :=
  match getPayerFromBody body with
  | None | Some JNull => Normal None
  | Some v =>
      match call_toLowerCase v with
      | Normal s => Normal (Some s)
      | Throw t => Throw t
      end
  end.

(** [StickyRouter.getPreferredPeer]. *)
Definition getPreferredPeer (body : ForwardBody) (now : Z)
  : State StickyRouter.t (Completion (option string)) :=
  r <<- get ;;
  match lowered_payer body with
  | Throw t => ret (Throw t)
  | Normal payer =>
      let byPayer :=
        match truthy_string payer with
        | Some p => StickyRouter.byPayer r !! p
        | None => None
        end in
      match StickyRouter.live now byPayer with
      | Some p => ret (Normal (Some p))
      | None =>
          let byHeader :=
            match truthy_string (getHeaderFromBody body) with
            | Some k => StickyRouter.byHeader r !! k
            | None => None
            end in
          ret (Normal (StickyRouter.live now byHeader))
      end
  end.

(** The environment of one inbound request, as [World], with the body
    that is forwarded as it arrived. *)
Record World := {
  postJson : list string -> string -> ForwardBody -> Z -> CallOutcome;
  Date_now : nat -> Z;
  rng : Rng
}.

Definition peers (w : World) (options : GatewayOptions)
  : State Gateway (list string) :=
  zoom_registry (PeerRegistry.getActivePeers (httpPeers options) (Date_now w 0)).

(** The loop of the verify handler.  [recordSelection] runs inside the
    [try] of the iteration: when it throws, the [catch] logs and the loop
    goes on with the next peer, [lastError] as it was. *)
Fixpoint verify_loop (w : World) (forwardBody : ForwardBody)
    (order : list string) (lastError : option PeerResponse)
    (calls : list string) : State StickyRouter.t (Outcome * list string) :=
  match order with
  | [] =>
      match lastError with
      | Some e => ret (Respond (status e) (body e), calls)
      | None => ret (Respond 503 (error_body "Verification unavailable"), calls)
      end
  | base :: rest =>
      let url := normalizeUrl base +:+ "/verify" in
      match postJson w calls url forwardBody VERIFY_TIMEOUT with
      | Returned response =>
          if bool_decide (status response = 200) then
            recorded <<- recordSelection base forwardBody (body response)
                           (Date_now w (S (length calls))) ;;
            match recorded with
            | Normal _ => ret (Respond 200 (body response), calls ++ [url])
            | Throw _ => verify_loop w forwardBody rest lastError (calls ++ [url])
            end
          else verify_loop w forwardBody rest (Some response) (calls ++ [url])
      | Threw => verify_loop w forwardBody rest lastError (calls ++ [url])
      end
  end.

Definition verify_order (w : World) (activePeers : list string)
  : option (list string) :=
  let '(primary, i) := pickSelectedPeerForVerify (rng w) activePeers 0%nat in
  match primary with
  | Some primary => Some (eval (rotateToNext (rng w) activePeers primary) i)
  | None => None
  end.

(** [POST /verify]. *)
Definition verify (w : World) (options : GatewayOptions) (reqBody : ForwardBody)
  : State Gateway (Outcome * list string) :=
  activePeers <<- peers w options ;;
  if (length activePeers =? 0)%nat then
    ret (Respond 503 (error_body "No peers configured"), [])
  else
    let forwardBody := normalizeForwardBody reqBody in
    match verify_order w activePeers with
    | Some order => zoom_sticky (verify_loop w forwardBody order None [])
    | None => ret (Respond 500 (internal_error_body undefined_replace_message), [])
    end.

Fixpoint settle_loop (w : World) (forwardBody : ForwardBody)
    (order : list string) (calls : list string) : Outcome * list string :=
  match order with
  | [] => (Respond 503 (settle_error_body "Settle unavailable"), calls)
  | peer :: rest =>
      let url := normalizeUrl peer +:+ "/settle" in
      match postJson w calls url forwardBody SETTLE_TIMEOUT with
      | Returned response =>
          if bool_decide (status response = 200)
          then (Respond 200 (body response), calls ++ [url])
          else settle_loop w forwardBody rest (calls ++ [url])
      | Threw => settle_loop w forwardBody rest (calls ++ [url])
      end
  end.

Definition settle_order (w : World) (activePeers : list string)
    (stickyPeer : option string) : option (list string) :=
  let '(preferred, i) :=
    match stickyPeer with
    | Some p => (Some p, 0%nat)
    | None => pickSelectedPeerForVerify (rng w) activePeers 0%nat
    end in
  match preferred with
  | Some preferred => Some (eval (rotateToNext (rng w) activePeers preferred) i)
  | None => None
  end.

(** [POST /settle].  [sticky.getPreferredPeer(forwardBody)] is called
    outside any [try]: what it throws escapes the handler. *)
Definition settle (w : World) (options : GatewayOptions) (reqBody : ForwardBody)
  : State Gateway (Outcome * list string) :=
  activePeers <<- peers w options ;;
  if (length activePeers =? 0)%nat then
    ret (Respond 503 (settle_error_body "No peers configured"), [])
  else
    let forwardBody := normalizeForwardBody reqBody in
    found <<- zoom_sticky (getPreferredPeer forwardBody (Date_now w 0)) ;;
    match found with
    | Throw _ => ret (Uncaught, [])
    | Normal stickyPeer =>
        match settle_order w activePeers stickyPeer with
        | Some order => ret (settle_loop w forwardBody order [])
        | None => ret (Uncaught, [])
        end
    end.

End Raw.

(** ** Further example worlds *)

Definition settle_ok_body : jsvalue :=
  Some (JObj [("success", JBool true); ("txHash", JStr "0xNODEB")]).

(** A settle at 30 s: [http://a] answers 402 and [http://b] answers 200. *)
Definition world_settle_b_succeeds : World :=
  {| postJson := fun _ url _ _ =>
       if decide (url = "http://b/settle")
       then Returned {| status := 200; body := settle_ok_body |}
       else if decide (url = "http://a/settle") then Returned payment_required
       else Threw;
     Date_now := fun _ => 30000;
     rng := fun _ => 0%N |}.

(** ** Gateways in service *)

(** The states a gateway goes through: from the fresh one by requests to
    its routes and by the periodic sweeps of its two stores. *)
Inductive served (options : GatewayOptions) : Gateway -> Prop :=
| served_fresh : served options fresh_gateway
| served_verify w reqBody g :
    served options g -> served options (exec (verify w options reqBody) g)
| served_settle w reqBody g :
    served options g -> served options (exec (settle w options reqBody) g)
| served_register w body g :
    served options g -> served options (exec (register_handler w body) g)
| served_supported w fetch g :
    served options g -> served options (exec (supported_route w fetch options) g)
| served_peers w g :
    served options g -> served options (exec (peers_route w options) g)
| served_sticky_cleanup now g :
    served options g ->
    served options (exec (zoom_sticky (StickyRouter.cleanup now)) g)
| served_registry_cleanup now g :
    served options g ->
    served options (exec (zoom_registry (PeerRegistry.cleanup now)) g).

(** No white space at either end. *)
Definition trimmed (s : string) : Prop := trim s = s.

(** A node at [http://node:4101/facilitator/] that registers with two
    gateways, and the world of a gateway at 10 s. *)
Definition node_options : Registrar.NodeRegistrarOptions :=
  {| Registrar.gatewayUrls := ["http://gw1/facilitator/"; "http://gw2/facilitator"];
     Registrar.nodeBaseUrl := "http://node:4101/facilitator/";
     Registrar.kindsProvider := Some (fun _ => Registrar.ProviderReturned (JArr [kind_x]));
     Registrar.debug := false |}.

Definition world_at_10s : World :=
  {| postJson := fun _ _ _ _ => Threw;
     Date_now := fun _ => 10000;
     rng := fun _ => 0%N |}.

(** What a gateway goes through from [g]: any requests and sweeps, provided
    that no later registration is stamped before [T0] and no registry sweep
    runs after [Tmax]. *)
Inductive served_since (options : GatewayOptions) (T0 Tmax : Z) (g : Gateway)
  : Gateway -> Prop :=
| since_now : served_since options T0 Tmax g g
| since_verify w reqBody g' :
    served_since options T0 Tmax g g' ->
    served_since options T0 Tmax g (exec (verify w options reqBody) g')
| since_settle w reqBody g' :
    served_since options T0 Tmax g g' ->
    served_since options T0 Tmax g (exec (settle w options reqBody) g')
| since_register w body g' :
    T0 <= Date_now w 0 ->
    served_since options T0 Tmax g g' ->
    served_since options T0 Tmax g (exec (register_handler w body) g')
| since_supported w fetch g' :
    served_since options T0 Tmax g g' ->
    served_since options T0 Tmax g (exec (supported_route w fetch options) g')
| since_peers w g' :
    served_since options T0 Tmax g g' ->
    served_since options T0 Tmax g (exec (peers_route w options) g')
| since_sticky_cleanup now g' :
    served_since options T0 Tmax g g' ->
    served_since options T0 Tmax g (exec (zoom_sticky (StickyRouter.cleanup now)) g')
| since_registry_cleanup now g' :
    now <= Tmax ->
    served_since options T0 Tmax g g' ->
    served_since options T0 Tmax g
      (exec (zoom_registry (PeerRegistry.cleanup now)) g').

(** The URL a registration request asks for. *)
Definition requested_url (body : option RegisterBody.t) : string :=
  trim (default EmptyString (truthy_string (body ?. RegisterBody.url))).

Definition register_c : option RegisterBody.t :=
  Some {| RegisterBody.url := Some "  http://c/ "; RegisterBody.kinds := None |}.

Definition register_d : option RegisterBody.t :=
  Some {| RegisterBody.url := Some "HTTPS://d"; RegisterBody.kinds := Some [kind_x] |}.

Definition world_at_60s : World :=
  {| postJson := fun _ _ _ _ => Threw;
     Date_now := fun _ => 60000;
     rng := fun _ => 0%N |}.

(** ** Facilitator nodes *)

(** The three routes a facilitator serves. *)
Definition known_route (req : Facilitator.HandlerRequest) : bool :=
  match Facilitator.method req with
  | Facilitator.GET => bool_decide (Facilitator.path req = "/supported")
  | Facilitator.POST =>
      bool_decide (Facilitator.path req = "/verify")
      || bool_decide (Facilitator.path req = "/settle")
  end.

(** The network identifiers of the chains, when every chain has one. *)
Fixpoint chain_networks (chains : list Facilitator.Chain.t) : option (list string) :=
  match chains with
  | [] => Some []
  | chain :: rest =>
      match truthy_string (Facilitator.Chain.network chain), chain_networks rest with
      | Some network, Some networks => Some (network :: networks)
      | _, _ => None
      end
  end.

(** A library call that creates a signer. *)
Definition is_CreateSigner (c : Call) : bool :=
  match c with
  | CreateSigner _ _ => true
  | _ => false
  end.

(** An x402 library in the manner of the end-to-end tests: the schemas let
    an object with a [network] through, Base Sepolia and Solana devnet are
    supported, every payment verifies and settles. *)
Definition mock_x402 : Facilitator.X402 :=
  {| Facilitator.PaymentRequirementsSchema_parse := fun v =>
       match v with
       | Some (JObj fields) =>
           match get_field "network" fields with
           | Some (JStr n) =>
               Normal {| Facilitator.Requirements.network := n;
                         Facilitator.Requirements.document := JObj fields |}
           | _ => Throw (ErrorWith "Invalid network")
           end
       | _ => Throw (ErrorWith "Required")
       end;
     Facilitator.PaymentPayloadSchema_parse := fun v =>
       match v with
       | Some j => Normal j
       | None => Throw (ErrorWith "Required")
       end;
     Facilitator.SupportedEVMNetworks := ["base-sepolia"];
     Facilitator.SupportedSVMNetworks := ["solana-devnet"];
     Facilitator.createConnectedClient := fun _ => Normal (JObj []);
     Facilitator.createSigner := fun network _ =>
       Normal (JObj [("address", JStr ("signer-" +:+ network))]);
     Facilitator.isSvmSignerWallet := fun signer =>
       match signer with
       | JObj (_ :: _) => true
       | _ => false
       end;
     Facilitator.verify := fun _ _ _ _ => Normal (JBool true);
     Facilitator.settle := fun _ _ _ _ =>
       Normal (JObj [("txHash", JStr "0xE2E")]) |}.

Definition evm_node_config : Facilitator.FacilitatorConfig.t :=
  {| Facilitator.FacilitatorConfig.evmPrivateKey := Some "0xabc";
     Facilitator.FacilitatorConfig.svmPrivateKey := None;
     Facilitator.FacilitatorConfig.svmRpcUrl := None;
     Facilitator.FacilitatorConfig.evmNetworks := None;
     Facilitator.FacilitatorConfig.svmNetworks := None;
     Facilitator.FacilitatorConfig.networks :=
       Some [{| Facilitator.Chain.network := Some "base-sepolia" |}] |}.

Definition svm_node_config : Facilitator.FacilitatorConfig.t :=
  {| Facilitator.FacilitatorConfig.evmPrivateKey := None;
     Facilitator.FacilitatorConfig.svmPrivateKey := Some "svm-key";
     Facilitator.FacilitatorConfig.svmRpcUrl := None;
     Facilitator.FacilitatorConfig.evmNetworks := None;
     Facilitator.FacilitatorConfig.svmNetworks :=
       Some ["solana-devnet"; "solana-localnet"];
     Facilitator.FacilitatorConfig.networks := None |}.

Definition keyless_node_config : Facilitator.FacilitatorConfig.t :=
  {| Facilitator.FacilitatorConfig.evmPrivateKey := None;
     Facilitator.FacilitatorConfig.svmPrivateKey := None;
     Facilitator.FacilitatorConfig.svmRpcUrl := None;
     Facilitator.FacilitatorConfig.evmNetworks := None;
     Facilitator.FacilitatorConfig.svmNetworks := None;
     Facilitator.FacilitatorConfig.networks := None |}.

Definition payment_request : jsvalue :=
  Some (JObj [("paymentPayload",
               JObj [("x402Version", JNum 1); ("scheme", JStr "exact");
                     ("network", JStr "base-sepolia")]);
              ("paymentRequirements",
               JObj [("scheme", JStr "exact"); ("network", JStr "base-sepolia")])]).

Definition post_settle (body : jsvalue) : Facilitator.HandlerRequest :=
  {| Facilitator.method := Facilitator.POST;
     Facilitator.path := "/settle";
     Facilitator.body := body |}.

Definition post_verify (body : jsvalue) : Facilitator.HandlerRequest :=
  {| Facilitator.method := Facilitator.POST;
     Facilitator.path := "/verify";
     Facilitator.body := body |}.

Definition get_supported : Facilitator.HandlerRequest :=
  {| Facilitator.method := Facilitator.GET;
     Facilitator.path := "/supported";
     Facilitator.body := None |}.

(** [isSvmSignerWallet(signer) ? signer.address : undefined]. *)
Definition fee_payer (x : Facilitator.X402) (signer : json) : jsvalue :=
  if Facilitator.isSvmSignerWallet x signer
  then Facilitator.raw_field "address" (Some signer)
  else None.

(** The configured private key that settles on [network], if there is
    one: the EVM key on an EVM network, the SVM key on an SVM network. *)
Definition settlement_key (x : Facilitator.X402) (this : Facilitator.t)
    (network : string) : option string :=
  if bool_decide (network ∈ Facilitator.SupportedEVMNetworks x)
  then truthy_string (Facilitator.evmPrivateKey this)
  else if bool_decide (network ∈ Facilitator.SupportedSVMNetworks x)
  then truthy_string (Facilitator.svmPrivateKey this)
  else None.

(** ** Bodies with an ill-typed payer *)

(** The payer found in the body is a string, or there is none
    ([undefined] or [null]). *)
Definition payer_is_string_or_absent (body : Raw.ForwardBody) : bool :=
  match Raw.getPayerFromBody body with
  | None | Some JNull | Some (JStr _) => true
  | Some _ => false
  end.

(** The clock and the random source of a request. *)
Definition env_of (w : Raw.World) : World :=
  {| postJson := fun _ _ _ _ => Threw;
     Date_now := Raw.Date_now w;
     rng := Raw.rng w |}.

(** What the peers of [order] answer when they are called one after the
    other, [calls] having been made before. *)
Fixpoint raw_call_outcomes (w : Raw.World) (forwardBody : Raw.ForwardBody)
    (suffix : string) (timeout : Z) (calls : list string) (order : list string)
  : list CallOutcome :=
  match order with
  | [] => []
  | base :: rest =>
      let url := normalizeUrl base +:+ suffix in
      Raw.postJson w calls url forwardBody timeout
        :: raw_call_outcomes w forwardBody suffix timeout (calls ++ [url]) rest
  end.

(** A payment whose [from] is the number 5, and the same with a string. *)
Definition raw_body (payer : json) : Raw.ForwardBody :=
  {| Raw.paymentPayload :=
       Some {| Raw.header := None;
               Raw.payload :=
                 Some {| Raw.authorization := Some {| Raw.from := Some payer |};
                         Raw.transaction := None |} |};
     Raw.paymentRequirements :=
       Some [("scheme", JStr "exact"); ("network", JStr "base-sepolia")];
     Raw.paymentHeader := None |}.

Definition body_with_numeric_payer : Raw.ForwardBody := raw_body (JNum 5).

Definition valid_without_payer : jsvalue := Some (JObj [("isValid", JBool true)]).

(** [http://a] answers verify with 200, its response naming no payer;
    every other call is answered 402. *)
Definition raw_world_a_verifies : Raw.World :=
  {| Raw.postJson := fun _ url _ _ =>
       if decide (url = "http://a/verify")
       then Returned {| status := 200; body := valid_without_payer |}
       else Returned payment_required;
     Raw.Date_now := fun _ => 1000;
     Raw.rng := fun _ => 0%N |}.

(** [http://b] answers settle with 200; every other call is answered
    402. *)
Definition raw_world_b_settles : Raw.World :=
  {| Raw.postJson := fun _ url _ _ =>
       if decide (url = "http://b/settle")
       then Returned {| status := 200; body := settle_ok_body |}
       else Returned payment_required;
     Raw.Date_now := fun _ => 1000;
     Raw.rng := fun _ => 0%N |}.

(** Only ASCII characters. *)
Fixpoint ascii_only (s : string) : bool :=
  match s with
  | EmptyString => true
  | String c rest => (nat_of_ascii c <? 128)%nat && ascii_only rest
  end.

(** Nothing but white space. *)
Fixpoint all_white_space (s : string) : bool :=
  match s with
  | EmptyString => true
  | String c rest => is_white_space c && all_white_space rest
  end.

(** The last character, if any, is white space. *)
Fixpoint ends_with_white_space (s : string) : bool :=
  match s with
  | EmptyString => false
  | String c rest =>
      match rest with
      | EmptyString => is_white_space c
      | String _ _ => ends_with_white_space rest
      end
  end.

(** The string begins with [http://] or [https://], the letters in either
    case. *)
Definition begins_with_http (s : string) : Prop :=
  ∃ h t1 t2 p rest,
    (h = "h" ∨ h = "H")%char ∧ (t1 = "t" ∨ t1 = "T")%char ∧
    (t2 = "t" ∨ t2 = "T")%char ∧ (p = "p" ∨ p = "P")%char ∧
    (s = String h (String t1 (String t2 (String p ("://" +:+ rest)))) ∨
     ∃ c, (c = "s" ∨ c = "S")%char ∧
          s = String h (String t1 (String t2 (String p (String c ("://" +:+ rest)))))).

(** ** Descriptors that differ in the order of their fields *)

(** Field-for-field identical: two objects that hold the same value under
    every field name, in whatever order the fields are written. *)
Definition same_fields (k1 k2 : json) : Prop :=
  match k1, k2 with
  | JObj fields1, JObj fields2 =>
      ∀ name, get_field name fields1 = get_field name fields2
  | _, _ => k1 = k2
  end.

Definition kind_exact_base : json :=
  JObj [("scheme", JStr "exact"); ("network", JStr "base")].

Definition kind_base_exact : json :=
  JObj [("network", JStr "base"); ("scheme", JStr "exact")].

(** [http://a] and [http://b] advertise the same kind, and write its two
    fields in different orders. *)
Definition fetch_reordered (url : string) : FetchOutcome :=
  if decide (url = "http://a/supported")
  then BodyJson (JObj [("kinds", JArr [kind_exact_base])])
  else if decide (url = "http://b/supported")
  then BodyJson (JObj [("kinds", JArr [kind_base_exact])])
  else FetchFailed.

(** ** Bodies of the declared type, as they arrive *)

(** A body of type [ForwardBody] as the request that carries it: its payer,
    when it has one, is a string. *)
Definition of_typed (b : ForwardBody) : Raw.ForwardBody :=
  {| Raw.paymentPayload :=
       (fun pp =>
          {| Raw.header := header pp;
             Raw.payload :=
               (fun pl =>
                  {| Raw.authorization :=
                       (fun a => {| Raw.from := JStr <$> from a |})
                         <$> authorization pl;
                     Raw.transaction := transaction pl |})
                 <$> payload pp |})
         <$> paymentPayload b;
     Raw.paymentRequirements := paymentRequirements b;
     Raw.paymentHeader := paymentHeader b |}.

(** The peers as they answer bodies of the declared type. *)
Definition typed_world (w : Raw.World) : World :=
  {| postJson := fun calls url b timeout =>
       Raw.postJson w calls url (of_typed b) timeout;
     Date_now := Raw.Date_now w;
     rng := Raw.rng w |}.

(** * Properties *)

(** ** Strings *)

Lemma truthy_string_Some (o : option string) (s : string) :
  truthy_string o = Some s ↔ o = Some s ∧ s ≠ EmptyString.
Proof.
  unfold truthy_string. destruct o as [x|].
  - destruct (decide (x = EmptyString)) as [->|Hne].
    + split; [discriminate|]. by intros [[= ->] ?].
    + split; [by intros [= ->]|]. by intros [[= ->] _].
  - split; [discriminate|]. by intros [? _].
Qed.

Lemma truthy_string_idem (o : option string) :
  truthy_string (truthy_string o) = truthy_string o.
Proof.
  destruct (truthy_string o) as [s|] eqn:E; [|done].
  apply truthy_string_Some in E as [_ Hne].
  apply truthy_string_Some. done.
Qed.

Lemma toLowerCase_nonempty (s : string) :
  s ≠ EmptyString → toLowerCase s ≠ EmptyString.
Proof. destruct s; [done|]. discriminate. Qed.

Lemma getHeaderFromBody_truthy (b : ForwardBody) :
  truthy_string (getHeaderFromBody b) = getHeaderFromBody b.
Proof.
  unfold getHeaderFromBody.
  destruct (truthy_string (paymentHeader b)) as [h|] eqn:E1.
  { rewrite <- E1. apply truthy_string_idem. }
  destruct (truthy_string (paymentPayload b ?. header)) as [h|] eqn:E2.
  { rewrite <- E2. apply truthy_string_idem. }
  apply truthy_string_idem.
Qed.

(** ** Sticky router *)

Module StickyFacts.
Import StickyRouter.

Lemma recordSelection_exec peer body resp now r :
  exec (recordSelection peer body resp now) r =
  let e := {| peer := peer; expiresAt := now + SELECTION_TTL_MS |} in
  {| byPayer := match recorded_payer body resp with
                | Some p => <[toLowerCase p := e]> (byPayer r)
                | None => byPayer r
                end;
     byHeader := match getHeaderFromBody body with
                 | Some k => <[k := e]> (byHeader r)
                 | None => byHeader r
                 end |}.
Proof.
  unfold recordSelection, recorded_payer. rewrite getHeaderFromBody_truthy.
  run_state.
  destruct (truthy_string _) as [p|]; destruct (getHeaderFromBody body) as [k|];
    destruct r; reflexivity.
Qed.

Lemma getPreferredPeer_exec body now r :
  exec (getPreferredPeer body now) r = r.
Proof.
  unfold getPreferredPeer. run_state.
  destruct (live now (byPayer_entry body r)); [done|].
  destruct (live now (byHeader_entry body r)); done.
Qed.

Lemma getPreferredPeer_eval body now r :
  eval (getPreferredPeer body now) r =
  match live now (byPayer_entry body r) with
  | Some p => Some p
  | None => live now (byHeader_entry body r)
  end.
Proof.
  unfold getPreferredPeer. run_state.
  destruct (live now (byPayer_entry body r)); [done|].
  destruct (live now (byHeader_entry body r)); done.
Qed.

Lemma live_Some now e p :
  live now e = Some p ↔ ∃ x, e = Some x ∧ expiresAt x > now ∧ peer x = p.
Proof.
  unfold live. destruct e as [x|].
  - case_bool_decide as H.
    + split; [intros [= <-]; by exists x|]. by intros (y & [= <-] & _ & <-).
    + split; [discriminate|]. by intros (y & [= <-] & ? & _).
  - split; [discriminate|]. by intros (y & ? & _).
Qed.

Lemma live_expired now e x :
  e = Some x → expiresAt x <= now → live now e = None.
Proof. intros -> H. unfold live. case_bool_decide; [lia|done]. Qed.

Lemma live_fresh now (peer : string) T :
  now < T → live now (Some {| peer := peer; expiresAt := T |}) = Some peer.
Proof. intros H. unfold live. simpl. case_bool_decide; [done|lia]. Qed.

Lemma byPayer_entry_lookup q qp r :
  getPayerFromBody q = Some qp → qp ≠ EmptyString →
  byPayer_entry q r = byPayer r !! toLowerCase qp.
Proof.
  intros Hq Hne. unfold byPayer_entry. rewrite Hq. simpl.
  unfold truthy_string.
  destruct (decide _) as [E|]; [|done].
  by apply toLowerCase_nonempty in Hne.
Qed.

Lemma byHeader_entry_lookup q k r :
  getHeaderFromBody q = Some k → byHeader_entry q r = byHeader r !! k.
Proof.
  intros Hq. unfold byHeader_entry.
  rewrite getHeaderFromBody_truthy, Hq. done.
Qed.

Lemma live_expire_by_payer T t q r :
  expire_by T r → T <= t → live t (byPayer_entry q r) = None.
Proof.
  intros [HP _] Ht. unfold byPayer_entry.
  destruct (truthy_string _) as [p|]; [|done].
  destruct (byPayer r !! p) as [e|] eqn:E; [|done].
  eapply live_expired; [done|]. apply HP in E. simpl in E. lia.
Qed.

Lemma live_expire_by_header T t q r :
  expire_by T r → T <= t → live t (byHeader_entry q r) = None.
Proof.
  intros [_ HH] Ht. unfold byHeader_entry.
  destruct (truthy_string _) as [p|]; [|done].
  destruct (byHeader r !! p) as [e|] eqn:E; [|done].
  eapply live_expired; [done|]. apply HH in E. simpl in E. lia.
Qed.

Lemma expire_by_empty T : expire_by T empty.
Proof. split; apply map_Forall_empty. Qed.

Lemma expire_by_mono T T' r : T <= T' → expire_by T r → expire_by T' r.
Proof.
  intros HT [HP HH]. split; intros k e E; [apply HP in E|apply HH in E];
    simpl in *; lia.
Qed.

(** Recordings made on a clock that does not run backwards keep every
    expiry within one TTL of the latest recording. *)
Lemma expire_by_recordSelection peer body resp now r :
  expire_by (now + SELECTION_TTL_MS) r →
  expire_by (now + SELECTION_TTL_MS) (exec (recordSelection peer body resp now) r).
Proof.
  intros [HP HH]. rewrite recordSelection_exec. simpl. split; simpl.
  - destruct (recorded_payer body resp); [|done].
    apply map_Forall_insert_2; [simpl; lia|done].
  - destruct (getHeaderFromBody body); [|done].
    apply map_Forall_insert_2; [simpl; lia|done].
Qed.

Lemma expire_by_cleanup T now r :
  expire_by T r → expire_by T (exec (cleanup now) r).
Proof.
  intros [HP HH]. unfold cleanup. run_state. split; simpl.
  - intros k e E. apply map_lookup_filter_Some in E as [E _]. by apply HP in E.
  - intros k e E. apply map_lookup_filter_Some in E as [E _]. by apply HH in E.
Qed.

(** Every entry of a router built by time [T] expires within one TTL of
    [T]. *)
Lemma built_by_expire_by T r :
  built_by T r → expire_by (T + SELECTION_TTL_MS) r.
Proof.
  induction 1 as [|r peer body resp now _ IH Hnow|r now _ IH].
  - apply expire_by_empty.
  - destruct IH as [HP HH]. rewrite recordSelection_exec. split; simpl.
    + destruct (recorded_payer body resp); [|done].
      apply map_Forall_insert_2; [simpl; lia|done].
    + destruct (getHeaderFromBody body); [|done].
      apply map_Forall_insert_2; [simpl; lia|done].
  - by apply expire_by_cleanup.
Qed.

(** A lookup by the recorded payer, in any letter case, finds the
    recording for as long as its expiry lies ahead. *)
Lemma lookup_recorded_payer r peer body resp now p q qp t :
  recorded_payer body resp = Some p →
  getPayerFromBody q = Some qp →
  toLowerCase qp = toLowerCase p →
  t < now + SELECTION_TTL_MS →
  eval (getPreferredPeer q t) (exec (recordSelection peer body resp now) r)
    = Some peer.
Proof.
  intros Hrec Hq Hlow Ht.
  rewrite getPreferredPeer_eval.
  assert (p ≠ EmptyString) as Hp.
  { unfold recorded_payer in Hrec. by apply truthy_string_Some in Hrec as [_ ?]. }
  assert (qp ≠ EmptyString) as Hqp.
  { intros ->. simpl in Hlow. symmetry in Hlow.
    by apply toLowerCase_nonempty in Hp. }
  rewrite (byPayer_entry_lookup q qp) by done.
  rewrite recordSelection_exec. simpl. rewrite Hrec, Hlow.
  rewrite lookup_insert_eq.
  by rewrite live_fresh.
Qed.

(** A lookup by the recorded fingerprint finds the recording when the
    payer lookup has nothing live to offer. *)
Lemma lookup_recorded_header r peer body resp now k q t :
  getHeaderFromBody body = Some k →
  getHeaderFromBody q = Some k →
  live t (byPayer_entry q (exec (recordSelection peer body resp now) r)) = None →
  t < now + SELECTION_TTL_MS →
  eval (getPreferredPeer q t) (exec (recordSelection peer body resp now) r)
    = Some peer.
Proof.
  intros Hk Hq Hmiss Ht.
  rewrite getPreferredPeer_eval, Hmiss.
  rewrite (byHeader_entry_lookup q k) by done.
  rewrite recordSelection_exec. simpl. rewrite Hk.
  rewrite lookup_insert_eq.
  by apply live_fresh.
Qed.

(** Once the TTL of the latest recording has run out, nothing is found. *)
Lemma lookup_after_ttl r peer body resp now q t :
  built_by now r →
  now + SELECTION_TTL_MS <= t →
  eval (getPreferredPeer q t) (exec (recordSelection peer body resp now) r)
    = None.
Proof.
  intros Hinv Ht. apply built_by_expire_by in Hinv.
  apply (expire_by_recordSelection peer body resp) in Hinv.
  rewrite getPreferredPeer_eval.
  rewrite (live_expire_by_payer _ _ _ _ Hinv Ht).
  by rewrite (live_expire_by_header _ _ _ _ Hinv Ht).
Qed.

Lemma cleanup_byPayer now r k e :
  byPayer (exec (cleanup now) r) !! k = Some e ↔
  byPayer r !! k = Some e ∧ now < expiresAt e.
Proof.
  unfold cleanup. run_state. rewrite map_lookup_filter_Some. simpl.
  split; intros [? ?]; split; try done; lia.
Qed.

Lemma cleanup_byHeader now r k e :
  byHeader (exec (cleanup now) r) !! k = Some e ↔
  byHeader r !! k = Some e ∧ now < expiresAt e.
Proof.
  unfold cleanup. run_state. rewrite map_lookup_filter_Some. simpl.
  split; intros [? ?]; split; try done; lia.
Qed.

End StickyFacts.

(** ** Sticky router: recording, lookup, expiry *)




(** C7 (as amended).  A consultation never returns the peer of an entry
    whose expiry has passed: such an entry is read as a miss, the payer
    lookup falling through to the fingerprint keyspace and an expired
    fingerprint entry giving none.  The consultation itself leaves the cache
    as it is; expired entries stay in it, and count in its size, until
    [cleanup] sweeps them out. *)
Theorem sticky_expired_entry_is_a_miss
    (r : StickyRouter.t) (q : ForwardBody) (now : Z) :
  exec (StickyRouter.getPreferredPeer q now) r = r ∧
  (∀ e, StickyRouter.byPayer_entry q r = Some e → expiresAt e <= now →
        eval (StickyRouter.getPreferredPeer q now) r
          = StickyRouter.live now (StickyRouter.byHeader_entry q r)) ∧
  (∀ e, StickyRouter.live now (StickyRouter.byPayer_entry q r) = None →
        StickyRouter.byHeader_entry q r = Some e → expiresAt e <= now →
        eval (StickyRouter.getPreferredPeer q now) r = None) ∧
  (∀ p, eval (StickyRouter.getPreferredPeer q now) r = Some p →
        ∃ e, (StickyRouter.byPayer_entry q r = Some e ∨
              StickyRouter.byHeader_entry q r = Some e) ∧
             peer e = p ∧ now < expiresAt e) ∧
  (∀ k e, StickyRouter.byPayer (exec (StickyRouter.cleanup now) r) !! k = Some e ↔
          StickyRouter.byPayer r !! k = Some e ∧ now < expiresAt e) ∧
  (∀ k e, StickyRouter.byHeader (exec (StickyRouter.cleanup now) r) !! k = Some e ↔
          StickyRouter.byHeader r !! k = Some e ∧ now < expiresAt e).
Proof.
  split; [apply StickyFacts.getPreferredPeer_exec|].
  split.
  { intros e He Hexp. rewrite StickyFacts.getPreferredPeer_eval.
    by rewrite (StickyFacts.live_expired now _ e He Hexp). }
  split.
  { intros e Hmiss He Hexp. rewrite StickyFacts.getPreferredPeer_eval, Hmiss.
    by apply (StickyFacts.live_expired now _ e). }
  split.
  { intros p. rewrite StickyFacts.getPreferredPeer_eval.
    destruct (StickyRouter.live now (StickyRouter.byPayer_entry q r)) as [p'|] eqn:E.
    - intros [= <-]. apply StickyFacts.live_Some in E as (e & He & Hexp & Hp).
      exists e. repeat split; [by left|done|lia].
    - intros E'. apply StickyFacts.live_Some in E' as (e & He & Hexp & Hp).
      exists e. repeat split; [by right|done|lia]. }
  split.
  - apply StickyFacts.cleanup_byPayer.
  - apply StickyFacts.cleanup_byHeader.
Qed.

Lemma sticky_expired_entry_is_a_miss_witness :
  let r := exec (StickyRouter.recordSelection "http://peer1:3000"
                   (body_with_payer "0x4444") None 0) StickyRouter.empty in
  eval (StickyRouter.getPreferredPeer (body_with_payer "0x4444") 60001) r
    = StickyRouter.live 60001
        (StickyRouter.byHeader_entry (body_with_payer "0x4444") r).
Proof.
  intros r.
  pose proof (sticky_expired_entry_is_a_miss r (body_with_payer "0x4444") 60001)
    as (_ & H & _).
  apply (H {| peer := "http://peer1:3000"; expiresAt := 60000 |}).
  - reflexivity.
  - vm_compute. discriminate.
Defined.

(** C7, the statement as claimed fails: consulting an expired entry does
    not remove it.  After a lookup at 60001 ms that reads the entry recorded
    at 0 ms as a miss, the entry is still in the cache and the router still
    counts one payer. *)
Lemma sticky_lookup_does_not_remove :
  let r := exec (StickyRouter.recordSelection "http://peer1:3000"
                   (body_with_payer "0x4444") None 0) StickyRouter.empty in
  let q := body_with_payer "0x4444" in
  eval (StickyRouter.getPreferredPeer q 60001) r = None ∧
  StickyRouter.byPayer (exec (StickyRouter.getPreferredPeer q 60001) r) !! "0x4444"
    = Some {| peer := "http://peer1:3000"; expiresAt := 60000 |} ∧
  StickyRouter.size (exec (StickyRouter.getPreferredPeer q 60001) r)
    = {| StickyRouter.payers := 1; StickyRouter.headers := 0 |} ∧
  StickyRouter.size (exec (StickyRouter.cleanup 60001) r)
    = {| StickyRouter.payers := 0; StickyRouter.headers := 0 |}.
Proof. vm_compute. repeat split. Qed.

(** ** URLs *)

Lemma normalizeUrl_cons (c c' : ascii) (s : string) :
  normalizeUrl (String c (String c' s)) = String c (normalizeUrl (String c' s)).
Proof. reflexivity. Qed.

Lemma ends_with_slash_cons (c c' : ascii) (s : string) :
  ends_with_slash (String c (String c' s)) = ends_with_slash (String c' s).
Proof. reflexivity. Qed.

Lemma normalizeUrl_fixed (s : string) :
  ends_with_slash s = false → normalizeUrl s = s.
Proof.
  induction s as [|c s IH]; [done|].
  destruct s as [|c' s'].
  - simpl. case_bool_decide; [done|]. intros _. by rewrite decide_False.
  - rewrite ends_with_slash_cons, normalizeUrl_cons. intros H. by rewrite IH.
Qed.

Lemma normalizeUrl_strips (s : string) :
  ends_with_slash s = true → s = normalizeUrl s +:+ "/".
Proof.
  induction s as [|c s IH]; [done|].
  destruct s as [|c' s'].
  - simpl. case_bool_decide as E; [|done]. intros _. rewrite decide_True by done.
    by rewrite E.
  - rewrite ends_with_slash_cons, normalizeUrl_cons. intros H.
    rewrite (IH H) at 1. reflexivity.
Qed.

(** A normalized URL still ends in a slash only when the URL it comes from
    ended in two. *)
Lemma normalizeUrl_trailing_slash (s : string) :
  ends_with_slash (normalizeUrl s) = true →
  s = normalizeUrl s +:+ "/" ∧ ends_with_slash s = true.
Proof.
  intros H. destruct (ends_with_slash s) eqn:E.
  - split; [by apply normalizeUrl_strips|done].
  - rewrite normalizeUrl_fixed in H by done. congruence.
Qed.

(** ** Peer registry *)

Module RegistryFacts.
Import PeerRegistry.

Lemma elem_of_set_add out x y : y ∈ set_add out x ↔ y ∈ out ∨ y = x.
Proof.
  unfold set_add. destruct (decide (x ∈ out)) as [Hin|Hout].
  - split; [by left|]. intros [?| ->]; done.
  - rewrite elem_of_app, list_elem_of_singleton. done.
Qed.

Lemma NoDup_set_add out x : NoDup out → NoDup (set_add out x).
Proof.
  intros Hnd. unfold set_add. destruct (decide (x ∈ out)) as [Hin|Hout]; [done|].
  apply NoDup_app. split; [done|]. split.
  - intros y Hy Hy'. apply list_elem_of_singleton in Hy'. by subst.
  - apply NoDup_singleton.
Qed.

(** The loop over the static peers. *)
Lemma static_loop_spec (l out : list string) :
  let out' := fold_left (fun out p => set_add out (normalizeUrl p)) l out in
  (NoDup out → NoDup out') ∧
  (∀ u, u ∈ out' ↔ u ∈ out ∨ ∃ p, p ∈ l ∧ u = normalizeUrl p).
Proof.
  revert out. induction l as [|p l IH]; intros out; simpl.
  - split; [done|]. intros u. split; [by left|].
    intros [?|(p & Hp & _)]; [done|]. by apply elem_of_nil in Hp.
  - destruct (IH (set_add out (normalizeUrl p))) as [IH1 IH2]. split.
    + intros Hnd. by apply IH1, NoDup_set_add.
    + intros u. rewrite IH2, elem_of_set_add. split.
      * intros [[?| ->]|(p' & Hp' & ->)]; [by left| |].
        -- right. exists p. split; [apply list_elem_of_here|done].
        -- right. exists p'. split; [by apply list_elem_of_further|done].
      * intros [?|(p' & Hp' & ->)]; [by left; left|].
        apply elem_of_cons in Hp' as [->|Hp']; [by left; right|].
        right. by exists p'.
Qed.

(** The loop over the registered peers. *)
Lemma registered_loop_spec (now : Z) (r : t) (out : list string) :
  let out' :=
    fold_left
      (fun out (kv : string * RegisteredPeer) =>
         if bool_decide (now - lastSeenMs kv.2 <= REGISTRY_TTL_MS)
         then set_add out (normalizeUrl (url kv.2)) else out)
      r out in
  (NoDup out → NoDup out') ∧
  (∀ u, u ∈ out' ↔
        u ∈ out ∨ ∃ kv, kv ∈ r ∧ fresh_at now kv.2 ∧ u = normalizeUrl (url kv.2)).
Proof.
  revert out. induction r as [|kv r IH]; intros out; simpl.
  - split; [done|]. intros u. split; [by left|].
    intros [?|(p & Hp & _)]; [done|]. by apply elem_of_nil in Hp.
  - case_bool_decide as Hfresh.
    + destruct (IH (set_add out (normalizeUrl (url kv.2)))) as [IH1 IH2]. split.
      * intros Hnd. by apply IH1, NoDup_set_add.
      * intros u. rewrite IH2, elem_of_set_add. split.
        -- intros [[?| ->]|(kv' & Hkv' & Hf & ->)]; [by left| |].
           ++ right. exists kv. split; [apply list_elem_of_here|done].
           ++ right. exists kv'. split; [by apply list_elem_of_further|done].
        -- intros [?|(kv' & Hkv' & Hf & ->)]; [by left; left|].
           apply elem_of_cons in Hkv' as [->|Hkv']; [by left; right|].
           right. by exists kv'.
    + destruct (IH out) as [IH1 IH2]. split; [done|].
      intros u. rewrite IH2. split.
      * intros [?|(kv' & Hkv' & Hf & ->)]; [by left|].
        right. exists kv'. split; [by apply list_elem_of_further|done].
      * intros [?|(kv' & Hkv' & Hf & ->)]; [by left|].
        apply elem_of_cons in Hkv' as [->|Hkv']; [done|].
        right. by exists kv'.
Qed.

Lemma getActivePeers_exec staticPeers now r :
  exec (getActivePeers staticPeers now) r = r.
Proof. reflexivity. Qed.

Lemma NoDup_getActivePeers staticPeers now r :
  NoDup (eval (getActivePeers staticPeers now) r).
Proof.
  unfold getActivePeers. run_state.
  apply registered_loop_spec, static_loop_spec, NoDup_nil_2.
Qed.

Lemma elem_of_getActivePeers staticPeers now r u :
  u ∈ eval (getActivePeers staticPeers now) r ↔
  (∃ p, p ∈ staticPeers ∧ u = normalizeUrl p) ∨
  (∃ kv, kv ∈ r ∧ fresh_at now kv.2 ∧ u = normalizeUrl (url kv.2)).
Proof.
  unfold getActivePeers. run_state.
  destruct (registered_loop_spec now r
    (fold_left (fun out p => set_add out (normalizeUrl p)) staticPeers []))
    as [_ ->].
  destruct (static_loop_spec staticPeers []) as [_ ->].
  split.
  - intros [[H|?]|?]; [by apply elem_of_nil in H|by left|by right].
  - intros [?|?]; [by left; right|by right].
Qed.

(** [Map.prototype.set] *)

Lemma map_get_set_eq k v m : map_get k (map_set k v m) = Some v.
Proof.
  induction m as [|[k' v'] m IH]; simpl.
  - by rewrite decide_True.
  - destruct (decide (k' = k)); simpl.
    + by rewrite decide_True.
    + by rewrite decide_False.
Qed.

Lemma map_get_set_ne k k' v m :
  k ≠ k' → map_get k' (map_set k v m) = map_get k' m.
Proof.
  intros Hne. induction m as [|[k0 v0] m IH]; simpl.
  - by rewrite decide_False.
  - destruct (decide (k0 = k)) as [->|]; simpl.
    + by rewrite !decide_False.
    + by rewrite IH.
Qed.

Lemma elem_of_map_set k v m : (k, v) ∈ map_set k v m.
Proof.
  induction m as [|[k' v'] m IH]; simpl.
  - apply list_elem_of_here.
  - destruct (decide (k' = k)); [apply list_elem_of_here|].
    by apply list_elem_of_further.
Qed.

Lemma map_get_Some_keys k m : is_Some (map_get k m) ↔ k ∈ map fst m.
Proof.
  induction m as [|[k' v'] m IH]; simpl.
  - split; [by intros [? ?]|]. intros H. by apply elem_of_nil in H.
  - destruct (decide (k' = k)) as [->|Hne].
    + split; [intros _; apply list_elem_of_here|by eexists].
    + rewrite IH, elem_of_cons. intuition congruence.
Qed.

(** Setting a key that is present keeps every key where it is. *)
Lemma map_set_present_keys k v m :
  k ∈ map fst m → map fst (map_set k v m) = map fst m.
Proof.
  induction m as [|[k' v'] m IH]; simpl.
  - intros H. by apply elem_of_nil in H.
  - intros H. destruct (decide (k' = k)) as [->|Hne]; simpl; [done|].
    f_equal. apply IH. apply elem_of_cons in H as [?|?]; [congruence|done].
Qed.

(** Setting a key that is absent appends it. *)
Lemma map_set_absent k v m :
  k ∉ map fst m → map_set k v m = m ++ [(k, v)].
Proof.
  induction m as [|[k' v'] m IH]; simpl; [done|].
  intros H. apply not_elem_of_cons in H as [Hne Hin].
  rewrite decide_False by congruence. by rewrite IH.
Qed.

Lemma map_set_keys_subseteq k v m k' :
  k' ∈ map fst (map_set k v m) ↔ k' = k ∨ k' ∈ map fst m.
Proof.
  induction m as [|[k0 v0] m IH]; simpl.
  - rewrite list_elem_of_singleton. split; [by left|].
    intros [?|H]; [done|]. by apply elem_of_nil in H.
  - destruct (decide (k0 = k)) as [->|Hne]; simpl.
    + rewrite !elem_of_cons. intuition congruence.
    + rewrite !elem_of_cons, IH. intuition congruence.
Qed.

Lemma distinct_keys_map_set k v m :
  distinct_keys m → distinct_keys (map_set k v m).
Proof.
  unfold distinct_keys.
  induction m as [|[k0 v0] m IH]; simpl.
  - intros _. apply NoDup_singleton.
  - intros Hnd. apply NoDup_cons in Hnd as [Hnin Hnd].
    destruct (decide (k0 = k)) as [->|Hne]; simpl.
    + by apply NoDup_cons.
    + apply NoDup_cons. split; [|by apply IH].
      rewrite map_set_keys_subseteq. by intros [?|?].
Qed.

(** Under distinct keys, the entries after a [set] are the new one and
    the old ones under other keys. *)
Lemma elem_of_map_set_inv k v m k' v' :
  distinct_keys m →
  (k', v') ∈ map_set k v m →
  (k' = k ∧ v' = v) ∨ (k' ≠ k ∧ (k', v') ∈ m).
Proof.
  unfold distinct_keys.
  induction m as [|[k0 v0] m IH]; simpl.
  - intros _ H. apply list_elem_of_singleton in H. left. by inversion H.
  - intros Hnd H. apply NoDup_cons in Hnd as [Hnin Hnd].
    destruct (decide (k0 = k)) as [->|Hne].
    + apply elem_of_cons in H as [H|H]; [left; by inversion H|].
      right. split; [|by apply list_elem_of_further].
      intros ->. apply Hnin. apply list_elem_of_fmap. by exists (k, v').
    + apply elem_of_cons in H as [H|H].
      * inversion H; subst. right. split; [done|apply list_elem_of_here].
      * destruct (IH Hnd H) as [?|[? ?]]; [by left|].
        right. split; [done|by apply list_elem_of_further].
Qed.

Lemma elem_of_map_set_other k v m k' v' :
  k' ≠ k → (k', v') ∈ m → (k', v') ∈ map_set k v m.
Proof.
  intros Hne. induction m as [|[k0 v0] m IH]; simpl.
  - intros H. by apply elem_of_nil in H.
  - intros H. destruct (decide (k0 = k)) as [->|Hne0].
    + apply elem_of_cons in H as [H|H]; [inversion H; congruence|].
      by apply list_elem_of_further.
    + apply elem_of_cons in H as [H|H].
      * inversion H; subst. apply list_elem_of_here.
      * by apply list_elem_of_further, IH.
Qed.

Lemma distinct_keys_filter (P : string * RegisteredPeer → Prop)
    `{∀ kv, Decision (P kv)} (m : list (string * RegisteredPeer)) :
  distinct_keys m → distinct_keys (filter P m).
Proof.
  unfold distinct_keys. induction m as [|kv m IH]; [done|].
  intros Hnd. simpl in Hnd. apply NoDup_cons in Hnd as [Hnin Hnd].
  destruct (decide (P kv)).
  - rewrite filter_cons_True by done. simpl. apply NoDup_cons. split; [|by apply IH].
    intros Hin. apply Hnin. apply list_elem_of_fmap in Hin as (kv' & -> & Hin).
    apply list_elem_of_filter in Hin as [_ Hin].
    apply list_elem_of_fmap. by exists kv'.
  - rewrite filter_cons_False by done. by apply IH.
Qed.

(** The keys of a registry built by registrations and sweeps are distinct. *)
Lemma registry_built_distinct_keys r : registry_built r → distinct_keys r.
Proof.
  induction 1 as [|r u kinds now _ IH|r now _ IH].
  - apply NoDup_nil_2.
  - by apply distinct_keys_map_set.
  - unfold cleanup. run_state. by apply distinct_keys_filter.
Qed.

Lemma register_exec u kinds now r :
  exec (register u kinds now) r
    = map_set u {| url := u; kinds := kinds; lastSeenMs := now |} r.
Proof. reflexivity. Qed.

(** A registered URL is active for as long as its heartbeat is fresh. *)
Lemma registered_is_active u kinds T staticPeers t r :
  t <= T + REGISTRY_TTL_MS →
  normalizeUrl u ∈ eval (getActivePeers staticPeers t) (exec (register u kinds T) r).
Proof.
  intros Ht. apply elem_of_getActivePeers. right.
  exists (u, {| url := u; kinds := kinds; lastSeenMs := T |}).
  split; [apply elem_of_map_set|]. split; [|done].
  unfold fresh_at. simpl. lia.
Qed.

Lemma size_register_present u kinds now r :
  u ∈ map fst r → size (exec (register u kinds now) r) = size r.
Proof.
  intros H. rewrite register_exec. unfold size.
  rewrite <- (length_map fst), map_set_present_keys by done.
  by rewrite length_map.
Qed.

Lemma size_register_absent u kinds now r :
  u ∉ map fst r → size (exec (register u kinds now) r) = S (size r).
Proof.
  intros H. rewrite register_exec, map_set_absent by done.
  unfold size. rewrite length_app. simpl. lia.
Qed.

Lemma cleanup_spec now r kv :
  kv ∈ exec (cleanup now) r ↔ kv ∈ r ∧ fresh_at now kv.2.
Proof.
  unfold cleanup. run_state. rewrite list_elem_of_filter. unfold fresh_at.
  split; intros [? ?]; split; try done; lia.
Qed.

End RegistryFacts.

(** ** Active peers, registration and the TTL windows *)

(** C8 (as amended).  [getActivePeers] returns a list without repeated
    URLs, which is exactly the union of the static peers and of the
    registered peers whose heartbeat age is at most the registry TTL, each
    passed through [normalizeUrl]; a URL present both in the static list and
    in the registry occurs once.  [normalizeUrl] strips one trailing slash:
    a returned URL ends in a slash only when the URL it comes from ended in
    two. *)
Theorem active_peers_are_the_normalized_union
    (staticPeers : list string) (now : Z) (r : PeerRegistry.t) :
  let active := eval (PeerRegistry.getActivePeers staticPeers now) r in
  NoDup active ∧
  (∀ u, u ∈ active ↔
        (∃ p, p ∈ staticPeers ∧ u = normalizeUrl p) ∨
        (∃ kv, kv ∈ r ∧ fresh_at now kv.2 ∧ u = normalizeUrl (url kv.2))) ∧
  (∀ u, u ∈ active → ends_with_slash u = true →
        ∃ p, (p ∈ staticPeers ∨ ∃ kv, kv ∈ r ∧ fresh_at now kv.2 ∧ p = url kv.2) ∧
             normalizeUrl p = u ∧ p = u +:+ "/").
Proof.
  intros active. subst active. split; [apply RegistryFacts.NoDup_getActivePeers|].
  split; [apply RegistryFacts.elem_of_getActivePeers|].
  intros u Hu Hslash. apply RegistryFacts.elem_of_getActivePeers in Hu.
  destruct Hu as [(p & Hp & ->)|(kv & Hkv & Hf & ->)].
  - exists p. split; [by left|]. split; [done|].
    by apply normalizeUrl_trailing_slash.
  - exists (url kv.2). split; [right; by exists kv|]. split; [done|].
    by apply normalizeUrl_trailing_slash.
Qed.

Lemma active_peers_are_the_normalized_union_witness :
  ∃ p, (p ∈ ["http://a//"] ∨
        ∃ kv, kv ∈ PeerRegistry.empty ∧ fresh_at 0 kv.2 ∧ p = url kv.2) ∧
       normalizeUrl p = "http://a/" ∧ p = "http://a/" +:+ "/".
Proof.
  pose proof (active_peers_are_the_normalized_union ["http://a//"] 0
                PeerRegistry.empty) as (_ & _ & H).
  apply H.
  - vm_compute. apply list_elem_of_here.
  - reflexivity.
Defined.

(** C8, the statement as claimed fails: a URL that ends in two slashes
    loses only one of them, so an active peer can end in a slash. *)
Lemma active_peer_with_trailing_slash :
  eval (PeerRegistry.getActivePeers ["http://a//"] 0) PeerRegistry.empty
    = ["http://a/"] ∧
  eval (PeerRegistry.getActivePeers [] 0)
       (exec (PeerRegistry.register "http://b//" None 0) PeerRegistry.empty)
    = ["http://b/"] ∧
  ends_with_slash "http://a/" = true ∧
  ends_with_slash "http://b/" = true.
Proof. vm_compute. repeat split. Qed.

(** C9 (as amended).  A second [register] call with the identical URL
    string refreshes the existing entry in place: the registry keeps its
    size and its keys, the entry carries the new [lastSeenMs], and the peer
    stays active past its original expiry (register at [T0], again at
    [T0 + TTL - eps], still active at [T0 + TTL + eps]).  A call with a
    trailing-slash variant of the URL keeps the same normalized peer active
    as well. *)
Theorem reregister_refreshes_in_place
    (r : PeerRegistry.t) (u : string) (kinds kinds' : option (list json))
    (T0 T1 : Z) :
  let r1 := exec (PeerRegistry.register u kinds T0) r in
  let r2 := exec (PeerRegistry.register u kinds' T1) r1 in
  PeerRegistry.size r2 = PeerRegistry.size r1 ∧
  map fst r2 = map fst r1 ∧
  PeerRegistry.map_get u r2
    = Some {| url := u; kinds := kinds'; lastSeenMs := T1 |} ∧
  (∀ staticPeers t,
      t <= T1 + REGISTRY_TTL_MS →
      normalizeUrl u ∈ eval (PeerRegistry.getActivePeers staticPeers t) r2) ∧
  (∀ staticPeers eps,
      0 <= eps → 2 * eps <= REGISTRY_TTL_MS →
      T1 = T0 + REGISTRY_TTL_MS - eps →
      normalizeUrl u ∈
        eval (PeerRegistry.getActivePeers staticPeers (T0 + REGISTRY_TTL_MS + eps)) r2) ∧
  (∀ u' staticPeers t,
      normalizeUrl u' = normalizeUrl u →
      t <= T1 + REGISTRY_TTL_MS →
      normalizeUrl u ∈
        eval (PeerRegistry.getActivePeers staticPeers t)
             (exec (PeerRegistry.register u' kinds' T1) r1)).
Proof.
  intros r1 r2.
  assert (u ∈ map fst r1) as Hin.
  { subst r1. rewrite RegistryFacts.register_exec.
    apply RegistryFacts.map_set_keys_subseteq. by left. }
  split; [by apply RegistryFacts.size_register_present|].
  split.
  { subst r2. rewrite RegistryFacts.register_exec.
    by apply RegistryFacts.map_set_present_keys. }
  split.
  { subst r2. rewrite RegistryFacts.register_exec.
    apply RegistryFacts.map_get_set_eq. }
  split.
  { intros staticPeers t Ht. by apply RegistryFacts.registered_is_active. }
  split.
  { intros staticPeers eps H0 H2 ->.
    apply RegistryFacts.registered_is_active. lia. }
  intros u' staticPeers t Hu' Ht. rewrite <- Hu'.
  by apply RegistryFacts.registered_is_active.
Qed.

(** The heartbeat of the test suite: one second before and one second after
    the original expiry. *)
Lemma reregister_refreshes_in_place_witness :
  "http://peer1:3000" ∈
    eval (PeerRegistry.getActivePeers [] (0 + REGISTRY_TTL_MS + 1000))
         (exec (PeerRegistry.register "http://peer1:3000" None 119000)
               (exec (PeerRegistry.register "http://peer1:3000" None 0)
                     PeerRegistry.empty)).
Proof.
  pose proof (reregister_refreshes_in_place PeerRegistry.empty
                "http://peer1:3000" None None 0 119000) as (_ & _ & _ & _ & H & _).
  apply (H [] 1000).
  - lia.
  - vm_compute. discriminate.
  - reflexivity.
Defined.

(** C9, the statement as claimed fails: the registry is keyed by the URL
    as given, so registering the trailing-slash variant of a registered URL
    adds a second entry and leaves the first one's [lastSeenMs] alone. *)
Lemma register_slash_variant_adds_entry :
  let r1 := exec (PeerRegistry.register "http://a" None 0) PeerRegistry.empty in
  let r2 := exec (PeerRegistry.register "http://a/" None 10) r1 in
  normalizeUrl "http://a/" = normalizeUrl "http://a" ∧
  PeerRegistry.size r1 = 1%nat ∧
  PeerRegistry.size r2 = 2%nat ∧
  PeerRegistry.map_get "http://a" r2
    = Some {| url := "http://a"; kinds := None; lastSeenMs := 0 |}.
Proof. vm_compute. repeat split. Qed.

(** C6 (as amended).  A sticky entry recorded at [T] is returned by
    [getPreferredPeer] at every time before [T + SELECTION_TTL_MS] and at no
    time from [T + SELECTION_TTL_MS] on (a half-open window).  A peer
    registered or refreshed at [T] is in [getActivePeers] at every time up
    to and including [T + REGISTRY_TTL_MS], and at no later time (a closed
    window): the registry keeps a peer whose heartbeat age equals the TTL.
    The router and the registry are any that recordings, registrations and
    sweeps can build; "at no later time" is said of a URL that no static
    peer and no other fresh registration normalizes to. *)
Theorem ttl_windows :
  (∀ r peer body resp T p q qp t,
      recorded_payer body resp = Some p →
      getPayerFromBody q = Some qp →
      toLowerCase qp = toLowerCase p →
      t < T + SELECTION_TTL_MS →
      eval (StickyRouter.getPreferredPeer q t)
           (exec (StickyRouter.recordSelection peer body resp T) r) = Some peer) ∧
  (∀ r peer body resp T k q t,
      getHeaderFromBody body = Some k →
      getHeaderFromBody q = Some k →
      StickyRouter.live t
        (StickyRouter.byPayer_entry q
           (exec (StickyRouter.recordSelection peer body resp T) r)) = None →
      t < T + SELECTION_TTL_MS →
      eval (StickyRouter.getPreferredPeer q t)
           (exec (StickyRouter.recordSelection peer body resp T) r) = Some peer) ∧
  (∀ r peer body resp T q t,
      built_by T r →
      T + SELECTION_TTL_MS <= t →
      eval (StickyRouter.getPreferredPeer q t)
           (exec (StickyRouter.recordSelection peer body resp T) r) = None) ∧
  (∀ r u kinds T staticPeers t,
      t <= T + REGISTRY_TTL_MS →
      normalizeUrl u ∈
        eval (PeerRegistry.getActivePeers staticPeers t)
             (exec (PeerRegistry.register u kinds T) r)) ∧
  (∀ r u kinds T staticPeers t,
      registry_built r →
      (∀ p, p ∈ staticPeers → normalizeUrl p ≠ normalizeUrl u) →
      (∀ kv, kv ∈ r → kv.1 ≠ u → fresh_at t kv.2 →
             normalizeUrl (url kv.2) ≠ normalizeUrl u) →
      T + REGISTRY_TTL_MS < t →
      normalizeUrl u ∉
        eval (PeerRegistry.getActivePeers staticPeers t)
             (exec (PeerRegistry.register u kinds T) r)).
Proof.
  split; [intros; by eapply StickyFacts.lookup_recorded_payer|].
  split; [intros; by eapply StickyFacts.lookup_recorded_header|].
  split; [intros; by apply StickyFacts.lookup_after_ttl|].
  split; [intros; by apply RegistryFacts.registered_is_active|].
  intros r u kinds T staticPeers t Hkeys Hstatic Hothers Ht Hin.
  apply RegistryFacts.registry_built_distinct_keys in Hkeys.
  apply RegistryFacts.elem_of_getActivePeers in Hin.
  destruct Hin as [(p & Hp & Heq)|([k e] & Hkv & Hf & Heq)].
  - by apply (Hstatic p).
  - rewrite RegistryFacts.register_exec in Hkv.
    destruct (RegistryFacts.elem_of_map_set_inv _ _ _ _ _ Hkeys Hkv)
      as [[-> ->]|[Hne Hkv']].
    + unfold fresh_at in Hf. simpl in Hf. lia.
    + by apply (Hothers (k, e)).
Qed.

Lemma ttl_windows_witness :
  eval (StickyRouter.getPreferredPeer (body_with_payer "0x4444") 59999)
       (exec (StickyRouter.recordSelection "http://peer1:3000"
                (body_with_payer "0x4444") None 0) StickyRouter.empty)
    = Some "http://peer1:3000" ∧
  eval (StickyRouter.getPreferredPeer (body_with_payer "0x4444") 60000)
       (exec (StickyRouter.recordSelection "http://peer1:3000"
                (body_with_payer "0x4444") None 0) StickyRouter.empty)
    = None ∧
  "http://dynamic1:3000" ∈
    eval (PeerRegistry.getActivePeers ["http://static:3000"] 120000)
         (exec (PeerRegistry.register "http://dynamic1:3000" None 0)
               PeerRegistry.empty) ∧
  "http://dynamic1:3000" ∉
    eval (PeerRegistry.getActivePeers ["http://static:3000"] 120001)
         (exec (PeerRegistry.register "http://dynamic1:3000" None 0)
               PeerRegistry.empty).
Proof.
  pose proof ttl_windows as (H1 & _ & H3 & H4 & H5).
  split; [|split; [|split]].
  - apply (H1 _ _ _ _ 0 "0x4444" _ "0x4444"); [reflexivity..|].
    vm_compute. reflexivity.
  - apply H3.
    + apply built_empty.
    + vm_compute. discriminate.
  - apply (H4 PeerRegistry.empty "http://dynamic1:3000" None 0).
    vm_compute. discriminate.
  - apply (H5 PeerRegistry.empty "http://dynamic1:3000" None 0).
    + apply registry_built_empty.
    + intros p Hp. apply list_elem_of_singleton in Hp. subst p.
      vm_compute. discriminate.
    + intros kv Hkv. by apply elem_of_nil in Hkv.
    + vm_compute. reflexivity.
Defined.

(** C6, the statement as claimed fails for the registry: at exactly
    [T + REGISTRY_TTL_MS] the peer registered at [T] is still active (and
    survives a sweep); it is gone one millisecond later. *)
Lemma registry_window_is_closed :
  let r := exec (PeerRegistry.register "http://peer1:3000" None 0)
                PeerRegistry.empty in
  eval (PeerRegistry.getActivePeers [] (0 + REGISTRY_TTL_MS)) r
    = ["http://peer1:3000"] ∧
  PeerRegistry.size (exec (PeerRegistry.cleanup (0 + REGISTRY_TTL_MS)) r) = 1%nat ∧
  eval (PeerRegistry.getActivePeers [] (0 + REGISTRY_TTL_MS + 1)) r = [].
Proof. vm_compute. repeat split. Qed.

(** ** Random choice and the fallback order *)

Module OrderFacts.

Lemma two53_pow : two53 = (2 ^ 53)%N.
Proof. reflexivity. Qed.

(** Rounding moves an integer up by at most half a unit in the last place,
    and not below the multiple of that unit under it. *)
Lemma round_to_double_bounds (p : N) :
  let s := (N.log2 p - 52)%N in
  (s = 0%N ∧ round_to_double p = p) ∨
  (s ≠ 0%N ∧ (2 ^ (s - 1) * two53 <= p)%N ∧
   (p / 2 ^ s * 2 ^ s <= round_to_double p)%N ∧
   (round_to_double p <= p + 2 ^ (s - 1))%N).
Proof.
  intros s. unfold round_to_double. fold s.
  destruct (N.eqb_spec s 0) as [E|E]; [by left|right].
  split; [done|].
  assert (0 < p)%N as Hp.
  { destruct p; [|lia]. subst s. simpl in E. lia. }
  assert (2 ^ s = 2 * 2 ^ (s - 1))%N as Hs.
  { rewrite <- N.pow_succ_r'. f_equal. lia. }
  assert (2 ^ (s - 1) * two53 <= p)%N as Hlow.
  { rewrite two53_pow, <- N.pow_add_r.
    replace (s - 1 + 53)%N with (N.log2 p) by (subst s; lia).
    by apply N.log2_spec. }
  split; [done|].
  assert (2 ^ s / 2 = 2 ^ (s - 1))%N as Hhalf.
  { rewrite Hs, N.mul_comm. by apply N.div_mul. }
  rewrite Hhalf.
  pose proof (N.div_mod p (2 ^ s) ltac:(lia)) as Hdiv.
  pose proof (N.mod_lt p (2 ^ s) ltac:(lia)) as Hmod.
  set (q := (p / 2 ^ s)%N) in *. set (r := (p mod 2 ^ s)%N) in *.
  set (h := (2 ^ (s - 1))%N) in *.
  destruct ((h <? r)%N || (r =? h)%N && N.odd q) eqn:Eup.
  - assert (h <= r)%N as Hr.
    { apply orb_true_iff in Eup as [H|H].
      - apply N.ltb_lt in H. lia.
      - apply andb_true_iff in H as [H _]. apply N.eqb_eq in H. lia. }
    split; nia.
  - split; nia.
Qed.

Lemma random_index_lt (u : N) (n : nat) :
  (0 < n)%nat → (random_index u n < n)%nat.
Proof.
  intros Hn. unfold random_index.
  assert (0 < two53)%N as H53 by (by vm_compute).
  pose proof (N.mod_lt u two53 ltac:(lia)) as Hu.
  set (p := (u mod two53 * N.of_nat n)%N).
  assert (p + N.of_nat n <= N.of_nat n * two53)%N as Hp by (subst p; nia).
  assert (round_to_double p < N.of_nat n * two53)%N as Hround.
  { destruct (round_to_double_bounds p) as [[_ ->]|(_ & Hlow & _ & Hup)]; [lia|].
    assert (2 ^ (N.log2 p - 52 - 1) < N.of_nat n)%N by nia. lia. }
  assert (round_to_double p / two53 < N.of_nat n)%N; [|lia].
  apply N.Div0.div_lt_upper_bound. lia.
Qed.

Lemma pickRandom_elem_of {T} (arr : list T) (u : N) :
  arr ≠ [] → ∃ x, pickRandom arr u = Some x ∧ x ∈ arr.
Proof.
  intros Hne. unfold pickRandom.
  destruct (lookup_lt_is_Some_2 arr (random_index u (length arr))) as [x Hx].
  { apply random_index_lt. destruct arr; [done|simpl; lia]. }
  exists x. split; [done|]. by eapply list_elem_of_lookup_2.
Qed.

Lemma pickSelectedPeerForVerify_elem_of rng peers i :
  peers ≠ [] →
  ∃ p, fst (pickSelectedPeerForVerify rng peers i) = Some p ∧ p ∈ peers.
Proof.
  intros Hne. unfold pickSelectedPeerForVerify.
  destruct (length peers =? 1)%nat eqn:E.
  - destruct peers as [|p peers]; [done|]. exists p.
    split; [done|apply list_elem_of_here].
  - unfold pickRandomM, Math_random. run_state.
    by apply pickRandom_elem_of.
Qed.

Lemma insert_random_perm {T} rng (x : T) (sorted : list T) (i : nat) :
  fst (insert_random rng x sorted i) ≡ₚ x :: sorted.
Proof.
  revert i. induction sorted as [|y ys IH]; intros i; [done|].
  simpl. unfold bind, Math_random, ret.
  destruct (random_comparator (rng i)); simpl; [|done|].
  - specialize (IH (S i)). destruct (insert_random rng x ys (S i)) as [r j].
    simpl in *. rewrite IH. apply Permutation_swap.
  - specialize (IH (S i)). destruct (insert_random rng x ys (S i)) as [r j].
    simpl in *. rewrite IH. apply Permutation_swap.
Qed.

(** Whatever the draws, sorting rearranges and nothing more. *)
Lemma sort_random_perm {T} rng (l : list T) (i : nat) :
  fst (sort_random rng l i) ≡ₚ l.
Proof.
  revert i. induction l as [|x xs IH]; intros i; [done|].
  simpl. unfold bind. specialize (IH i).
  destruct (sort_random rng xs i) as [s j]. simpl in IH.
  rewrite insert_random_perm. by rewrite IH.
Qed.

Lemma filter_out_perm (x : string) (l : list string) :
  NoDup l → x ∈ l → x :: filter (fun p => p ≠ x) l ≡ₚ l.
Proof.
  induction l as [|y l IH]; intros Hnd Hin; [by apply elem_of_nil in Hin|].
  apply NoDup_cons in Hnd as [Hy Hnd].
  apply elem_of_cons in Hin as [->|Hin].
  - rewrite filter_cons_False by (intros ?; done).
    apply Permutation_cons; [done|].
    assert (Forall (fun p => p ≠ y) l) as Hall.
    { apply Forall_forall. intros p Hp ->. done. }
    clear -Hall. induction Hall as [|z l Hz Hall IH]; [done|].
    rewrite filter_cons_True by done. by rewrite IH.
  - assert (y ≠ x) as Hne by (intros ->; done).
    rewrite filter_cons_True by done.
    rewrite Permutation_swap. apply Permutation_cons; [done|]. by apply IH.
Qed.

Lemma rotateToNext_eval rng peers current i :
  eval (rotateToNext rng peers current) i =
  if (length peers <=? 1)%nat then peers
  else current :: fst (sort_random rng (filter (fun p => p ≠ current) peers) i).
Proof.
  unfold rotateToNext. destruct (length peers <=? 1)%nat; [done|].
  run_state. by destruct (sort_random _ _ i).
Qed.

(** The order [rotateToNext] builds, for any [current]. *)
Lemma rotateToNext_spec rng peers current i :
  NoDup peers →
  let order := eval (rotateToNext rng peers current) i in
  NoDup order ∧
  (∀ p, p ∈ peers → p ∈ order) ∧
  (∀ p, p ∈ order → p ∈ peers ∨ p = current) ∧
  (current ∈ peers → head order = Some current ∧ order ≡ₚ peers).
Proof.
  intros Hnd order. subst order. rewrite rotateToNext_eval.
  destruct (length peers <=? 1)%nat eqn:E.
  - apply Nat.leb_le in E.
    split; [done|]. split; [done|]. split; [by left|].
    intros Hin. split; [|done].
    destruct peers as [|p [|q peers]]; simpl in *; [by apply elem_of_nil in Hin| |lia].
    apply list_elem_of_singleton in Hin. by subst.
  - pose proof (sort_random_perm rng (filter (fun p => p ≠ current) peers) i) as Hperm.
    set (rest := fst (sort_random rng (filter (fun p => p ≠ current) peers) i)) in *.
    split; [|split; [|split]].
    + apply NoDup_cons. split.
      * rewrite Hperm. rewrite list_elem_of_filter. by intros [? _].
      * rewrite Hperm. by apply NoDup_filter.
    + intros p Hp. destruct (decide (p = current)) as [->|Hne]; [apply list_elem_of_here|].
      apply list_elem_of_further. rewrite Hperm. by apply list_elem_of_filter.
    + intros p Hp. apply elem_of_cons in Hp as [->|Hp]; [by right|].
      rewrite Hperm in Hp. apply list_elem_of_filter in Hp as [_ ?]. by left.
    + intros Hin. split; [done|].
      rewrite Hperm. by apply filter_out_perm.
Qed.

End OrderFacts.

(** Over a non-empty peer list, verify always has a fallback order. *)
Lemma fallback_order_exists (w : World) (active : list string) :
  active ≠ [] → ∃ order, verify_order w active = Some order.
Proof.
  intros Hne. unfold verify_order.
  destruct (OrderFacts.pickSelectedPeerForVerify_elem_of (rng w) active 0%nat Hne)
    as (primary & Hpick & _).
  destruct (pickSelectedPeerForVerify (rng w) active 0%nat) as [o i].
  simpl in Hpick. subst o. by eexists.
Qed.

(** And so has settle, whatever the sticky router prefers. *)
Lemma settle_order_exists (w : World) (active : list string)
    (stickyPeer : option string) :
  active ≠ [] → ∃ order, settle_order w active stickyPeer = Some order.
Proof.
  intros Hne. unfold settle_order, settle_preferred.
  destruct stickyPeer as [p|]; [by eexists|].
  destruct (OrderFacts.pickSelectedPeerForVerify_elem_of (rng w) active 0%nat Hne)
    as (primary & Hpick & _).
  destruct (pickSelectedPeerForVerify (rng w) active 0%nat) as [o i].
  simpl in Hpick. subst o. by eexists.
Qed.

(** C2 (as amended).  For a non-empty active peer set, the fallback order
    of verify is a permutation of the active peers that starts with the
    randomly chosen peer.  The fallback order of settle contains every
    active peer exactly once; when its preferred peer is one of the active
    peers (always so when it is randomly chosen, and so for a sticky peer
    that is still active) the order starts with the preferred peer and is a
    permutation of the active peers.  The other peers are placed by the
    draws of the random source. *)
Theorem fallback_order_is_a_permutation
    (w : World) (staticPeers : list string) (now : Z) (reg : PeerRegistry.t)
    (stickyPeer : option string) :
  let active := eval (PeerRegistry.getActivePeers staticPeers now) reg in
  active ≠ [] →
  (∃ primary order,
      fst (pickSelectedPeerForVerify (rng w) active 0%nat) = Some primary ∧
      primary ∈ active ∧
      verify_order w active = Some order ∧
      head order = Some primary ∧
      order ≡ₚ active) ∧
  (∃ preferred order,
      fst (settle_preferred w active stickyPeer) = Some preferred ∧
      settle_order w active stickyPeer = Some order ∧
      NoDup order ∧
      (∀ p, p ∈ active → p ∈ order) ∧
      (stickyPeer = None → preferred ∈ active) ∧
      (preferred ∈ active → head order = Some preferred ∧ order ≡ₚ active)).
Proof.
  intros active Hne.
  assert (NoDup active) as Hnd by apply RegistryFacts.NoDup_getActivePeers.
  destruct (OrderFacts.pickSelectedPeerForVerify_elem_of (rng w) active 0%nat Hne)
    as (primary & Hpick & Hin).
  split.
  - exists primary. unfold verify_order.
    destruct (pickSelectedPeerForVerify (rng w) active 0%nat) as [o i].
    simpl in Hpick. subst o. eexists. split; [done|]. split; [done|].
    split; [done|].
    by apply (OrderFacts.rotateToNext_spec (rng w) active primary i Hnd).
  - unfold settle_order, settle_preferred. destruct stickyPeer as [p|].
    + exists p. eexists. split; [done|]. split; [done|].
      destruct (OrderFacts.rotateToNext_spec (rng w) active p 0%nat Hnd)
        as (H1 & H2 & _ & H4).
      split; [done|]. split; [done|]. split; [done|]. done.
    + exists primary.
      destruct (pickSelectedPeerForVerify (rng w) active 0%nat) as [o i].
      simpl in Hpick. subst o. eexists. split; [done|]. split; [done|].
      destruct (OrderFacts.rotateToNext_spec (rng w) active primary i Hnd)
        as (H1 & H2 & _ & H4).
      split; [done|]. split; [done|]. split; [done|]. done.
Qed.

Lemma fallback_order_is_a_permutation_witness :
  ∃ primary order,
    fst (pickSelectedPeerForVerify (rng world_at_100s)
           ["http://a"; "http://b"; "http://c"] 0%nat) = Some primary ∧
    primary ∈ ["http://a"; "http://b"; "http://c"] ∧
    verify_order world_at_100s ["http://a"; "http://b"; "http://c"] = Some order ∧
    head order = Some primary ∧
    order ≡ₚ ["http://a"; "http://b"; "http://c"].
Proof.
  refine (proj1 (fallback_order_is_a_permutation world_at_100s
                   ["http://a"; "http://b"] 0
                   (exec (PeerRegistry.register "http://c" None 0) PeerRegistry.empty)
                   None _)).
  vm_compute. discriminate.
Defined.

(** C2, the statement as claimed fails for settle.  The peer [http://c]
    registers at 0 s and serves a verify at 100 s, which binds the payer to
    it until 160 s; its registration lapses at 120 s.  A settle at 130 s
    finds the active peers [a] and [b] and the sticky peer [c]: the
    fallback order starts with [c], which is not an active peer, and the
    first call goes to it.  With one active peer only, [rotateToNext] leaves
    the preferred peer out altogether. *)
Lemma settle_order_with_lapsed_sticky_peer :
  let body := body_with_payer "0xabc" in
  let g0 := exec (register_route world_at_0s "http://c" None) fresh_gateway in
  let g1 := exec (verify world_at_100s two_static_peers body) g0 in
  let active := eval (peers world_at_130s two_static_peers) g1 in
  let stickyPeer :=
    eval (zoom_sticky (StickyRouter.getPreferredPeer (normalizeForwardBody body)
                         (Date_now world_at_130s 0))) g1 in
  eval (verify world_at_100s two_static_peers body) g0
    = (Respond 200 verify_ok_body, ["http://c/verify"]) ∧
  active = ["http://a"; "http://b"] ∧
  stickyPeer = Some "http://c" ∧
  (∃ order,
      settle_order world_at_130s active stickyPeer = Some order ∧
      head order = Some "http://c" ∧
      ("http://c" ∉ active) ∧
      ¬ (order ≡ₚ active)) ∧
  head (snd (eval (settle world_at_130s two_static_peers body) g1))
    = Some "http://c/settle" ∧
  eval (rotateToNext (rng world_at_130s) ["http://a"] "http://c") 0%nat
    = ["http://a"].
Proof.
  vm_compute. repeat split.
  eexists. repeat split.
  - intros H. apply list_elem_of_In in H. simpl in H. intuition discriminate.
  - intros H. apply Permutation_length in H. discriminate.
Qed.

(** ** The forwarding loops *)

Module GatewayFacts.

Lemma call_urls_cons suffix base l :
  call_urls suffix (base :: l)
    = (normalizeUrl base +:+ suffix) :: call_urls suffix l.
Proof. reflexivity. Qed.

Lemma call_urls_app suffix l1 l2 :
  call_urls suffix (l1 ++ l2) = call_urls suffix l1 ++ call_urls suffix l2.
Proof. apply map_app. Qed.

Lemma is_success_false_inv o :
  is_success o = false →
  o = Threw ∨ ∃ r, o = Returned r ∧ status r ≠ 200.
Proof.
  destruct o as [|r]; [by left|]. simpl. intros H.
  apply bool_decide_eq_false in H. right. by exists r.
Qed.

(** While calls fail the verify loop keeps going, remembering the last
    response it saw. *)
Lemma verify_loop_failed_prefix w fb pre rest lastError calls s :
  Forall (fun o => is_success o = false)
         (call_outcomes w fb "/verify" VERIFY_TIMEOUT calls pre) →
  ∃ lastError',
    verify_loop w fb (pre ++ rest) lastError calls s
      = verify_loop w fb rest lastError' (calls ++ call_urls "/verify" pre) s.
Proof.
  revert lastError calls.
  induction pre as [|base pre IH]; intros lastError calls Hfail.
  - exists lastError. simpl. by rewrite app_nil_r.
  - simpl in Hfail. apply Forall_cons in Hfail as [Hhd Htl]. simpl.
    destruct (postJson w calls (normalizeUrl base +:+ "/verify") fb VERIFY_TIMEOUT)
      as [|r] eqn:Hcall; simpl in Hhd.
    + destruct (IH lastError _ Htl) as [e ->]. exists e.
      by rewrite <- app_assoc.
    + rewrite Hhd. destruct (IH (Some r) _ Htl) as [e ->]. exists e.
      by rewrite <- app_assoc.
Qed.

(** The first success ends the loop. *)
Lemma verify_loop_success w fb base rest lastError calls s r :
  postJson w calls (normalizeUrl base +:+ "/verify") fb VERIFY_TIMEOUT = Returned r →
  status r = 200 →
  verify_loop w fb (base :: rest) lastError calls s
    = ((Respond 200 (body r), calls ++ [normalizeUrl base +:+ "/verify"]),
       exec (StickyRouter.recordSelection base fb (body r)
               (Date_now w (S (length calls)))) s).
Proof.
  intros Hcall Hok. simpl. rewrite Hcall, bool_decide_eq_true_2 by done.
  unfold exec, bind.
  by destruct (StickyRouter.recordSelection _ _ _ _ s) as [[] s'].
Qed.

(** When every call has thrown, the loop ends with what it had. *)
Lemma verify_loop_all_threw w fb order lastError calls s :
  Forall (fun o => o = Threw)
         (call_outcomes w fb "/verify" VERIFY_TIMEOUT calls order) →
  verify_loop w fb order lastError calls s
    = ((match lastError with
        | Some e => Respond (status e) (body e)
        | None => Respond 503 (error_body "Verification unavailable")
        end, calls ++ call_urls "/verify" order), s).
Proof.
  revert calls. induction order as [|base order IH]; intros calls Hall.
  - simpl. rewrite app_nil_r. by destruct lastError.
  - simpl in Hall. apply Forall_cons in Hall as [Hhd Htl]. simpl.
    rewrite Hhd. rewrite IH by done. by rewrite <- app_assoc.
Qed.

(** The last response seen is the one that is surfaced. *)
Lemma verify_loop_last_response w fb pre base post lastError calls s e :
  Forall (fun o => is_success o = false)
         (call_outcomes w fb "/verify" VERIFY_TIMEOUT calls (pre ++ base :: post)) →
  postJson w (calls ++ call_urls "/verify" pre)
           (normalizeUrl base +:+ "/verify") fb VERIFY_TIMEOUT = Returned e →
  Forall (fun o => o = Threw)
         (call_outcomes w fb "/verify" VERIFY_TIMEOUT
            (calls ++ call_urls "/verify" (pre ++ [base])) post) →
  verify_loop w fb (pre ++ base :: post) lastError calls s
    = ((Respond (status e) (body e),
        calls ++ call_urls "/verify" (pre ++ base :: post)), s).
Proof.
  intros Hfail Hcall Hpost.
  assert (Forall (fun o => is_success o = false)
            (call_outcomes w fb "/verify" VERIFY_TIMEOUT calls pre)
          ∧ status e ≠ 200) as [Hpre Hne].
  { clear Hpost. revert calls Hfail Hcall.
    induction pre as [|b pre IH]; intros calls Hfail Hcall.
    - simpl in *. rewrite app_nil_r in Hcall. apply Forall_cons in Hfail as [Hhd _].
      rewrite Hcall in Hhd. simpl in Hhd.
      by apply bool_decide_eq_false in Hhd.
    - rewrite call_urls_cons, cons_middle, app_assoc in Hcall.
      simpl in Hfail. apply Forall_cons in Hfail as [Hhd Htl].
      destruct (IH _ Htl Hcall) as [? ?].
      split; [by apply Forall_cons|done]. }
  destruct (verify_loop_failed_prefix w fb pre (base :: post) lastError calls s Hpre)
    as [e' ->].
  simpl. rewrite Hcall, bool_decide_eq_false_2 by done.
  rewrite verify_loop_all_threw.
  - rewrite !call_urls_app. simpl. by rewrite <- !app_assoc.
  - rewrite call_urls_app, app_assoc in Hpost. exact Hpost.
Qed.

(** The settle loop, when no call succeeds. *)
Lemma settle_loop_all_failed w fb order calls :
  Forall (fun o => is_success o = false)
         (call_outcomes w fb "/settle" SETTLE_TIMEOUT calls order) →
  settle_loop w fb order calls
    = (Respond 503 (settle_error_body "Settle unavailable"),
       calls ++ call_urls "/settle" order).
Proof.
  revert calls. induction order as [|peer order IH]; intros calls Hfail.
  - simpl. by rewrite app_nil_r.
  - simpl in Hfail. apply Forall_cons in Hfail as [Hhd Htl]. simpl.
    destruct (postJson w calls (normalizeUrl peer +:+ "/settle") fb SETTLE_TIMEOUT)
      as [|r] eqn:Hcall; simpl in Hhd.
    + rewrite IH by done. by rewrite <- app_assoc.
    + rewrite Hhd, IH by done. by rewrite <- app_assoc.
Qed.

(** The settle loop, at its first success. *)
Lemma settle_loop_first_success w fb pre base post calls r :
  Forall (fun o => is_success o = false)
         (call_outcomes w fb "/settle" SETTLE_TIMEOUT calls pre) →
  postJson w (calls ++ call_urls "/settle" pre)
           (normalizeUrl base +:+ "/settle") fb SETTLE_TIMEOUT = Returned r →
  status r = 200 →
  settle_loop w fb (pre ++ base :: post) calls
    = (Respond 200 (body r), calls ++ call_urls "/settle" (pre ++ [base])).
Proof.
  revert calls. induction pre as [|b pre IH]; intros calls Hfail Hcall Hok.
  - simpl in *. rewrite app_nil_r in Hcall.
    by rewrite Hcall, bool_decide_eq_true_2.
  - simpl in Hfail. apply Forall_cons in Hfail as [Hhd Htl].
    rewrite call_urls_cons, cons_middle, app_assoc in Hcall.
    simpl.
    destruct (postJson w calls (normalizeUrl b +:+ "/settle") fb SETTLE_TIMEOUT)
      as [|r'] eqn:Hcall'; simpl in Hhd.
    + rewrite (IH _ Htl Hcall Hok). by rewrite <- app_assoc.
    + rewrite Hhd, (IH _ Htl Hcall Hok). by rewrite <- app_assoc.
Qed.

(** Whatever the settle loop answers is its generic failure or the body
    of a peer's 200 response. *)
Lemma settle_loop_answer w fb order calls :
  fst (settle_loop w fb order calls)
    = Respond 503 (settle_error_body "Settle unavailable") ∨
  ∃ r, Returned r ∈ call_outcomes w fb "/settle" SETTLE_TIMEOUT calls order ∧
       status r = 200 ∧
       fst (settle_loop w fb order calls) = Respond 200 (body r).
Proof.
  revert calls. induction order as [|peer order IH]; intros calls; [by left|].
  simpl.
  destruct (postJson w calls (normalizeUrl peer +:+ "/settle") fb SETTLE_TIMEOUT)
    as [|r] eqn:Hcall.
  - destruct (IH (calls ++ [normalizeUrl peer +:+ "/settle"]))
      as [?|(r & Hin & Hok & Hres)]; [by left|].
    right. exists r. split; [by apply list_elem_of_further|done].
  - case_bool_decide as Hok.
    + right. exists r. split; [apply list_elem_of_here|done].
    + destruct (IH (calls ++ [normalizeUrl peer +:+ "/settle"]))
        as [?|(r' & Hin & Hok' & Hres)]; [by left|].
      right. exists r'. split; [by apply list_elem_of_further|done].
Qed.

Lemma peers_run w options g :
  peers w options g
    = (eval (PeerRegistry.getActivePeers (httpPeers options) (Date_now w 0))
            (registry g), g).
Proof. unfold peers. run_state. by destruct g. Qed.

Lemma length_eqb_0 {A} (l : list A) :
  (length l =? 0)%nat = bool_decide (l = []).
Proof. by destruct l. Qed.

(** [POST /verify], unfolded up to its loop. *)
Lemma verify_run w options reqBody g :
  let active := eval (peers w options) g in
  verify w options reqBody g =
  if bool_decide (active = []) then
    ((Respond 503 (error_body "No peers configured"), []), g)
  else
    match verify_order w active with
    | Some order =>
        let '(res, s) :=
          verify_loop w (normalizeForwardBody reqBody) order None [] (sticky g) in
        (res, {| sticky := s; registry := registry g |})
    | None =>
        ((Respond 500 (internal_error_body undefined_replace_message), []), g)
    end.
Proof.
  intros active. subst active. unfold verify, bind, eval.
  rewrite peers_run. simpl. rewrite length_eqb_0.
  case_bool_decide; [done|].
  destruct (verify_order w _); [|done].
  unfold zoom_sticky. simpl. done.
Qed.

(** [POST /settle], unfolded up to its loop. *)
Lemma settle_run w options reqBody g :
  let active := eval (peers w options) g in
  let stickyPeer :=
    eval (StickyRouter.getPreferredPeer (normalizeForwardBody reqBody)
            (Date_now w 0)) (sticky g) in
  settle w options reqBody g =
  if bool_decide (active = []) then
    ((Respond 503 (settle_error_body "No peers configured"), []), g)
  else
    match settle_order w active stickyPeer with
    | Some order => (settle_loop w (normalizeForwardBody reqBody) order [], g)
    | None => ((Uncaught, []), g)
    end.
Proof.
  intros active stickyPeer. subst active stickyPeer. unfold settle, bind, eval.
  rewrite peers_run. simpl. rewrite length_eqb_0.
  case_bool_decide; [done|].
  unfold zoom_sticky.
  pose proof (StickyFacts.getPreferredPeer_exec (normalizeForwardBody reqBody)
                (Date_now w 0) (sticky g)) as Hexec.
  unfold exec in Hexec.
  destruct (StickyRouter.getPreferredPeer _ _ (sticky g)) as [sp s'].
  simpl in *. subst s'.
  destruct (settle_order w _ sp); destruct g; done.
Qed.

End GatewayFacts.

(** ** Verify and settle *)

(** Verify on a body of the declared type.  With a non-empty active peer
    set, verify calls the peers of its fallback order one after the other.  At the first peer whose call
    returns status 200 (every peer before it having thrown or returned
    another status) it records the sticky selection for that peer and
    answers 200 with that peer's response body, unchanged; the calls made
    are those to the peers up to and including that one, in order, and no
    later peer is called. *)
Theorem verify_first_success_wins
    (w : World) (options : GatewayOptions) (reqBody : ForwardBody) (g : Gateway) :
  let active := eval (peers w options) g in
  let fb := normalizeForwardBody reqBody in
  active ≠ [] →
  ∃ order,
    verify_order w active = Some order ∧
    ∀ pre base post r,
      order = pre ++ base :: post →
      Forall (fun o => is_success o = false)
             (call_outcomes w fb "/verify" VERIFY_TIMEOUT [] pre) →
      postJson w (call_urls "/verify" pre) (normalizeUrl base +:+ "/verify")
               fb VERIFY_TIMEOUT = Returned r →
      status r = 200 →
      verify w options reqBody g
        = ((Respond 200 (body r), call_urls "/verify" (pre ++ [base])),
           {| sticky :=
                exec (StickyRouter.recordSelection base fb (body r)
                        (Date_now w (S (length pre)))) (sticky g);
              registry := registry g |}).
Proof.
  intros active fb Hne.
  destruct (fallback_order_exists w active Hne) as [order Horder].
  exists order. split; [done|].
  intros pre base post r -> Hfail Hcall Hok.
  rewrite GatewayFacts.verify_run. fold active.
  rewrite bool_decide_eq_false_2 by done. rewrite Horder. fold fb.
  destruct (GatewayFacts.verify_loop_failed_prefix w fb pre (base :: post)
              None [] (sticky g) Hfail) as [e ->].
  simpl app.
  rewrite (GatewayFacts.verify_loop_success w fb base post e _ (sticky g) r Hcall Hok).
  rewrite GatewayFacts.call_urls_app. simpl.
  unfold call_urls at 2. by rewrite length_map.
Qed.

(** Peer [a] answers 402 and peer [b] answers 200: the caller gets [b]'s
    body, and the payer is bound to [b]. *)
Lemma verify_first_success_wins_witness :
  verify world_b_succeeds two_static_peers (body_with_payer "0xabc") fresh_gateway
    = ((Respond 200 verify_ok_body, ["http://a/verify"; "http://b/verify"]),
       {| sticky :=
            exec (StickyRouter.recordSelection "http://b" (body_with_payer "0xabc")
                    verify_ok_body 1002) StickyRouter.empty;
          registry := PeerRegistry.empty |}).
Proof.
  destruct (verify_first_success_wins world_b_succeeds two_static_peers
              (body_with_payer "0xabc") fresh_gateway) as (order & Horder & H).
  { vm_compute. discriminate. }
  vm_compute in Horder. injection Horder as <-.
  apply (H ["http://a"] "http://b" [] {| status := 200; body := verify_ok_body |}).
  - reflexivity.
  - repeat constructor.
  - reflexivity.
  - reflexivity.
Defined.

(** C4.  A verify that finds no active peer answers 503
    [{error: "No peers configured"}] without calling anyone.  With active
    peers of which none returns status 200, every peer of the fallback order
    is called; the answer is the status and body, unchanged, of the last
    peer that returned a response, and 503
    [{error: "Verification unavailable"}] when every call threw.  A thrown
    call (timeout, network error) never becomes the answer.  The router and
    the registry are left as they were. *)
Theorem verify_without_success
    (w : World) (options : GatewayOptions) (reqBody : ForwardBody) (g : Gateway) :
  let active := eval (peers w options) g in
  let fb := normalizeForwardBody reqBody in
  (active = [] →
   verify w options reqBody g
     = ((Respond 503 (Some (JObj [("error", JStr "No peers configured")])), []), g)) ∧
  (active ≠ [] →
   ∃ order,
     verify_order w active = Some order ∧
     (∀ pre base post e,
         order = pre ++ base :: post →
         Forall (fun o => is_success o = false)
                (call_outcomes w fb "/verify" VERIFY_TIMEOUT [] order) →
         postJson w (call_urls "/verify" pre) (normalizeUrl base +:+ "/verify")
                  fb VERIFY_TIMEOUT = Returned e →
         Forall (fun o => o = Threw)
                (call_outcomes w fb "/verify" VERIFY_TIMEOUT
                   (call_urls "/verify" (pre ++ [base])) post) →
         verify w options reqBody g
           = ((Respond (status e) (body e), call_urls "/verify" order), g)) ∧
     (Forall (fun o => o = Threw)
             (call_outcomes w fb "/verify" VERIFY_TIMEOUT [] order) →
      verify w options reqBody g
        = ((Respond 503 (Some (JObj [("error", JStr "Verification unavailable")])),
            call_urls "/verify" order), g))).
Proof.
  intros active fb. split.
  - intros Hempty. rewrite GatewayFacts.verify_run. fold active.
    by rewrite bool_decide_eq_true_2.
  - intros Hne.
    destruct (fallback_order_exists w active Hne) as [order Horder].
    exists order. split; [done|]. split.
    + intros pre base post e -> Hfail Hcall Hpost.
      rewrite GatewayFacts.verify_run. fold active.
      rewrite bool_decide_eq_false_2 by done. rewrite Horder. fold fb.
      rewrite (GatewayFacts.verify_loop_last_response w fb pre base post None []
                 (sticky g) e Hfail Hcall Hpost).
      by destruct g.
    + intros Hthrew.
      rewrite GatewayFacts.verify_run. fold active.
      rewrite bool_decide_eq_false_2 by done. rewrite Horder. fold fb.
      rewrite (GatewayFacts.verify_loop_all_threw w fb order None [] (sticky g) Hthrew).
      by destruct g.
Qed.

(** No peer at all; then peer [a] answering 402 and peer [b] timing out:
    the caller gets the 402 and its body. *)
Lemma verify_without_success_witness :
  verify world_nobody_succeeds
         {| basePath := None; httpPeers := []; debug := false |}
         (body_with_payer "0xabc") fresh_gateway
    = ((Respond 503 (Some (JObj [("error", JStr "No peers configured")])), []),
       fresh_gateway) ∧
  verify world_nobody_succeeds two_static_peers (body_with_payer "0xabc") fresh_gateway
    = ((Respond 402 (Some (JObj [("error", JStr "insufficient_funds")])),
        ["http://a/verify"; "http://b/verify"]), fresh_gateway).
Proof.
  split.
  - apply (verify_without_success world_nobody_succeeds
             {| basePath := None; httpPeers := []; debug := false |}
             (body_with_payer "0xabc") fresh_gateway).
    reflexivity.
  - destruct (proj2 (verify_without_success world_nobody_succeeds two_static_peers
                       (body_with_payer "0xabc") fresh_gateway))
      as (order & Horder & H & _).
    { vm_compute. discriminate. }
    vm_compute in Horder. injection Horder as <-.
    apply (H [] "http://a" ["http://b"] payment_required).
    + reflexivity.
    + repeat constructor.
    + reflexivity.
    + repeat constructor.
Defined.

(** Settle on a body of the declared type.  A settle that finds no active
    peer answers 503 with
    [{success: false, error: "No peers configured", txHash: null,
    networkId: null}] and calls nobody.  With active peers of which none
    returns status 200 (each call throwing or returning another status) it
    answers 503 with the same shape and the error [Settle unavailable].
    Whatever settle answers is one of these or the body of a peer's 200
    response: a peer's non-200 status and body never reach the caller. *)
Theorem settle_failure_is_generic
    (w : World) (options : GatewayOptions) (reqBody : ForwardBody) (g : Gateway) :
  let active := eval (peers w options) g in
  let fb := normalizeForwardBody reqBody in
  let stickyPeer :=
    eval (StickyRouter.getPreferredPeer fb (Date_now w 0)) (sticky g) in
  (active = [] →
   settle w options reqBody g
     = ((Respond 503
           (Some (JObj [("success", JBool false); ("error", JStr "No peers configured");
                        ("txHash", JNull); ("networkId", JNull)])), []), g)) ∧
  (active ≠ [] →
   ∃ order,
     settle_order w active stickyPeer = Some order ∧
     (Forall (fun o => is_success o = false)
             (call_outcomes w fb "/settle" SETTLE_TIMEOUT [] order) →
      settle w options reqBody g
        = ((Respond 503
              (Some (JObj [("success", JBool false); ("error", JStr "Settle unavailable");
                           ("txHash", JNull); ("networkId", JNull)])),
            call_urls "/settle" order), g)) ∧
     (fst (eval (settle w options reqBody) g)
        = Respond 503
            (Some (JObj [("success", JBool false); ("error", JStr "Settle unavailable");
                         ("txHash", JNull); ("networkId", JNull)])) ∨
      ∃ r, Returned r ∈ call_outcomes w fb "/settle" SETTLE_TIMEOUT [] order ∧
           status r = 200 ∧
           fst (eval (settle w options reqBody) g) = Respond 200 (body r))).
Proof.
  intros active fb stickyPeer. split.
  - intros Hempty. rewrite GatewayFacts.settle_run. fold active.
    by rewrite bool_decide_eq_true_2.
  - intros Hne.
    destruct (settle_order_exists w active stickyPeer Hne) as [order Horder].
    exists order. split; [done|]. split.
    + intros Hfail.
      rewrite GatewayFacts.settle_run. fold active fb stickyPeer.
      rewrite bool_decide_eq_false_2 by done. rewrite Horder.
      by rewrite (GatewayFacts.settle_loop_all_failed w fb order [] Hfail).
    + unfold eval. rewrite GatewayFacts.settle_run. fold active fb stickyPeer.
      rewrite bool_decide_eq_false_2 by done. rewrite Horder. simpl.
      apply GatewayFacts.settle_loop_answer.
Qed.

(** No peer at all; then peer [a] answering 402 and peer [b] timing out:
    the caller gets the generic 503, not the 402. *)
Lemma settle_failure_is_generic_witness :
  settle world_nobody_succeeds
         {| basePath := None; httpPeers := []; debug := false |}
         (body_with_payer "0xabc") fresh_gateway
    = ((Respond 503
          (Some (JObj [("success", JBool false); ("error", JStr "No peers configured");
                       ("txHash", JNull); ("networkId", JNull)])), []),
       fresh_gateway) ∧
  settle world_nobody_succeeds two_static_peers (body_with_payer "0xabc") fresh_gateway
    = ((Respond 503
          (Some (JObj [("success", JBool false); ("error", JStr "Settle unavailable");
                       ("txHash", JNull); ("networkId", JNull)])),
        ["http://a/settle"; "http://b/settle"]), fresh_gateway).
Proof.
  split.
  - apply (settle_failure_is_generic world_nobody_succeeds
             {| basePath := None; httpPeers := []; debug := false |}
             (body_with_payer "0xabc") fresh_gateway).
    reflexivity.
  - destruct (proj2 (settle_failure_is_generic world_nobody_succeeds two_static_peers
                       (body_with_payer "0xabc") fresh_gateway))
      as (order & Horder & H & _).
    { vm_compute. discriminate. }
    vm_compute in Horder. injection Horder as <-.
    apply H. repeat constructor.
Defined.

(** ** Verify, then settle *)

(** Verify served by [b] after [a] refused: the settle that follows goes
    to [b] first. *)
Example settle_follows_verify :
  let body := body_with_payer "0xabc" in
  let g1 := exec (verify world_b_succeeds two_static_peers body) fresh_gateway in
  head (snd (eval (settle world_nobody_succeeds two_static_peers body) g1))
    = Some "http://b/settle".
Proof. vm_compute. reflexivity. Qed.

(** ** [JSON.stringify] loses nothing *)

Module JsonFacts.

Lemma append_cons (x : ascii) (a b : string) :
  String x a +:+ b = String x (a +:+ b).
Proof. reflexivity. Qed.

Lemma append_nil_l (b : string) : EmptyString +:+ b = b.
Proof. reflexivity. Qed.

Lemma append_assoc (a b c : string) : (a +:+ b) +:+ c = a +:+ (b +:+ c).
Proof.
  induction a as [|x a IH]; [done|]. rewrite !append_cons. by rewrite IH.
Qed.

Lemma append_nil_r (s : string) : s +:+ EmptyString = s.
Proof. induction s as [|x s IH]; [done|]. rewrite append_cons. by rewrite IH. Qed.

(** *** String literals *)

Lemma unescape_escape_char (c : ascii) (r : string) :
  unescape_head (escape_char c +:+ r) = Some (c, r).
Proof. destruct c as [[] [] [] [] [] [] [] []]; reflexivity. Qed.

Lemma escape_cons (c : ascii) (s : string) :
  escape (String c s) = escape_char c +:+ escape s.
Proof. reflexivity. Qed.

(** The body of a literal ends at the first quote that is not escaped. *)
Lemma escape_delimited (s1 s2 r1 r2 : string) :
  escape s1 +:+ String dquote r1 = escape s2 +:+ String dquote r2 →
  s1 = s2 ∧ r1 = r2.
Proof.
  revert s2. induction s1 as [|c1 s1 IH]; intros [|c2 s2] E.
  - simpl in E. by injection E.
  - rewrite escape_cons, append_assoc in E.
    apply (f_equal unescape_head) in E.
    rewrite unescape_escape_char in E. discriminate.
  - rewrite escape_cons, append_assoc in E.
    apply (f_equal unescape_head) in E.
    rewrite unescape_escape_char in E. discriminate.
  - rewrite !escape_cons, !append_assoc in E.
    apply (f_equal unescape_head) in E.
    rewrite !unescape_escape_char in E. injection E as -> E.
    destruct (IH _ E) as [-> ->]. done.
Qed.

Lemma quote_append (s r : string) :
  quote s +:+ r = String dquote (escape s +:+ String dquote r).
Proof.
  unfold quote.
  change (String dquote (escape s +:+ String dquote EmptyString) +:+ r)
    with (String dquote ((escape s +:+ String dquote EmptyString) +:+ r)).
  by rewrite append_assoc.
Qed.

Lemma quote_delimited (s1 s2 r1 r2 : string) :
  quote s1 +:+ r1 = quote s2 +:+ r2 → s1 = s2 ∧ r1 = r2.
Proof.
  rewrite !quote_append. intros E. injection E as E.
  by apply escape_delimited.
Qed.

(** *** Numbers *)

Lemma Number_toString_inj (a b : Z) :
  Number_toString a = Number_toString b → a = b.
Proof.
  unfold Number_toString. intros E.
  apply (f_equal NilEmpty.int_of_string) in E.
  rewrite !NilEmpty.isi in E. injection E as E.
  by apply DecimalZ.to_int_inj.
Qed.

Lemma uint_chars (d : Decimal.uint) :
  all_chars is_num_char (NilEmpty.string_of_uint d) = true.
Proof. induction d; simpl; auto. Qed.

Lemma Number_toString_chars (n : Z) :
  all_chars is_num_char (Number_toString n) = true.
Proof.
  unfold Number_toString. destruct (Z.to_int n); simpl; apply uint_chars.
Qed.

Lemma all_chars_head (P : ascii → bool) (s r : string) :
  all_chars P s = true → s ≠ EmptyString →
  ∃ c s', s +:+ r = String c s' ∧ P c = true.
Proof.
  destruct s as [|c s]; [done|]. simpl. intros H _.
  apply andb_true_iff in H as [Hc _]. by exists c, (s +:+ r).
Qed.

Lemma Number_toString_nonempty (n : Z) : Number_toString n ≠ EmptyString.
Proof.
  unfold Number_toString. destruct n as [|p|p]; simpl; [done| |done].
  pose proof (DecimalPos.Unsigned.to_uint_nonnil p) as H.
  destruct (Pos.to_uint p); done.
Qed.

Lemma delimited_not_num (c : ascii) (r : string) :
  delimited (String c r) → is_num_char c = false.
Proof. simpl. intros [->|[->| ->]]; reflexivity. Qed.

(** A printed integer ends where the digits end. *)
Lemma digits_delimited (s1 s2 r1 r2 : string) :
  all_chars is_num_char s1 = true → all_chars is_num_char s2 = true →
  delimited r1 → delimited r2 →
  s1 +:+ r1 = s2 +:+ r2 → s1 = s2 ∧ r1 = r2.
Proof.
  revert s2. induction s1 as [|c1 s1 IH]; intros [|c2 s2] H1 H2 D1 D2 E;
    rewrite ?append_cons, ?append_nil_l in E; simpl in H1, H2.
  - done.
  - subst r1. apply andb_true_iff in H2 as [Hc _].
    apply delimited_not_num in D1. congruence.
  - subst r2. apply andb_true_iff in H1 as [Hc _].
    apply delimited_not_num in D2. congruence.
  - injection E as -> E.
    apply andb_true_iff in H1 as [_ H1]. apply andb_true_iff in H2 as [_ H2].
    destruct (IH _ H1 H2 D1 D2 E) as [-> ->]. done.
Qed.

(** *** Values *)

Lemma stringify_arr_cons (x : json) (xs : list json) :
  JSON_stringify (JArr (x :: xs)) = "[" +:+ JSON_stringify x +:+ arr_tail xs.
Proof. reflexivity. Qed.

Lemma stringify_obj_cons (k : string) (x : json) (xs : list (string * json)) :
  JSON_stringify (JObj ((k, x) :: xs))
    = "{" +:+ quote k +:+ ":" +:+ JSON_stringify x +:+ obj_tail xs.
Proof. reflexivity. Qed.

Lemma stringify_head (v : json) (r : string) :
  head_kind (JSON_stringify v +:+ r) = Some (ctor_kind v).
Proof.
  destruct v as [|b|n|s|items|fields].
  - reflexivity.
  - by destruct b.
  - change (JSON_stringify (JNum n)) with (Number_toString n).
    destruct (all_chars_head is_num_char (Number_toString n) r)
      as (c & s' & -> & Hc);
      [apply Number_toString_chars|apply Number_toString_nonempty|].
    simpl. unfold kind_of_char. rewrite Hc.
    repeat (case_decide; [subst c; discriminate Hc|]). done.
  - change (JSON_stringify (JStr s)) with (quote s).
    rewrite quote_append. reflexivity.
  - by destruct items.
  - by destruct fields as [|[k x] xs].
Qed.

Lemma String_inj (c : ascii) (a b : string) : String c a = String c b → a = b.
Proof. by intros [= ->]. Qed.

Lemma arr_tail_nil_append (r : string) : arr_tail [] +:+ r = String "]" r.
Proof. reflexivity. Qed.

Lemma arr_tail_cons_append (y : json) (ys : list json) (r : string) :
  arr_tail (y :: ys) +:+ r
    = String "," (JSON_stringify y +:+ (arr_tail ys +:+ r)).
Proof.
  change (arr_tail (y :: ys)) with ("," +:+ JSON_stringify y +:+ arr_tail ys).
  by rewrite !append_assoc.
Qed.

Lemma obj_tail_nil_append (r : string) : obj_tail [] +:+ r = String "}" r.
Proof. reflexivity. Qed.

Lemma obj_tail_cons_append (k : string) (y : json) (ys : list (string * json))
    (r : string) :
  obj_tail ((k, y) :: ys) +:+ r
    = String "," (quote k +:+ String ":" (JSON_stringify y +:+ (obj_tail ys +:+ r))).
Proof.
  change (obj_tail ((k, y) :: ys))
    with ("," +:+ quote k +:+ ":" +:+ JSON_stringify y +:+ obj_tail ys).
  by rewrite !append_assoc.
Qed.

Lemma stringify_arr_nil_append (r : string) :
  JSON_stringify (JArr []) +:+ r = String "[" (String "]" r).
Proof. reflexivity. Qed.

Lemma stringify_arr_cons_append (x : json) (xs : list json) (r : string) :
  JSON_stringify (JArr (x :: xs)) +:+ r
    = String "[" (JSON_stringify x +:+ (arr_tail xs +:+ r)).
Proof. rewrite stringify_arr_cons. by rewrite !append_assoc. Qed.

Lemma stringify_obj_nil_append (r : string) :
  JSON_stringify (JObj []) +:+ r = String "{" (String "}" r).
Proof. reflexivity. Qed.

Lemma stringify_obj_cons_append (k : string) (x : json)
    (xs : list (string * json)) (r : string) :
  JSON_stringify (JObj ((k, x) :: xs)) +:+ r
    = String "{" (quote k +:+ String ":" (JSON_stringify x +:+ (obj_tail xs +:+ r))).
Proof. rewrite stringify_obj_cons. by rewrite !append_assoc. Qed.

Lemma delimited_arr_tail (l : list json) (r : string) :
  delimited (arr_tail l +:+ r).
Proof.
  destruct l.
  - rewrite arr_tail_nil_append. simpl. auto.
  - rewrite arr_tail_cons_append. simpl. auto.
Qed.

Lemma delimited_obj_tail (l : list (string * json)) (r : string) :
  delimited (obj_tail l +:+ r).
Proof.
  destruct l as [|[k x] l].
  - rewrite obj_tail_nil_append. simpl. auto.
  - rewrite obj_tail_cons_append. simpl. auto.
Qed.

Lemma arr_tail_delimited (l1 : list json) :
  Forall reads_back l1 →
  ∀ l2 r1 r2, delimited r1 → delimited r2 →
    arr_tail l1 +:+ r1 = arr_tail l2 +:+ r2 → l1 = l2 ∧ r1 = r2.
Proof.
  induction 1 as [|x xs Hx Hxs IH]; intros [|y ys] r1 r2 D1 D2 E;
    rewrite ?arr_tail_nil_append, ?arr_tail_cons_append in E.
  - by apply String_inj in E as ->.
  - discriminate.
  - discriminate.
  - apply String_inj in E.
    destruct (Hx y _ _ (delimited_arr_tail xs r1) (delimited_arr_tail ys r2) E)
      as [-> E'].
    destruct (IH _ _ _ D1 D2 E') as [-> ->]. done.
Qed.

Lemma obj_tail_delimited (l1 : list (string * json)) :
  Forall (fun kv => reads_back (snd kv)) l1 →
  ∀ l2 r1 r2, delimited r1 → delimited r2 →
    obj_tail l1 +:+ r1 = obj_tail l2 +:+ r2 → l1 = l2 ∧ r1 = r2.
Proof.
  induction 1 as [|[k x] xs Hx Hxs IH]; intros [|[k' y] ys] r1 r2 D1 D2 E;
    rewrite ?obj_tail_nil_append, ?obj_tail_cons_append in E.
  - by apply String_inj in E as ->.
  - discriminate.
  - discriminate.
  - apply String_inj in E. apply quote_delimited in E as [-> E].
    apply String_inj in E. simpl in Hx.
    destruct (Hx y _ _ (delimited_obj_tail xs r1) (delimited_obj_tail ys r2) E)
      as [-> E'].
    destruct (IH _ _ _ D1 D2 E') as [-> ->]. done.
Qed.

Lemma head_kind_value_not_closing (v : json) (r r' : string) (c : ascii) :
  kind_of_char c = 6%nat → JSON_stringify v +:+ r ≠ String c r'.
Proof.
  intros Hc E. pose proof (stringify_head v r) as Hh. rewrite E in Hh.
  simpl in Hh. rewrite Hc in Hh. by destruct v.
Qed.

(** A printed value, followed by what may follow a value, is read back
    as that value and that remainder. *)
Lemma stringify_delimited (v1 : json) : reads_back v1.
Proof.
  induction v1 as [|b1|n1|s1|items1 IH|fields1 IH] using json_ind;
    intros v2 r1 r2 D1 D2 E.
  all: assert (ctor_kind v2 = _) as Hkind
         by (pose proof (stringify_head v2 r2) as H2;
             rewrite <- E, stringify_head in H2; injection H2 as H2;
             symmetry; exact H2).
  all: destruct v2 as [|b2|n2|s2|items2|fields2]; try discriminate Hkind;
    clear Hkind.
  - split; [done|]. change (String "n" (String "u" (String "l" (String "l" r1)))
                             = String "n" (String "u" (String "l" (String "l" r2)))) in E.
    by do 4 apply String_inj in E.
  - destruct b1, b2; try discriminate E.
    + split; [done|]. change (String "t" (String "r" (String "u" (String "e" r1)))
                             = String "t" (String "r" (String "u" (String "e" r2)))) in E.
      by do 4 apply String_inj in E.
    + split; [done|].
      change (String "f" (String "a" (String "l" (String "s" (String "e" r1))))
              = String "f" (String "a" (String "l" (String "s" (String "e" r2))))) in E.
      by do 5 apply String_inj in E.
  - change (Number_toString n1 +:+ r1 = Number_toString n2 +:+ r2) in E.
    destruct (digits_delimited _ _ _ _ (Number_toString_chars n1)
                (Number_toString_chars n2) D1 D2 E) as [En ->].
    by apply Number_toString_inj in En as ->.
  - change (quote s1 +:+ r1 = quote s2 +:+ r2) in E.
    by apply quote_delimited in E as [-> ->].
  - destruct items1 as [|x xs], items2 as [|y ys];
      rewrite ?stringify_arr_nil_append, ?stringify_arr_cons_append in E;
      apply String_inj in E.
    + by apply String_inj in E as ->.
    + symmetry in E. by apply head_kind_value_not_closing in E.
    + by apply head_kind_value_not_closing in E.
    + apply Forall_cons in IH as [Hx Hxs].
      destruct (Hx y _ _ (delimited_arr_tail xs r1) (delimited_arr_tail ys r2) E)
        as [-> E'].
      destruct (arr_tail_delimited xs Hxs _ _ _ D1 D2 E') as [-> ->]. done.
  - destruct fields1 as [|[k1 x] xs], fields2 as [|[k2 y] ys];
      rewrite ?stringify_obj_nil_append, ?stringify_obj_cons_append in E;
      apply String_inj in E.
    + by apply String_inj in E as ->.
    + rewrite quote_append in E. discriminate.
    + rewrite quote_append in E. discriminate.
    + apply quote_delimited in E as [-> E]. apply String_inj in E.
      apply Forall_cons in IH as [Hx Hxs]. simpl in Hx.
      destruct (Hx y _ _ (delimited_obj_tail xs r1) (delimited_obj_tail ys r2) E)
        as [-> E'].
      destruct (obj_tail_delimited xs Hxs _ _ _ D1 D2 E') as [-> ->]. done.
Qed.

(** Two documents print alike exactly when they are the same document. *)
Theorem JSON_stringify_inj (v1 v2 : json) :
  JSON_stringify v1 = JSON_stringify v2 ↔ v1 = v2.
Proof.
  split; [|by intros ->]. intros E.
  destruct (stringify_delimited v1 v2 EmptyString EmptyString) as [-> _];
    [done|done| |done].
  by rewrite !append_nil_r.
Qed.

End JsonFacts.

(** ** Capability aggregation *)

Module AggregateFacts.

Lemma elem_of_concat {A} (x : A) (ls : list (list A)) :
  x ∈ concat ls ↔ ∃ l, x ∈ l ∧ l ∈ ls.
Proof.
  induction ls as [|l ls IH]; simpl.
  - split; [intros H; by apply elem_of_nil in H|].
    intros (l & _ & H). by apply elem_of_nil in H.
  - rewrite elem_of_app, IH. split.
    + intros [?|(l' & ? & ?)].
      * exists l. split; [done|apply list_elem_of_here].
      * exists l'. split; [done|by apply list_elem_of_further].
    + intros (l' & ? & Hl'). apply elem_of_cons in Hl' as [->|?]; [by left|].
      right. by exists l'.
Qed.

Lemma first_occurrences_from_spec (kinds prev : list json) :
  NoDup (first_occurrences_from prev kinds) ∧
  (∀ k, k ∈ first_occurrences_from prev kinds ↔ k ∈ kinds ∧ k ∉ prev) ∧
  first_occurrences_from prev kinds `sublist_of` kinds.
Proof.
  revert prev. induction kinds as [|k kinds IH]; intros prev; simpl.
  - split; [apply NoDup_nil_2|]. split; [|done].
    intros k. split; [intros H; by apply elem_of_nil in H|].
    intros [H _]. by apply elem_of_nil in H.
  - destruct (decide (k ∈ prev)) as [Hin|Hnin].
    + destruct (IH prev) as (Hnd & Hel & Hsub).
      split; [done|]. split; [|by apply sublist_cons].
      intros k'. rewrite Hel, elem_of_cons. split.
      * intros [? ?]. split; [by right|done].
      * intros [[->|?] ?]; done.
    + destruct (IH (k :: prev)) as (Hnd & Hel & Hsub).
      split; [|split; [|by apply sublist_skip]].
      * apply NoDup_cons. split; [|done].
        rewrite Hel. intros [_ H]. apply H, list_elem_of_here.
      * intros k'. rewrite !elem_of_cons, Hel, not_elem_of_cons. split.
        -- intros [->|(? & ? & ?)]; [split; [by left|done]|split; [by right|done]].
        -- intros [[->|?] ?]; [by left|].
           destruct (decide (k' = k)) as [->|?]; [by left|by right].
Qed.

(** Filtering on the printed keys is removing exact duplicates. *)
Lemma filter_unseen_spec (kinds : list json) :
  ∀ (seen : gset string) (prev : list json),
    (∀ key, key ∈ seen ↔ ∃ p, p ∈ prev ∧ JSON_stringify p = key) →
    filter_unseen kinds seen = first_occurrences_from prev kinds.
Proof.
  induction kinds as [|k kinds IH]; intros seen prev Hseen; [done|].
  simpl.
  destruct (decide (JSON_stringify k ∈ seen)) as [Hin|Hnin];
    destruct (decide (k ∈ prev)) as [Hin'|Hnin'].
  - by apply IH.
  - apply Hseen in Hin as (p & Hp & E).
    apply JsonFacts.JSON_stringify_inj in E. by subst.
  - exfalso. apply Hnin, Hseen. by exists k.
  - f_equal. apply IH. intros key.
    rewrite elem_of_union, elem_of_singleton, Hseen. split.
    + intros [->|(p & Hp & E)].
      * exists k. split; [apply list_elem_of_here|done].
      * exists p. split; [by apply list_elem_of_further|done].
    + intros (p & Hp & E). apply elem_of_cons in Hp as [->|Hp]; [by left|].
      right. by exists p.
Qed.

Lemma filter_unseen_empty (kinds : list json) :
  filter_unseen kinds ∅ = first_occurrences kinds.
Proof.
  apply filter_unseen_spec. intros key. split.
  - intros H. by apply not_elem_of_empty in H.
  - intros (p & Hp & _). by apply elem_of_nil in Hp.
Qed.

Lemma aggregateSupportedKinds_eq fetch peers :
  aggregateSupportedKinds fetch peers =
  (first_occurrences
     (concat (map (fun base =>
                     kinds_of_outcome (fetch (normalizeUrl base +:+ "/supported")))
                  peers)),
   map (fun base => normalizeUrl base +:+ "/supported") peers).
Proof.
  unfold aggregateSupportedKinds. destruct peers as [|p peers]; [done|].
  cbn [length Nat.eqb]. rewrite filter_unseen_empty.
  by rewrite !map_map.
Qed.

End AggregateFacts.

(** C10.  Capability aggregation fetches [/supported] once from each peer,
    in the order of the peer list.  A peer that answers an object with an
    array under [kinds] contributes that array, as it is; a peer whose
    fetch fails or whose body is not JSON, or has no array under [kinds],
    contributes the empty list, and the aggregation goes on.
    The result is the merge of the peers' lists, in the order of the
    peers, with repeated descriptors removed (first occurrences kept, in
    order): every descriptor of the merge occurs in it once.  Two
    descriptors count as duplicates exactly when [JSON.stringify] prints
    them alike, which is when they are the same document: the same fields
    with the same values in the same order.  Without peers, or when every
    peer contributes nothing, the result is empty. *)
Theorem aggregation_merges_and_deduplicates
    (fetch : string → FetchOutcome) (peers : list string) :
  let supported_url := fun base => normalizeUrl base +:+ "/supported" in
  let contribution := fun base => kinds_of_outcome (fetch (supported_url base)) in
  let merged := concat (map contribution peers) in
  let result := fst (aggregateSupportedKinds fetch peers) in
  snd (aggregateSupportedKinds fetch peers) = map supported_url peers ∧
  result = first_occurrences merged ∧
  NoDup result ∧
  (∀ k, k ∈ result ↔ ∃ base, base ∈ peers ∧ k ∈ contribution base) ∧
  result `sublist_of` merged ∧
  (∀ base fields ks,
      fetch (supported_url base) = BodyJson (JObj fields) →
      get_field "kinds" fields = Some (JArr ks) →
      contribution base = ks) ∧
  (∀ base,
      fetch (supported_url base) = FetchFailed ∨
      fetch (supported_url base) = BodyNotJson →
      contribution base = []) ∧
  (∀ base j,
      fetch (supported_url base) = BodyJson j →
      (∀ fields ks, j = JObj fields → get_field "kinds" fields ≠ Some (JArr ks)) →
      contribution base = []) ∧
  (∀ k1 k2, JSON_stringify k1 = JSON_stringify k2 ↔ k1 = k2) ∧
  (peers = [] → result = []) ∧
  ((∀ base, base ∈ peers →
        fetch (supported_url base) = FetchFailed ∨
        fetch (supported_url base) = BodyNotJson) →
   result = []).
Proof.
  intros supported_url contribution merged result.
  assert (result = first_occurrences merged) as Hres.
  { subst result. by rewrite AggregateFacts.aggregateSupportedKinds_eq. }
  destruct (AggregateFacts.first_occurrences_from_spec merged []) as (Hnd & Hel & Hsub).
  fold (first_occurrences merged) in Hnd, Hel, Hsub. rewrite <- Hres in Hnd, Hel, Hsub.
  assert (∀ base,
            fetch (supported_url base) = FetchFailed ∨
            fetch (supported_url base) = BodyNotJson →
            contribution base = []) as Hfail.
  { intros base [H|H]; subst contribution; simpl; by rewrite H. }
  split; [by rewrite AggregateFacts.aggregateSupportedKinds_eq|].
  split; [done|]. split; [done|]. split.
  { intros k. rewrite Hel. subst merged. rewrite AggregateFacts.elem_of_concat. split.
    - intros [(l & Hk & Hl) _]. apply list_elem_of_fmap in Hl as (base & -> & Hb).
      by exists base.
    - intros (base & Hb & Hk). split; [|apply not_elem_of_nil].
      exists (contribution base). split; [done|].
      apply list_elem_of_fmap. by exists base. }
  split; [done|].
  split.
  { intros base fields ks Hj Hks. subst contribution. cbv beta.
    unfold kinds_of_outcome. rewrite Hj. by rewrite Hks. }
  split; [done|].
  split.
  { intros base j Hj Hno. subst contribution. simpl. rewrite Hj.
    destruct j as [| | | | |fields]; try done. simpl.
    destruct (get_field "kinds" fields) as [[| | | |ks|]|] eqn:E; try done.
    by destruct (Hno fields ks eq_refl). }
  split; [apply JsonFacts.JSON_stringify_inj|].
  split.
  - intros ->. by rewrite Hres.
  - intros Hall. rewrite Hres.
    assert (merged = []) as ->; [|done].
    subst merged. clear -Hall Hfail.
    induction peers as [|p peers IH]; [done|].
    simpl. rewrite (Hfail p) by (apply Hall, list_elem_of_here).
    apply IH. intros base Hb. by apply Hall, list_elem_of_further.
Qed.

(** Peer [a] advertises [x] and peer [b] advertises [x] and [y]: the
    aggregate is [x], [y].  A peer that is down and one that answers with
    something other than JSON give the empty aggregate. *)
Lemma aggregation_merges_and_deduplicates_witness :
  fst (aggregateSupportedKinds fetch_supported ["http://a"; "http://b"])
    = [kind_x; kind_y] ∧
  snd (aggregateSupportedKinds fetch_supported ["http://a"; "http://b"])
    = ["http://a/supported"; "http://b/supported"] ∧
  fst (aggregateSupportedKinds fetch_supported ["http://down"; "http://html/"]) = [].
Proof.
  pose proof (aggregation_merges_and_deduplicates fetch_supported
                ["http://a"; "http://b"]) as H1.
  pose proof (aggregation_merges_and_deduplicates fetch_supported
                ["http://down"; "http://html/"]) as H2.
  cbv zeta in H1, H2.
  destruct H1 as (Hreq & Hres & _).
  destruct H2 as (_ & _ & _ & _ & _ & _ & _ & _ & _ & _ & Hnone).
  split; [|split].
  - rewrite Hres. vm_compute. reflexivity.
  - rewrite Hreq. reflexivity.
  - apply Hnone. intros base Hb.
    apply elem_of_cons in Hb as [->|Hb]; [by left|].
    apply list_elem_of_singleton in Hb as ->. by right.
Defined.

(** Two peers advertise the same kind, [a] as [{scheme, network}] and [b]
    as [{network, scheme}]: the two descriptors agree field for field, and
    the aggregate holds them both. *)
Lemma aggregation_keeps_reordered_fields :
  same_fields kind_exact_base kind_base_exact ∧
  fst (aggregateSupportedKinds fetch_reordered ["http://a"; "http://b"])
    = [kind_exact_base; kind_base_exact].
Proof.
  split; [|by vm_compute].
  intros name. simpl. repeat case_decide; congruence.
Qed.

(** * Further properties of the routing core *)

(** ** Sticky router: what it stores and what a sweep changes *)

Lemma lower_ascii_idem (c : ascii) : lower_ascii (lower_ascii c) = lower_ascii c.
Proof. destruct c as [[] [] [] [] [] [] [] []]; reflexivity. Qed.

Lemma toLowerCase_idem (s : string) : toLowerCase (toLowerCase s) = toLowerCase s.
Proof.
  induction s as [|c s IH]; [done|]. simpl. by rewrite lower_ascii_idem, IH.
Qed.

Lemma recorded_payer_nonempty (body : ForwardBody) (resp : jsvalue) (p : string) :
  recorded_payer body resp = Some p → p ≠ EmptyString.
Proof. unfold recorded_payer. intros H. by apply truthy_string_Some in H as [_ ?]. Qed.

Lemma getHeaderFromBody_nonempty (body : ForwardBody) (k : string) :
  getHeaderFromBody body = Some k → k ≠ EmptyString.
Proof.
  intros H. rewrite <- getHeaderFromBody_truthy in H.
  by apply truthy_string_Some in H as [_ ?].
Qed.

Lemma live_filter_expired (now t : Z) (m : gmap string StickyEntry) (k : string) :
  now <= t →
  StickyRouter.live t (filter (fun kv => ¬ (expiresAt kv.2 <= now)) m !! k)
    = StickyRouter.live t (m !! k).
Proof.
  intros Ht. destruct (m !! k) as [e|] eqn:E.
  - destruct (decide (expiresAt e <= now)) as [Hexp|Hlive].
    + rewrite (proj2 (map_lookup_filter_None _ _ _)).
      * symmetry. apply (StickyFacts.live_expired t _ e); [done|lia].
      * right. intros x Hx. rewrite E in Hx. injection Hx as <-. simpl. tauto.
    + by rewrite (map_lookup_filter_Some_2 _ _ _ _ E).
  - rewrite (proj2 (map_lookup_filter_None _ _ _)); [done|by left].
Qed.

Lemma live_mono (t t' : Z) (e : option StickyEntry) :
  t <= t' → StickyRouter.live t e = None → StickyRouter.live t' e = None.
Proof.
  intros Ht. unfold StickyRouter.live. destruct e as [e|]; [|done].
  repeat case_bool_decide; try done. lia.
Qed.



(** X2.  A later recording for the same request and verify response
    replaces the earlier one altogether: the router is as if only the later
    recording had been made, so no second entry is added and the later peer
    and expiry are the ones found. *)
Theorem recordSelection_last_write_wins
    (r : StickyRouter.t) (peer1 peer2 : string) (body : ForwardBody)
    (resp : jsvalue) (t1 t2 : Z) :
  exec (StickyRouter.recordSelection peer2 body resp t2)
       (exec (StickyRouter.recordSelection peer1 body resp t1) r)
    = exec (StickyRouter.recordSelection peer2 body resp t2) r.
Proof.
  rewrite !StickyFacts.recordSelection_exec. simpl.
  destruct (recorded_payer body resp), (getHeaderFromBody body);
    by rewrite ?insert_insert_eq.
Qed.

(** X3.  A recording changes the answer only for bodies that carry one of
    the keys it wrote: a lookup whose payer key and fingerprint key both
    differ from the recorded ones returns what it returned before. *)
Theorem recordSelection_leaves_other_keys
    (r : StickyRouter.t) (peer : string) (body q : ForwardBody)
    (resp : jsvalue) (now t : Z) :
  (∀ p, recorded_payer body resp = Some p →
        toLowerCase <$> getPayerFromBody q ≠ Some (toLowerCase p)) →
  (∀ k, getHeaderFromBody body = Some k → getHeaderFromBody q ≠ Some k) →
  eval (StickyRouter.getPreferredPeer q t)
       (exec (StickyRouter.recordSelection peer body resp now) r)
    = eval (StickyRouter.getPreferredPeer q t) r.
Proof.
  intros Hp Hk. rewrite !StickyFacts.getPreferredPeer_eval.
  rewrite StickyFacts.recordSelection_exec.
  unfold StickyRouter.byPayer_entry, StickyRouter.byHeader_entry. simpl.
  assert (∀ m, match truthy_string (toLowerCase <$> getPayerFromBody q) with
               | Some x =>
                   match recorded_payer body resp with
                   | Some p =>
                       <[toLowerCase p :=
                           {| peer := peer; expiresAt := now + SELECTION_TTL_MS |}]> m
                   | None => m
                   end !! x
               | None => None
               end
               = match truthy_string (toLowerCase <$> getPayerFromBody q) with
                 | Some x => m !! x
                 | None => None
                 end) as ->.
  { intros m. destruct (truthy_string _) as [x|] eqn:Hx; [|done].
    apply truthy_string_Some in Hx as [Hx _].
    destruct (recorded_payer body resp) as [p|]; [|done].
    apply lookup_insert_ne. intros E. apply (Hp p eq_refl). by rewrite Hx, E. }
  rewrite getHeaderFromBody_truthy.
  destruct (getHeaderFromBody q) as [x|] eqn:Hx; [|done].
  destruct (getHeaderFromBody body) as [k|]; [|done].
  rewrite lookup_insert_ne; [done|]. intros ->. by apply (Hk x).
Qed.

Lemma recordSelection_leaves_other_keys_witness :
  let r := exec (StickyRouter.recordSelection "http://x"
                   (body_with_payer "0xbbb") None 0) StickyRouter.empty in
  eval (StickyRouter.getPreferredPeer (body_with_payer "0xBBB") 10)
       (exec (StickyRouter.recordSelection "http://y"
                (body_with_payer_and_header "0xccc" "h2") None 10) r)
    = eval (StickyRouter.getPreferredPeer (body_with_payer "0xBBB") 10) r.
Proof.
  intros r. apply recordSelection_leaves_other_keys.
  - intros p [= <-]. vm_compute. discriminate.
  - intros k [= <-]. vm_compute. discriminate.
Defined.

(** X4.  A sweep cannot be told from the outside: at the time of the sweep
    and at any later time every lookup returns what it would have returned
    without it.  The sweep never adds an entry, and sweeping twice at the
    same time is sweeping once. *)
Theorem sticky_cleanup_is_invisible (r : StickyRouter.t) (now : Z) :
  let r' := exec (StickyRouter.cleanup now) r in
  (∀ q t, now <= t →
          eval (StickyRouter.getPreferredPeer q t) r'
            = eval (StickyRouter.getPreferredPeer q t) r) ∧
  (StickyRouter.payers (StickyRouter.size r')
     ≤ StickyRouter.payers (StickyRouter.size r))%nat ∧
  (StickyRouter.headers (StickyRouter.size r')
     ≤ StickyRouter.headers (StickyRouter.size r))%nat ∧
  exec (StickyRouter.cleanup now) r' = r'.
Proof.
  intros r'. subst r'. unfold StickyRouter.cleanup. run_state.
  split; [|split; [|split]].
  - intros q t Ht. unfold StickyRouter.getPreferredPeer. run_state.
    unfold StickyRouter.byPayer_entry, StickyRouter.byHeader_entry. simpl.
    assert (∀ (o : option string) (m : gmap string StickyEntry),
              StickyRouter.live t
                match o with
                | Some k => filter (fun kv => ¬ (expiresAt kv.2 <= now)) m !! k
                | None => None
                end
              = StickyRouter.live t match o with Some k => m !! k | None => None end)
      as Hlive.
    { intros [k|] m; [|done]. by apply live_filter_expired. }
    rewrite !Hlive.
    destruct (StickyRouter.live t _); [done|].
    by destruct (StickyRouter.live t _).
  - apply map_size_filter.
  - apply map_size_filter.
  - f_equal; apply map_filter_filter_l; by intros i x _ Hx.
Qed.

Lemma sticky_cleanup_is_invisible_witness :
  let r := exec (StickyRouter.recordSelection "http://x"
                   (body_with_payer "0xbbb") None 0) StickyRouter.empty in
  eval (StickyRouter.getPreferredPeer (body_with_payer "0xbbb") 70000)
       (exec (StickyRouter.cleanup 65000) r)
    = eval (StickyRouter.getPreferredPeer (body_with_payer "0xbbb") 70000) r.
Proof.
  intros r.
  apply (proj1 (sticky_cleanup_is_invisible r 65000)). lia.
Defined.

(** X5.  Without a new recording a miss is permanent: a body for which the
    lookup returns none at some time gets none at every later time. *)
Theorem sticky_miss_is_permanent
    (r : StickyRouter.t) (q : ForwardBody) (t t' : Z) :
  t <= t' →
  eval (StickyRouter.getPreferredPeer q t) r = None →
  eval (StickyRouter.getPreferredPeer q t') r = None.
Proof.
  intros Ht. rewrite !StickyFacts.getPreferredPeer_eval.
  destruct (StickyRouter.live t (StickyRouter.byPayer_entry q r)) eqn:E1; [done|].
  intros E2.
  by rewrite (live_mono t t' _ Ht E1), (live_mono t t' _ Ht E2).
Qed.

Lemma sticky_miss_is_permanent_witness :
  eval (StickyRouter.getPreferredPeer (body_with_payer "0xbbb") 70000)
       (exec (StickyRouter.recordSelection "http://x"
                (body_with_payer "0xbbb") None 0) StickyRouter.empty) = None.
Proof.
  apply (sticky_miss_is_permanent _ _ 60000 70000); [lia|reflexivity].
Defined.

(** ** Peer registry: static peers, sweeps and registrations *)

Lemma set_add_extends (out : list string) (x : string) :
  ∃ rest, set_add out x = out ++ rest ∧ (length rest ≤ 1)%nat.
Proof.
  unfold set_add. destruct (decide (x ∈ out)).
  - exists []. split; [by rewrite app_nil_r|simpl; lia].
  - exists [x]. split; [done|simpl; lia].
Qed.

Lemma registered_loop_extends (now : Z) (r : PeerRegistry.t) (out : list string) :
  ∃ rest,
    fold_left
      (fun out (kv : string * RegisteredPeer) =>
         if bool_decide (now - lastSeenMs kv.2 <= REGISTRY_TTL_MS)
         then set_add out (normalizeUrl (url kv.2)) else out)
      r out = out ++ rest ∧ (length rest ≤ length r)%nat.
Proof.
  revert out. induction r as [|kv r IH]; intros out; simpl.
  - exists []. split; [by rewrite app_nil_r|simpl; lia].
  - case_bool_decide.
    + destruct (set_add_extends out (normalizeUrl (url kv.2))) as (r1 & -> & H1).
      destruct (IH (out ++ r1)) as (r2 & -> & H2).
      exists (r1 ++ r2). rewrite app_assoc, length_app. split; [done|simpl; lia].
    + destruct (IH out) as (r2 & -> & H2). exists r2. split; [done|simpl; lia].
Qed.

Lemma static_loop_length (l out : list string) :
  (length (fold_left (fun out p => set_add out (normalizeUrl p)) l out)
     ≤ length out + length l)%nat.
Proof.
  revert out. induction l as [|p l IH]; intros out; simpl; [lia|].
  destruct (set_add_extends out (normalizeUrl p)) as (r1 & E & H1).
  specialize (IH (set_add out (normalizeUrl p))). rewrite E in *.
  rewrite length_app in IH. lia.
Qed.

Lemma fold_left_filter_noop {A B} (f : A → B → A) (P : B → Prop)
    `{∀ x, Decision (P x)} (l : list B) (a : A) :
  (∀ a x, ¬ P x → f a x = a) →
  fold_left f (filter P l) a = fold_left f l a.
Proof.
  intros Hf. revert a. induction l as [|x l IH]; intros a; [done|].
  destruct (decide (P x)).
  - rewrite filter_cons_True by done. simpl. apply IH.
  - rewrite filter_cons_False by done. simpl. rewrite Hf by done. apply IH.
Qed.

Lemma elem_of_map_set_weak k v m k' v' :
  (k', v') ∈ PeerRegistry.map_set k v m → (k', v') = (k, v) ∨ (k', v') ∈ m.
Proof.
  induction m as [|[k0 v0] m IH]; simpl.
  - intros H. apply list_elem_of_singleton in H. by left.
  - destruct (decide (k0 = k)) as [->|Hne]; intros H.
    + apply elem_of_cons in H as [H|H]; [by left|].
      right. by apply list_elem_of_further.
    + apply elem_of_cons in H as [H|H].
      * right. rewrite H. apply list_elem_of_here.
      * destruct (IH H) as [?|?]; [by left|].
        right. by apply list_elem_of_further.
Qed.

Lemma registry_entries_keyed_by_url_aux (r : PeerRegistry.t) :
  registry_built r → ∀ kv, kv ∈ r → url kv.2 = kv.1.
Proof.
  intros Hb.
  induction Hb as [|r u kinds now _ IH|r now _ IH]; intros [k e] Hkv.
  - by apply elem_of_nil in Hkv.
  - rewrite RegistryFacts.register_exec in Hkv.
    apply elem_of_map_set_weak in Hkv as [[= -> ->]|Hkv]; [done|by apply IH].
  - apply RegistryFacts.cleanup_spec in Hkv as [Hkv _]. by apply IH.
Qed.

(** X6.  Static peers never expire and keep their place: whatever the time
    and the registry, every static peer is active under its normalized URL,
    the active list starts with the list the static peers alone would give,
    and it is no longer than the static list plus the registry. *)
Theorem static_peers_never_expire
    (staticPeers : list string) (now : Z) (r : PeerRegistry.t) :
  let active := eval (PeerRegistry.getActivePeers staticPeers now) r in
  (∀ p, p ∈ staticPeers → normalizeUrl p ∈ active) ∧
  (∃ rest,
      active
        = eval (PeerRegistry.getActivePeers staticPeers now) PeerRegistry.empty
          ++ rest) ∧
  (length active ≤ length staticPeers + PeerRegistry.size r)%nat.
Proof.
  intros active. subst active. split; [|split].
  - intros p Hp. apply RegistryFacts.elem_of_getActivePeers. left. by exists p.
  - unfold PeerRegistry.getActivePeers. run_state.
    destruct (registered_loop_extends now r
                (fold_left (fun out p => set_add out (normalizeUrl p)) staticPeers []))
      as (rest & -> & _).
    by exists rest.
  - unfold PeerRegistry.getActivePeers, PeerRegistry.size. run_state.
    destruct (registered_loop_extends now r
                (fold_left (fun out p => set_add out (normalizeUrl p)) staticPeers []))
      as (rest & -> & Hlen).
    rewrite length_app.
    pose proof (static_loop_length staticPeers []) as Hs. simpl in Hs. lia.
Qed.

(** X7.  A sweep of the registry cannot be told from the outside: at the
    time of the sweep and at any later time [getActivePeers] returns the
    very list, in the same order, that it would have returned without it.
    What the sweep keeps is exactly the entries whose heartbeat age is at
    most the TTL. *)
Theorem registry_cleanup_is_invisible (r : PeerRegistry.t) (now : Z) :
  let r' := exec (PeerRegistry.cleanup now) r in
  (∀ staticPeers t, now <= t →
      eval (PeerRegistry.getActivePeers staticPeers t) r'
        = eval (PeerRegistry.getActivePeers staticPeers t) r) ∧
  (∀ kv, kv ∈ r' ↔ kv ∈ r ∧ fresh_at now kv.2) ∧
  (PeerRegistry.size r' ≤ PeerRegistry.size r)%nat.
Proof.
  intros r'. subst r'. split; [|split].
  - intros staticPeers t Ht.
    unfold PeerRegistry.getActivePeers, PeerRegistry.cleanup. run_state.
    apply (fold_left_filter_noop _
             (fun kv : string * RegisteredPeer =>
                ¬ (now - lastSeenMs kv.2 > REGISTRY_TTL_MS))).
    intros a kv Hstale. rewrite bool_decide_eq_false_2; [done|].
    intros Hfresh. apply Hstale. lia.
  - apply RegistryFacts.cleanup_spec.
  - unfold PeerRegistry.cleanup, PeerRegistry.size. run_state.
    apply length_filter.
Qed.

Lemma registry_cleanup_is_invisible_witness :
  let r := exec (PeerRegistry.register "http://new" None 100000)
             (exec (PeerRegistry.register "http://old" None 0) PeerRegistry.empty) in
  eval (PeerRegistry.getActivePeers ["http://static"] 130000)
       (exec (PeerRegistry.cleanup 125000) r)
    = eval (PeerRegistry.getActivePeers ["http://static"] 130000) r.
Proof.
  intros r.
  apply (proj1 (registry_cleanup_is_invisible r 125000)). lia.
Defined.

(** X8.  In a registry built by registrations and sweeps there is one
    entry per URL string, and each entry is filed under its own URL. *)
Theorem registry_entries_keyed_by_url (r : PeerRegistry.t) :
  registry_built r →
  NoDup (map fst r) ∧ (∀ kv, kv ∈ r → url kv.2 = kv.1).
Proof.
  intros Hb. split; [by apply RegistryFacts.registry_built_distinct_keys|].
  by apply registry_entries_keyed_by_url_aux.
Qed.

Lemma registry_entries_keyed_by_url_witness :
  NoDup (map fst (exec (PeerRegistry.register "http://a" None 10)
                    (exec (PeerRegistry.register "http://a" None 0)
                          PeerRegistry.empty))).
Proof.
  apply (registry_entries_keyed_by_url _
           (registry_built_register _ "http://a" None 10
              (registry_built_register _ "http://a" None 0 registry_built_empty))).
Defined.

(** X9.  Registering a URL bears on that peer only: any other URL is
    active after the registration exactly when it was active before. *)
Theorem register_leaves_other_peers_alone
    (r : PeerRegistry.t) (u : string) (kinds : option (list json)) (T t : Z)
    (staticPeers : list string) (v : string) :
  registry_built r →
  v ≠ normalizeUrl u →
  v ∈ eval (PeerRegistry.getActivePeers staticPeers t)
           (exec (PeerRegistry.register u kinds T) r)
  ↔ v ∈ eval (PeerRegistry.getActivePeers staticPeers t) r.
Proof.
  intros Hb Hv. rewrite !RegistryFacts.elem_of_getActivePeers.
  rewrite RegistryFacts.register_exec.
  pose proof (registry_entries_keyed_by_url_aux r Hb) as Hurl.
  split; (intros [?|([k e] & Hkv & Hf & Heq)]; [by left|right]).
  - apply elem_of_map_set_weak in Hkv as [[= -> ->]|Hkv]; [done|].
    by exists (k, e).
  - exists (k, e). split; [|done].
    apply RegistryFacts.elem_of_map_set_other; [|done].
    intros ->. pose proof (Hurl (u, e) Hkv) as Hu. simpl in Hu.
    apply Hv. rewrite Heq. simpl. by rewrite Hu.
Qed.

Lemma register_leaves_other_peers_alone_witness :
  "http://b" ∈
    eval (PeerRegistry.getActivePeers [] 10)
         (exec (PeerRegistry.register "http://a" None 10)
               (exec (PeerRegistry.register "http://b" None 0) PeerRegistry.empty))
  ↔ "http://b" ∈
      eval (PeerRegistry.getActivePeers [] 10)
           (exec (PeerRegistry.register "http://b" None 0) PeerRegistry.empty).
Proof.
  apply register_leaves_other_peers_alone.
  - apply registry_built_register, registry_built_empty.
  - vm_compute. discriminate.
Defined.

(** ** The handlers: calls, answers and state *)

Lemma settle_order_length (w : World) (active : list string)
    (stickyPeer : option string) (order : list string) :
  settle_order w active stickyPeer = Some order →
  (length order ≤ S (length active))%nat.
Proof.
  unfold settle_order. destruct (settle_preferred w active stickyPeer) as [[p|] i];
    [|done].
  intros [= <-]. rewrite OrderFacts.rotateToNext_eval.
  destruct (length active <=? 1)%nat; [lia|].
  simpl. rewrite (Permutation_length (OrderFacts.sort_random_perm _ _ _)).
  pose proof (length_filter (fun p0 => p0 ≠ p) active). lia.
Qed.

Lemma verify_order_perm (w : World) (active order : list string) :
  NoDup active → verify_order w active = Some order → order ≡ₚ active.
Proof.
  intros Hnd. unfold verify_order.
  destruct (decide (active = [])) as [->|Hne]; [done|].
  destruct (OrderFacts.pickSelectedPeerForVerify_elem_of (rng w) active 0%nat Hne)
    as (primary & Hpick & Hin).
  destruct (pickSelectedPeerForVerify (rng w) active 0%nat) as [o i].
  simpl in Hpick. subst o. intros [= <-].
  by apply (OrderFacts.rotateToNext_spec (rng w) active primary i Hnd).
Qed.

Lemma verify_loop_calls (w : World) (fb : ForwardBody) (order : list string)
    (lastError : option PeerResponse) (calls : list string) (s : StickyRouter.t) :
  ∃ k, (k ≤ length order)%nat ∧
       snd (eval (verify_loop w fb order lastError calls) s)
         = calls ++ call_urls "/verify" (take k order).
Proof.
  revert lastError calls. induction order as [|base order IH]; intros lastError calls.
  - exists 0%nat. split; [done|]. simpl. rewrite app_nil_r. by destruct lastError.
  - simpl.
    destruct (postJson w calls (normalizeUrl base +:+ "/verify") fb VERIFY_TIMEOUT)
      as [|r].
    + destruct (IH lastError (calls ++ [normalizeUrl base +:+ "/verify"]))
        as (k & Hk & ->).
      exists (S k). split; [simpl; lia|]. simpl take.
      rewrite GatewayFacts.call_urls_cons. by rewrite <- app_assoc.
    + case_bool_decide.
      * exists 1%nat. split; [simpl; lia|]. unfold eval, bind.
        by destruct (StickyRouter.recordSelection _ _ _ _ s) as [[] s'].
      * destruct (IH (Some r) (calls ++ [normalizeUrl base +:+ "/verify"]))
          as (k & Hk & ->).
        exists (S k). split; [simpl; lia|]. simpl take.
        rewrite GatewayFacts.call_urls_cons. by rewrite <- app_assoc.
Qed.

Lemma settle_loop_calls (w : World) (fb : ForwardBody) (order : list string)
    (calls : list string) :
  ∃ k, (k ≤ length order)%nat ∧
       snd (settle_loop w fb order calls)
         = calls ++ call_urls "/settle" (take k order).
Proof.
  revert calls. induction order as [|peer order IH]; intros calls.
  - exists 0%nat. split; [done|]. simpl. by rewrite app_nil_r.
  - simpl.
    destruct (postJson w calls (normalizeUrl peer +:+ "/settle") fb SETTLE_TIMEOUT)
      as [|r].
    + destruct (IH (calls ++ [normalizeUrl peer +:+ "/settle"])) as (k & Hk & ->).
      exists (S k). split; [simpl; lia|]. simpl take.
      rewrite GatewayFacts.call_urls_cons. by rewrite <- app_assoc.
    + case_bool_decide.
      * exists 1%nat. split; [simpl; lia|]. done.
      * destruct (IH (calls ++ [normalizeUrl peer +:+ "/settle"])) as (k & Hk & ->).
        exists (S k). split; [simpl; lia|]. simpl take.
        rewrite GatewayFacts.call_urls_cons. by rewrite <- app_assoc.
Qed.

Lemma length_call_urls (suffix : string) (l : list string) :
  length (call_urls suffix l) = length l.
Proof. apply length_map. Qed.

(** X10.  Whatever the peers answer, a handler calls peers only along its
    fallback order: the URLs posted to are those of the first [k] peers of
    the order, in order, each once.  Verify makes at most as many calls as
    there are active peers, settle at most one more. *)
Theorem handlers_call_along_the_order
    (w : World) (options : GatewayOptions) (reqBody : ForwardBody) (g : Gateway) :
  let active := eval (peers w options) g in
  let fb := normalizeForwardBody reqBody in
  let stickyPeer :=
    eval (StickyRouter.getPreferredPeer fb (Date_now w 0)) (sticky g) in
  active ≠ [] →
  (∃ order k,
      verify_order w active = Some order ∧
      snd (eval (verify w options reqBody) g)
        = call_urls "/verify" (take k order) ∧
      (length (snd (eval (verify w options reqBody) g)) ≤ length active)%nat) ∧
  (∃ order k,
      settle_order w active stickyPeer = Some order ∧
      snd (eval (settle w options reqBody) g)
        = call_urls "/settle" (take k order) ∧
      (length (snd (eval (settle w options reqBody) g)) ≤ S (length active))%nat).
Proof.
  intros active fb stickyPeer Hne.
  assert (NoDup active) as Hnd by apply RegistryFacts.NoDup_getActivePeers.
  split.
  - destruct (fallback_order_exists w active Hne) as [order Horder].
    destruct (verify_loop_calls w fb order None [] (sticky g)) as (k & Hk & Hcalls).
    exists order, k. split; [done|].
    assert (snd (eval (verify w options reqBody) g)
            = call_urls "/verify" (take k order)) as ->.
    { unfold eval. rewrite GatewayFacts.verify_run. fold active fb.
      rewrite bool_decide_eq_false_2 by done. rewrite Horder.
      unfold eval in Hcalls.
      by destruct (verify_loop w fb order None [] (sticky g)) as [res s']. }
    split; [done|].
    rewrite length_call_urls, length_take.
    rewrite <- (Permutation_length (verify_order_perm w active order Hnd Horder)). lia.
  - destruct (settle_order_exists w active stickyPeer Hne) as [order Horder].
    destruct (settle_loop_calls w fb order []) as (k & Hk & Hcalls).
    exists order, k. split; [done|].
    assert (snd (eval (settle w options reqBody) g)
            = call_urls "/settle" (take k order)) as ->.
    { unfold eval. rewrite GatewayFacts.settle_run. fold active fb stickyPeer.
      rewrite bool_decide_eq_false_2 by done. by rewrite Horder. }
    split; [done|].
    rewrite length_call_urls, length_take.
    pose proof (settle_order_length w active stickyPeer order Horder). lia.
Qed.

Lemma handlers_call_along_the_order_witness :
  ∃ order k,
    verify_order world_b_succeeds ["http://a"; "http://b"] = Some order ∧
    snd (eval (verify world_b_succeeds two_static_peers (body_with_payer "0xabc"))
              fresh_gateway)
      = call_urls "/verify" (take k order) ∧
    (length (snd (eval (verify world_b_succeeds two_static_peers
                          (body_with_payer "0xabc")) fresh_gateway)) ≤ 2)%nat.
Proof.
  refine (proj1 (handlers_call_along_the_order world_b_succeeds two_static_peers
                   (body_with_payer "0xabc") fresh_gateway _)).
  vm_compute. discriminate.
Defined.

Lemma verify_loop_state (w : World) (fb : ForwardBody) (order : list string)
    (lastError : option PeerResponse) (calls : list string) (s : StickyRouter.t) :
  (∀ e, lastError = Some e → status e ≠ 200) →
  exec (verify_loop w fb order lastError calls) s = s ∨
  ∃ b, fst (eval (verify_loop w fb order lastError calls) s) = Respond 200 b.
Proof.
  revert lastError calls. induction order as [|base order IH];
    intros lastError calls Hlast.
  - left. simpl. by destruct lastError.
  - simpl.
    destruct (postJson w calls (normalizeUrl base +:+ "/verify") fb VERIFY_TIMEOUT)
      as [|r] eqn:Hcall.
    + by apply IH.
    + case_bool_decide as Hok.
      * right. exists (body r). unfold eval, bind.
        by destruct (StickyRouter.recordSelection _ _ _ _ s) as [[] s'].
      * apply IH. by intros e [= <-].
Qed.

(** X12.  A verify that does not answer 200 leaves the gateway as it found
    it: no sticky selection is recorded on failure.  Verify never changes
    the registry, and settle never changes anything, not even on
    success. *)
Theorem failed_verify_and_settle_keep_the_state
    (w : World) (options : GatewayOptions) (reqBody : ForwardBody) (g : Gateway) :
  (∀ st b, fst (eval (verify w options reqBody) g) = Respond st b →
           st ≠ 200 → exec (verify w options reqBody) g = g) ∧
  registry (exec (verify w options reqBody) g) = registry g ∧
  exec (settle w options reqBody) g = g.
Proof.
  split; [|split].
  - intros st b. unfold eval, exec. rewrite GatewayFacts.verify_run.
    case_bool_decide; [done|].
    destruct (verify_order w _) as [order|]; [|done].
    destruct (verify_loop_state w (normalizeForwardBody reqBody) order None []
                (sticky g)) as [Hs|[b' Hs]]; [done| |];
      unfold eval, exec in Hs;
      destruct (verify_loop w (normalizeForwardBody reqBody) order None []
                  (sticky g)) as [res s']; simpl in *.
    + intros _ _. subst s'. by destruct g.
    + rewrite Hs. by intros [= <- _] Hst.
  - unfold exec. rewrite GatewayFacts.verify_run.
    case_bool_decide; [done|].
    destruct (verify_order w _) as [order|]; [|done].
    by destruct (verify_loop w (normalizeForwardBody reqBody) order None []
                   (sticky g)) as [res s'].
  - unfold exec. rewrite GatewayFacts.settle_run.
    case_bool_decide; [done|].
    by destruct (settle_order w _ _).
Qed.

Lemma failed_verify_and_settle_keep_the_state_witness :
  exec (verify world_nobody_succeeds two_static_peers (body_with_payer "0xabc"))
       fresh_gateway = fresh_gateway.
Proof.
  apply (proj1 (failed_verify_and_settle_keep_the_state world_nobody_succeeds
                  two_static_peers (body_with_payer "0xabc") fresh_gateway)
               402 (Some (JObj [("error", JStr "insufficient_funds")]))).
  - reflexivity.
  - discriminate.
Defined.

Lemma verify_loop_200_inv (w : World) (fb : ForwardBody) (order : list string)
    (lastError : option PeerResponse) (calls : list string) (s : StickyRouter.t)
    (b : jsvalue) (calls' : list string) (s' : StickyRouter.t) :
  (∀ e, lastError = Some e → status e ≠ 200) →
  verify_loop w fb order lastError calls s = ((Respond 200 b, calls'), s') →
  ∃ base k,
    base ∈ order ∧
    last calls' = Some (normalizeUrl base +:+ "/verify") ∧
    s' = exec (StickyRouter.recordSelection base fb b (Date_now w k)) s.
Proof.
  revert lastError calls. induction order as [|base order IH];
    intros lastError calls Hlast.
  - simpl. destruct lastError as [e|]; [|done].
    intros [= Hst _ _ _]. by destruct (Hlast e eq_refl).
  - destruct (postJson w calls (normalizeUrl base +:+ "/verify") fb VERIFY_TIMEOUT)
      as [|r] eqn:Hcall.
    + simpl. rewrite Hcall. intros Hrun.
      destruct (IH _ _ Hlast Hrun) as (base' & k & Hin & Hlst & Hs).
      exists base', k. split; [by apply list_elem_of_further|done].
    + destruct (decide (status r = 200)) as [Hok|Hko].
      * rewrite (GatewayFacts.verify_loop_success w fb base order lastError calls s r
                   Hcall Hok).
        intros [= <- <- <-].
        exists base, (S (length calls)). split; [apply list_elem_of_here|].
        split; [by rewrite last_snoc|done].
      * simpl. rewrite Hcall, bool_decide_eq_false_2 by done. intros Hrun.
        destruct (IH (Some r) _ (fun e (E : Some r = Some e) =>
                     eq_ind r (fun x => status x ≠ 200) Hko e
                       (f_equal (default r) E)) Hrun)
          as (base' & k & Hin & Hlst & Hs).
        exists base', k. split; [by apply list_elem_of_further|done].
Qed.

Lemma settle_loop_head (w : World) (fb : ForwardBody) (peer : string)
    (rest : list string) :
  head (snd (settle_loop w fb (peer :: rest) []))
    = Some (normalizeUrl peer +:+ "/settle").
Proof.
  simpl.
  destruct (postJson w [] (normalizeUrl peer +:+ "/settle") fb SETTLE_TIMEOUT)
    as [|r].
  - by destruct (settle_loop_calls w fb rest [normalizeUrl peer +:+ "/settle"])
      as (k & _ & ->).
  - case_bool_decide; [done|].
    by destruct (settle_loop_calls w fb rest [normalizeUrl peer +:+ "/settle"])
      as (k & _ & ->).
Qed.

(** X14.  Verify and settle compose through the sticky router.  When a verify
    answers 200, the peer it called last is the one remembered; a settle that
    arrives before the selection expires, and whose body carries the same
    payer (compared in lower case) or, having no payer, the same header key,
    finds that peer and posts to it first, provided it is still active or at
    least two peers are. *)
Theorem settle_goes_back_to_the_verify_peer
    (w1 w2 : World) (options : GatewayOptions)
    (verifyBody settleBody : ForwardBody) (g g' : Gateway)
    (resp : jsvalue) (calls : list string) :
  let fb1 := normalizeForwardBody verifyBody in
  let fb2 := normalizeForwardBody settleBody in
  verify w1 options verifyBody g = ((Respond 200 resp, calls), g') →
  (∀ k, Date_now w2 0 < Date_now w1 k + SELECTION_TTL_MS) →
  ((∃ p qp, recorded_payer fb1 resp = Some p ∧
            getPayerFromBody fb2 = Some qp ∧
            toLowerCase qp = toLowerCase p) ∨
   (getPayerFromBody fb2 = None ∧
    ∃ k, getHeaderFromBody fb1 = Some k ∧ getHeaderFromBody fb2 = Some k)) →
  ∃ base,
    base ∈ eval (peers w1 options) g ∧
    last calls = Some (normalizeUrl base +:+ "/verify") ∧
    eval (StickyRouter.getPreferredPeer fb2 (Date_now w2 0)) (sticky g')
      = Some base ∧
    (base ∈ eval (peers w2 options) g' ∨
     (2 ≤ length (eval (peers w2 options) g'))%nat →
     head (snd (eval (settle w2 options settleBody) g'))
       = Some (normalizeUrl base +:+ "/settle")).
Proof.
  intros fb1 fb2 Hverify Htime Hkey.
  rewrite GatewayFacts.verify_run in Hverify. fold fb1 in Hverify.
  case_bool_decide as Hne; [done|].
  destruct (verify_order w1 _) as [order|] eqn:Horder; [|done].
  destruct (verify_loop w1 fb1 order None [] (sticky g)) as [[res calls0] s'] eqn:Hloop.
  injection Hverify as -> -> <-.
  destruct (verify_loop_200_inv w1 fb1 order None [] (sticky g) resp calls s')
    as (base & k & Hin & Hlast & ->); [done|done|].
  exists base.
  assert (eval (StickyRouter.getPreferredPeer fb2 (Date_now w2 0))
               (exec (StickyRouter.recordSelection base fb1 resp (Date_now w1 k))
                     (sticky g)) = Some base) as Hsticky.
  { destruct Hkey as [(p & qp & Hrec & Hq & Hlow)|(Hq & key & Hk1 & Hk2)].
    - by apply (StickyFacts.lookup_recorded_payer _ _ _ _ _ p _ qp).
    - apply (StickyFacts.lookup_recorded_header _ _ _ _ _ key); [done|done| |done].
      unfold StickyRouter.byPayer_entry. by rewrite Hq. }
  split; [|split; [done|split; [done|]]].
  - assert (NoDup (eval (peers w1 options) g)) as Hnd
      by apply RegistryFacts.NoDup_getActivePeers.
    by rewrite <- (verify_order_perm w1 _ order Hnd Horder).
  - simpl. intros Hactive. unfold eval at 1.
    rewrite GatewayFacts.settle_run. fold fb2. simpl sticky. rewrite Hsticky.
    set (active2 := eval (peers w2 options) _) in *.
    assert (active2 ≠ []) as Hne2.
    { intros E. rewrite E in Hactive. destruct Hactive as [H0|H0].
      - by apply elem_of_nil in H0.
      - simpl in H0. lia. }
    rewrite (bool_decide_eq_false_2 _ Hne2).
    unfold settle_order, settle_preferred.
    assert (∃ rest, eval (rotateToNext (rng w2) active2 base) 0%nat = base :: rest)
      as [rest ->].
    { destruct Hactive as [Hb|Hlen].
      - destruct (OrderFacts.rotateToNext_spec (rng w2) active2 base 0%nat)
          as (_ & _ & _ & Hhead);
          [apply RegistryFacts.NoDup_getActivePeers|].
        destruct (Hhead Hb) as [Hh _].
        destruct (eval (rotateToNext (rng w2) active2 base) 0%nat) as [|x rest];
          [done|].
        injection Hh as ->. by exists rest.
      - rewrite OrderFacts.rotateToNext_eval.
        destruct (length active2 <=? 1)%nat eqn:E; [apply Nat.leb_le in E; lia|].
        by eexists. }
    apply settle_loop_head.
Qed.

Lemma settle_goes_back_to_the_verify_peer_witness :
  ∃ base,
    base ∈ ["http://a"; "http://b"] ∧
    last ["http://a/verify"; "http://b/verify"]
      = Some (normalizeUrl base +:+ "/verify") ∧
    eval (StickyRouter.getPreferredPeer (body_with_payer "0xabc") 30000)
         (sticky (exec (verify world_b_succeeds two_static_peers
                          (body_with_payer "0xabc")) fresh_gateway))
      = Some base ∧
    (base ∈ ["http://a"; "http://b"] ∨ (2 ≤ 2)%nat →
     head (snd (eval (settle world_settle_b_succeeds two_static_peers
                        (body_with_payer "0xabc"))
                     (exec (verify world_b_succeeds two_static_peers
                              (body_with_payer "0xabc")) fresh_gateway)))
       = Some (normalizeUrl base +:+ "/settle")).
Proof.
  apply (settle_goes_back_to_the_verify_peer world_b_succeeds
           world_settle_b_succeeds two_static_peers
           (body_with_payer "0xabc") (body_with_payer "0xabc") fresh_gateway
           (exec (verify world_b_succeeds two_static_peers
                    (body_with_payer "0xabc")) fresh_gateway)
           verify_ok_body ["http://a/verify"; "http://b/verify"]).
  - reflexivity.
  - intros k. simpl. unfold SELECTION_TTL_MS. lia.
  - left. exists "0xABC", "0xabc". by vm_compute.
Defined.

(** ** Helpers: URLs, the random pick, the forwarded body *)

Lemma append_slash_neq (s : string) : s ≠ s +:+ "/".
Proof.
  induction s as [|c s IH]; [done|].
  rewrite JsonFacts.append_cons. intros [= H]. by apply IH.
Qed.

Lemma normalizeUrl_append_slash (s : string) : normalizeUrl (s +:+ "/") = s.
Proof.
  induction s as [|c s IH]; [done|].
  rewrite JsonFacts.append_cons. destruct s as [|c' s'].
  - reflexivity.
  - rewrite JsonFacts.append_cons, normalizeUrl_cons.
    rewrite <- JsonFacts.append_cons. by rewrite IH.
Qed.

(** X15.  [normalizeUrl] undoes the appending of one slash, and it leaves a
    string as it is exactly when the string does not end in a slash: a URL
    and the same URL followed by a slash name the same peer. *)
Theorem normalizeUrl_drops_one_trailing_slash (s : string) :
  normalizeUrl (s +:+ "/") = s ∧
  (normalizeUrl s = s ↔ ends_with_slash s = false) ∧
  (ends_with_slash s = false → normalizeUrl (s +:+ "/") = normalizeUrl s).
Proof.
  split; [apply normalizeUrl_append_slash|]. split.
  - split; [|apply normalizeUrl_fixed].
    intros Hfix. destruct (ends_with_slash s) eqn:E; [|done].
    apply normalizeUrl_strips in E. rewrite Hfix in E.
    by destruct (append_slash_neq s).
  - intros E. by rewrite normalizeUrl_append_slash, normalizeUrl_fixed.
Qed.

Lemma random_index_onto (n k : nat) :
  (k < n)%nat → (N.of_nat n < 2 ^ 32)%N →
  ∃ u, (u < two53)%N ∧ random_index u n = k.
Proof.
  intros Hk Hn. unfold random_index.
  pose proof OrderFacts.two53_pow as HT.
  assert (2 ^ 32 * 2 ^ 21 = two53)%N as H32 by reflexivity.
  assert (0 < two53)%N as H53 by (by vm_compute).
  set (m := N.of_nat n) in *. set (j := N.of_nat k).
  assert (j < m)%N as Hj by lia.
  assert (2 * m <= two53)%N as Hm2 by nia.
  exists ((j * two53 + m - 1) / m)%N.
  pose proof (N.Div0.mul_div_le (j * two53 + m - 1) m) as Hlo.
  pose proof (N.mul_succ_div_gt (j * two53 + m - 1) m ltac:(lia)) as Hhi.
  set (u := ((j * two53 + m - 1) / m)%N) in *.
  assert (u < two53)%N as Hu by nia.
  split; [done|].
  rewrite N.mod_small by done.
  set (p := (u * m)%N).
  assert (j * two53 <= p)%N as Hp1 by (subst p; nia).
  assert (p + 2 * m <= (j + 1) * two53 + m)%N as Hp2 by (subst p; nia).
  assert (j * two53 <= round_to_double p < (j + 1) * two53)%N as Hround.
  { destruct (OrderFacts.round_to_double_bounds p) as [[_ ->]|(Hs & Hlow & Hdown & Hup)];
      [nia|].
    set (s := (N.log2 p - 52)%N) in *.
    assert (2 ^ (s - 1) < m)%N as Hh by nia.
    split; [|nia].
    assert (0 < p)%N as Hp0.
    { destruct p; [|lia]. subst s. simpl in Hs. lia. }
    assert (s <= 53)%N as Hs53.
    { assert (N.log2 p < 105)%N; [|subst s; lia].
      apply N.log2_lt_pow2; [done|].
      assert (p < 2 ^ 32 * two53)%N as Hp3 by nia.
      assert (2 ^ 32 * two53 * 2 ^ 20 = 2 ^ 105)%N as <- by reflexivity.
      assert (0 < 2 ^ 20)%N by (by vm_compute). nia. }
    assert (two53 = 2 ^ (53 - s) * 2 ^ s)%N as Hsplit.
    { rewrite HT, <- N.pow_add_r. f_equal. lia. }
    assert (j * 2 ^ (53 - s) <= p / 2 ^ s)%N as Hq.
    { rewrite <- (N.div_mul (j * 2 ^ (53 - s)) (2 ^ s))
        by (apply N.pow_nonzero; lia).
      apply N.Div0.div_le_mono. rewrite <- N.mul_assoc, <- Hsplit. lia. }
    rewrite Hsplit at 1. nia. }
  assert (round_to_double p / two53 = j)%N as ->; [|lia].
  symmetry. apply (N.div_unique _ two53 j (round_to_double p - j * two53)); lia.
Qed.

(** X16.  The pick of the primary peer.  A single peer is taken without a
    random draw; among two or more, the peer at the drawn index --
    [Math.floor] of the rounded product of the draw and the length -- is
    taken and one draw is used; and every peer of the list is the pick for
    some draw, an array holding fewer than [2^32] elements. *)
Theorem pickSelectedPeerForVerify_reaches_every_peer
    (rng : Rng) (peers : list string) (i : nat) :
  (∀ p, peers = [p] → pickSelectedPeerForVerify rng peers i = (Some p, i)) ∧
  ((2 ≤ length peers)%nat →
   ∃ p, peers !! random_index (rng i) (length peers) = Some p ∧
        pickSelectedPeerForVerify rng peers i = (Some p, S i)) ∧
  (∀ p, p ∈ peers → (N.of_nat (length peers) < 2 ^ 32)%N →
        ∃ u, (u < two53)%N ∧
             fst (pickSelectedPeerForVerify (fun _ => u) peers i) = Some p).
Proof.
  split; [by intros p ->|]. split.
  - intros Hlen. unfold pickSelectedPeerForVerify.
    destruct (length peers =? 1)%nat eqn:E; [apply Nat.eqb_eq in E; lia|].
    unfold pickRandomM, Math_random, bind, ret, pickRandom.
    destruct (lookup_lt_is_Some_2 peers (random_index (rng i) (length peers)))
      as [p Hp].
    { apply OrderFacts.random_index_lt. lia. }
    exists p. by rewrite Hp.
  - intros p Hp Hlen. apply list_elem_of_lookup_1 in Hp as [k Hk].
    pose proof (lookup_lt_Some _ _ _ Hk) as Hlt.
    destruct (random_index_onto (length peers) k Hlt Hlen) as (u & Hu & Hidx).
    exists u. split; [done|]. unfold pickSelectedPeerForVerify.
    destruct (length peers =? 1)%nat eqn:E.
    + apply Nat.eqb_eq in E. simpl. assert (k = 0)%nat as -> by lia. done.
    + unfold pickRandomM, Math_random, bind, ret, pickRandom. simpl.
      by rewrite Hidx.
Qed.

Lemma pickSelectedPeerForVerify_reaches_every_peer_witness :
  ∃ u, (u < two53)%N ∧
       fst (pickSelectedPeerForVerify (fun _ => u)
              ["http://a"; "http://b"; "http://c"] 0%nat) = Some "http://c".
Proof.
  apply (proj2 (proj2 (pickSelectedPeerForVerify_reaches_every_peer
                         (fun _ => 0%N) ["http://a"; "http://b"; "http://c"]
                         0%nat))).
  - do 2 apply list_elem_of_further. apply list_elem_of_here.
  - by vm_compute.
Defined.

Lemma normalizeForwardBody_header (b : ForwardBody) :
  getHeaderFromBody (normalizeForwardBody b) = getHeaderFromBody b.
Proof.
  unfold normalizeForwardBody.
  destruct (paymentPayload b) as [pp|] eqn:Epp;
    destruct (paymentRequirements b) as [reqs|] eqn:Ereqs; try done;
    destruct (truthy_string (paymentHeader b)) as [h|] eqn:Eh; try done.
  unfold getHeaderFromBody. rewrite Eh. simpl.
  apply truthy_string_Some in Eh as [_ Hne].
  unfold truthy_string. by rewrite decide_False.
Qed.

Lemma normalizeForwardBody_payer (b : ForwardBody) :
  getPayerFromBody (normalizeForwardBody b) = getPayerFromBody b.
Proof.
  unfold normalizeForwardBody.
  destruct (paymentPayload b) as [pp|] eqn:Epp;
    destruct (paymentRequirements b) as [reqs|] eqn:Ereqs; try done;
    destruct (truthy_string (paymentHeader b)) as [h|] eqn:Eh; try done.
  unfold getPayerFromBody. by rewrite Epp.
Qed.


(** ** Aggregation over the active peers *)

Lemma elem_of_aggregate (fetch : string → FetchOutcome) (peers : list string)
    (k : json) :
  k ∈ fst (aggregateSupportedKinds fetch peers) ↔
  ∃ base, base ∈ peers ∧
          k ∈ kinds_of_outcome (fetch (normalizeUrl base +:+ "/supported")).
Proof.
  rewrite AggregateFacts.aggregateSupportedKinds_eq. simpl.
  destruct (AggregateFacts.first_occurrences_from_spec
              (concat (map (fun base =>
                 kinds_of_outcome (fetch (normalizeUrl base +:+ "/supported")))
                 peers)) []) as (_ & Hel & _).
  unfold first_occurrences. rewrite Hel, AggregateFacts.elem_of_concat. split.
  - intros [(l & Hk & Hl) _]. apply list_elem_of_fmap in Hl as (base & -> & Hb).
    by exists base.
  - intros (base & Hb & Hk). split; [|apply not_elem_of_nil].
    eexists. split; [exact Hk|]. apply list_elem_of_fmap. by exists base.
Qed.

Lemma NoDup_aggregate (fetch : string → FetchOutcome) (peers : list string) :
  NoDup (fst (aggregateSupportedKinds fetch peers)).
Proof.
  rewrite AggregateFacts.aggregateSupportedKinds_eq. simpl.
  apply AggregateFacts.first_occurrences_from_spec.
Qed.

(** X18.  The aggregate depends on the peers only as a set: two peer lists
    with the same members, in any order and with any repetitions, give
    the same capability descriptors, up to their order. *)
Theorem aggregation_ignores_peer_order_and_repeats
    (fetch : string → FetchOutcome) (peers peers' : list string) :
  (∀ base, base ∈ peers ↔ base ∈ peers') →
  fst (aggregateSupportedKinds fetch peers)
    ≡ₚ fst (aggregateSupportedKinds fetch peers').
Proof.
  intros Hsame. apply NoDup_Permutation; [apply NoDup_aggregate..|].
  intros k. rewrite !elem_of_aggregate.
  split; intros (base & Hb & Hk); exists base; (split; [by apply Hsame|done]).
Qed.

Lemma aggregation_ignores_peer_order_and_repeats_witness :
  fst (aggregateSupportedKinds fetch_supported ["http://a"; "http://b"])
    ≡ₚ fst (aggregateSupportedKinds fetch_supported
              ["http://b"; "http://a"; "http://b"]).
Proof.
  apply (aggregation_ignores_peer_order_and_repeats fetch_supported
           ["http://a"; "http://b"] ["http://b"; "http://a"; "http://b"]).
  intros base. rewrite !elem_of_cons. intuition.
Defined.

Lemma first_occurrences_from_NoDup (kinds prev : list json) :
  NoDup kinds → (∀ k, k ∈ kinds → k ∉ prev) →
  first_occurrences_from prev kinds = kinds.
Proof.
  revert prev. induction kinds as [|k kinds IH]; intros prev Hnd Hdisj; [done|].
  simpl. apply NoDup_cons in Hnd as [Hk Hnd].
  rewrite decide_False by (apply Hdisj, list_elem_of_here).
  f_equal. apply IH; [done|].
  intros k' Hk' Hin. apply elem_of_cons in Hin as [->|Hin]; [done|].
  by apply (Hdisj k'); [apply list_elem_of_further|].
Qed.

(** X19.  When no descriptor is advertised twice, nothing is dropped and
    nothing is reordered: the aggregate is the plain concatenation of the
    peers' lists, in the order of the peers. *)
Theorem aggregation_of_distinct_kinds_is_the_concatenation
    (fetch : string → FetchOutcome) (peers : list string) :
  let merged :=
    concat (map (fun base =>
                   kinds_of_outcome (fetch (normalizeUrl base +:+ "/supported")))
                peers) in
  NoDup merged →
  fst (aggregateSupportedKinds fetch peers) = merged.
Proof.
  intros merged Hnd. rewrite AggregateFacts.aggregateSupportedKinds_eq. simpl.
  apply first_occurrences_from_NoDup; [done|].
  intros k _. apply not_elem_of_nil.
Qed.

Lemma aggregation_of_distinct_kinds_is_the_concatenation_witness :
  fst (aggregateSupportedKinds fetch_supported ["http://b"; "http://down"])
    = [kind_x; kind_y].
Proof.
  apply (aggregation_of_distinct_kinds_is_the_concatenation fetch_supported
           ["http://b"; "http://down"]).
  vm_compute. repeat (apply NoDup_cons_2 || apply NoDup_nil_2);
    rewrite ?elem_of_cons, ?elem_of_nil; intuition discriminate.
Defined.

(** X20.  [GET /supported] always answers 200 and never changes the
    gateway: its [kinds] are free of duplicates, each comes from an active
    peer, and they are the empty list when there is no active peer or no
    peer answers. *)
Theorem supported_route_always_answers
    (w : World) (fetch : string → FetchOutcome) (options : GatewayOptions)
    (g : Gateway) :
  ∃ ks,
    supported_route w fetch options g
      = (Respond 200 (Some (JObj [("kinds", JArr ks)])), g) ∧
    NoDup ks ∧
    (∀ k, k ∈ ks ↔
          ∃ base, base ∈ eval (peers w options) g ∧
                  k ∈ kinds_of_outcome (fetch (normalizeUrl base +:+ "/supported"))) ∧
    (eval (peers w options) g = [] → ks = []) ∧
    ((∀ url, fetch url = FetchFailed) → ks = []).
Proof.
  exists (fst (aggregateSupportedKinds fetch (eval (peers w options) g))).
  split; [|split; [apply NoDup_aggregate|split; [apply elem_of_aggregate|split]]].
  - unfold supported_route, bind, ret, eval. rewrite GatewayFacts.peers_run. done.
  - by intros ->.
  - intros Hdown. apply elem_of_nil_inv. intros k Hk.
    apply elem_of_aggregate in Hk as (base & _ & Hk).
    rewrite Hdown in Hk. by apply elem_of_nil in Hk.
Qed.

(** ** Registration: the handler, the gateway in service, the heartbeat *)

Lemma trimEnd_idem (s : string) : trimEnd (trimEnd s) = trimEnd s.
Proof.
  induction s as [|c s IH]; [done|].
  simpl. destruct (trimEnd s) as [|c' kept] eqn:E.
  - destruct (is_white_space c) eqn:Ec; [done|]. simpl. by rewrite Ec.
  - change (trimEnd (String c (String c' kept))) with
      (match trimEnd (String c' kept) with
       | EmptyString =>
           if is_white_space c then EmptyString else String c EmptyString
       | kept0 => String c kept0
       end).
    by rewrite IH.
Qed.

Lemma trimStart_head (s : string) :
  trimStart s = EmptyString ∨
  ∃ c rest, trimStart s = String c rest ∧ is_white_space c = false.
Proof.
  induction s as [|c s IH]; [by left|].
  simpl. destruct (is_white_space c) eqn:Ec; [done|].
  right. by exists c, s.
Qed.

Lemma trimEnd_head (c : ascii) (rest : string) :
  is_white_space c = false → ∃ rest', trimEnd (String c rest) = String c rest'.
Proof.
  intros Ec. simpl. destruct (trimEnd rest) as [|c' kept].
  - rewrite Ec. by eexists.
  - by eexists.
Qed.

Lemma trim_idem (s : string) : trim (trim s) = trim s.
Proof.
  unfold trim. destruct (trimStart_head s) as [->|(c & rest & -> & Ec)]; [done|].
  destruct (trimEnd_head c rest Ec) as [rest' E].
  assert (trimStart (trimEnd (String c rest)) = trimEnd (String c rest)) as ->.
  { rewrite E. simpl. by rewrite Ec. }
  apply trimEnd_idem.
Qed.

Lemma has_http_scheme_nonempty (u : string) :
  has_http_scheme u = true → u ≠ EmptyString.
Proof. by intros H ->. Qed.

Lemma register_handler_run (w : World) (body : option RegisterBody.t) (g : Gateway) :
  register_handler w body g =
  if has_http_scheme (requested_url body) then
    (Respond 200 (Some (JObj [("ok", JBool true)])),
     {| sticky := sticky g;
        registry :=
          exec (PeerRegistry.register (requested_url body)
                  (body ?. RegisterBody.kinds) (Date_now w 0)) (registry g) |})
  else (Respond 400 (error_body "Invalid url"), g).
Proof.
  unfold register_handler. fold (requested_url body).
  destruct (has_http_scheme (requested_url body)) eqn:E.
  - rewrite bool_decide_eq_false_2 by by apply has_http_scheme_nonempty.
    reflexivity.
  - by rewrite orb_true_r.
Qed.

Lemma verify_keeps_registry (w : World) (options : GatewayOptions)
    (reqBody : ForwardBody) (g : Gateway) :
  registry (exec (verify w options reqBody) g) = registry g.
Proof.
  unfold exec. rewrite GatewayFacts.verify_run.
  case_bool_decide; [done|].
  destruct (verify_order w _) as [order|]; [|done].
  by destruct (verify_loop w (normalizeForwardBody reqBody) order None []
                 (sticky g)) as [res s'].
Qed.

Lemma settle_keeps_state (w : World) (options : GatewayOptions)
    (reqBody : ForwardBody) (g : Gateway) :
  exec (settle w options reqBody) g = g.
Proof.
  unfold exec. rewrite GatewayFacts.settle_run.
  case_bool_decide; [done|]. by destruct (settle_order w _ _).
Qed.

Lemma supported_route_keeps_state (w : World) (fetch : string → FetchOutcome)
    (options : GatewayOptions) (g : Gateway) :
  exec (supported_route w fetch options) g = g.
Proof.
  unfold exec, supported_route, bind, ret. by rewrite GatewayFacts.peers_run.
Qed.

Lemma peers_route_keeps_state (w : World) (options : GatewayOptions) (g : Gateway) :
  exec (peers_route w options) g = g.
Proof.
  unfold exec, peers_route, bind, ret. by rewrite GatewayFacts.peers_run.
Qed.

Lemma peers_eval (w : World) (options : GatewayOptions) (g : Gateway) :
  eval (peers w options) g
    = eval (PeerRegistry.getActivePeers (httpPeers options) (Date_now w 0))
           (registry g).
Proof. unfold eval. by rewrite GatewayFacts.peers_run. Qed.

(** *** Trimming and the scheme test, on the characters *)

Lemma trimStart_app_ws (pre s : string) :
  all_white_space pre = true → trimStart (pre +:+ s) = trimStart s.
Proof.
  induction pre as [|c pre IH]; [done|].
  simpl. intros H. apply andb_true_iff in H as [Hc Hpre].
  rewrite Hc. by apply IH.
Qed.

Lemma trimStart_decomp (s : string) :
  ∃ pre, s = pre +:+ trimStart s ∧ all_white_space pre = true.
Proof.
  induction s as [|c s IH]; [by exists EmptyString|].
  simpl. destruct (is_white_space c) eqn:Ec; [|by exists EmptyString].
  destruct IH as (pre & Hs & Hpre). exists (String c pre).
  split; [rewrite JsonFacts.append_cons; by rewrite <- Hs|].
  simpl. by rewrite Ec.
Qed.

Lemma trimEnd_cons_keep (c : ascii) (s : string) :
  is_white_space c = false → trimEnd (String c s) = String c (trimEnd s).
Proof. intros Ec. simpl. destruct (trimEnd s); by rewrite ?Ec. Qed.

Lemma trimEnd_ws (post : string) :
  all_white_space post = true → trimEnd post = EmptyString.
Proof.
  induction post as [|c post IH]; [done|].
  simpl. intros H. apply andb_true_iff in H as [Hc Hpost].
  by rewrite (IH Hpost), Hc.
Qed.

Lemma trimEnd_app_ws (s post : string) :
  all_white_space post = true → trimEnd (s +:+ post) = trimEnd s.
Proof.
  intros Hpost. induction s as [|c s IH].
  - by apply trimEnd_ws.
  - rewrite JsonFacts.append_cons. simpl. by rewrite IH.
Qed.

Lemma trimEnd_fixed (s : string) :
  ends_with_white_space s = false → trimEnd s = s.
Proof.
  induction s as [|c s IH]; [done|].
  destruct s as [|c' s'].
  - simpl. by intros ->.
  - intros H. change (ends_with_white_space (String c' s') = false) in H.
    change (trimEnd (String c (String c' s'))) with
      (match trimEnd (String c' s') with
       | EmptyString =>
           if is_white_space c then EmptyString else String c EmptyString
       | kept => String c kept
       end).
    by rewrite (IH H).
Qed.

Lemma trimEnd_decomp (s : string) :
  ∃ post, s = trimEnd s +:+ post ∧ all_white_space post = true ∧
          ends_with_white_space (trimEnd s) = false.
Proof.
  induction s as [|c s IH]; [by exists EmptyString|].
  destruct IH as (post & Hs & Hpost & Hend). simpl.
  destruct (trimEnd s) as [|c' kept] eqn:E.
  - rewrite JsonFacts.append_nil_l in Hs. subst s.
    destruct (is_white_space c) eqn:Ec.
    + exists (String c post). split; [done|]. split; [|done]. simpl.
      by rewrite Ec.
    + exists post. split; [done|]. split; [done|]. by simpl.
  - exists post. split; [by rewrite JsonFacts.append_cons, <- Hs|].
    split; [done|]. exact Hend.
Qed.

Lemma prefix_cons (a b : ascii) (s1 s2 : string) :
  String.prefix (String a s1) (String b s2) = true ↔
  a = b ∧ String.prefix s1 s2 = true.
Proof.
  simpl. destruct (ascii_dec a b) as [->|Hne]; [by split; [|intros [_ ?]]|].
  split; [done|]. by intros [? _].
Qed.

Lemma lower_ascii_letter (c x : ascii) :
  lower_ascii c = x →
  (x = "h" → c = "h" ∨ c = "H")%char ∧
  (x = "t" → c = "t" ∨ c = "T")%char ∧
  (x = "p" → c = "p" ∨ c = "P")%char ∧
  (x = "s" → c = "s" ∨ c = "S")%char ∧
  (x = ":" → c = ":")%char ∧
  (x = "/" → c = "/")%char.
Proof.
  intros <-.
  destruct c as [[] [] [] [] [] [] [] []]; vm_compute;
    repeat split; intros H; first [discriminate H | by left | by right | done].
Qed.

Lemma not_white_space_of_scheme (c : ascii) :
  (c = "h" ∨ c = "H" ∨ c = "t" ∨ c = "T" ∨ c = "p" ∨ c = "P" ∨ c = "s" ∨ c = "S"
   ∨ c = ":" ∨ c = "/")%char →
  is_white_space c = false.
Proof. intros H. repeat (destruct H as [->|H]; [done|]). by subst. Qed.

Ltac scheme_char :=
  apply not_white_space_of_scheme; subst; tauto.

(** The scheme test, character by character. *)
Lemma has_http_scheme_spec (u : string) :
  has_http_scheme u = true ↔ begins_with_http u.
Proof.
  unfold has_http_scheme, begins_with_http. split.
  - intros H. apply orb_true_iff in H.
    destruct u as [|c1 [|c2 [|c3 [|c4 u]]]];
      try (destruct H as [H|H]; simpl toLowerCase in H;
           repeat (apply prefix_cons in H as [_ H]); discriminate H).
    assert (lower_ascii c1 = "h" ∧ lower_ascii c2 = "t" ∧ lower_ascii c3 = "t"
            ∧ lower_ascii c4 = "p")%char as (H1 & H2 & H3 & H4).
    { destruct H as [H|H]; simpl toLowerCase in H;
        repeat (apply prefix_cons in H as [? H]); by subst. }
    exists c1, c2, c3, c4.
    destruct (lower_ascii_letter c1 _ H1) as (Hh & _).
    destruct (lower_ascii_letter c2 _ H2) as (_ & Ht1 & _).
    destruct (lower_ascii_letter c3 _ H3) as (_ & Ht2 & _).
    destruct (lower_ascii_letter c4 _ H4) as (_ & _ & Hp & _).
    destruct H as [H|H]; simpl toLowerCase in H;
      do 4 (apply prefix_cons in H as [_ H]).
    + destruct u as [|c5 [|c6 [|c7 rest]]];
        try (simpl toLowerCase in H;
             repeat (apply prefix_cons in H as [_ H]); discriminate H).
      simpl toLowerCase in H.
      apply prefix_cons in H as [E5 H]. apply prefix_cons in H as [E6 H].
      apply prefix_cons in H as [E7 _].
      destruct (lower_ascii_letter c5 _ (eq_sym E5)) as (_ & _ & _ & _ & H5 & _).
      destruct (lower_ascii_letter c6 _ (eq_sym E6)) as (_ & _ & _ & _ & _ & H6).
      destruct (lower_ascii_letter c7 _ (eq_sym E7)) as (_ & _ & _ & _ & _ & H7).
      exists rest. rewrite (H5 eq_refl), (H6 eq_refl), (H7 eq_refl).
      split; [by apply Hh|]. split; [by apply Ht1|]. split; [by apply Ht2|].
      split; [by apply Hp|]. by left.
    + destruct u as [|c5 [|c6 [|c7 [|c8 rest]]]];
        try (simpl toLowerCase in H;
             repeat (apply prefix_cons in H as [_ H]); discriminate H).
      simpl toLowerCase in H.
      apply prefix_cons in H as [E5 H]. apply prefix_cons in H as [E6 H].
      apply prefix_cons in H as [E7 H]. apply prefix_cons in H as [E8 _].
      destruct (lower_ascii_letter c5 _ (eq_sym E5)) as (_ & _ & _ & H5 & _).
      destruct (lower_ascii_letter c6 _ (eq_sym E6)) as (_ & _ & _ & _ & H6 & _).
      destruct (lower_ascii_letter c7 _ (eq_sym E7)) as (_ & _ & _ & _ & _ & H7).
      destruct (lower_ascii_letter c8 _ (eq_sym E8)) as (_ & _ & _ & _ & _ & H8).
      exists rest. rewrite (H6 eq_refl), (H7 eq_refl), (H8 eq_refl).
      split; [by apply Hh|]. split; [by apply Ht1|]. split; [by apply Ht2|].
      split; [by apply Hp|]. right. exists c5. split; [by apply H5|done].
  - intros (h & t1 & t2 & p & rest & Hh & Ht1 & Ht2 & Hp & Hu).
    apply orb_true_iff.
    destruct Hh as [-> | ->], Ht1 as [-> | ->], Ht2 as [-> | ->], Hp as [-> | ->];
      (destruct Hu as [-> | (c & [-> | ->] & ->)]; [left|right|right]);
      change ("://" +:+ rest) with (String ":" (String "/" (String "/" rest)));
      simpl toLowerCase;
      repeat (apply prefix_cons; split; [reflexivity|]);
      by destruct (toLowerCase rest).
Qed.

Lemma begins_with_http_app (s x : string) :
  begins_with_http s → begins_with_http (s +:+ x).
Proof.
  intros (h & t1 & t2 & p & rest & Hh & Ht1 & Ht2 & Hp & Hs).
  exists h, t1, t2, p, (rest +:+ x).
  split; [done|]. split; [done|]. split; [done|]. split; [done|].
  destruct Hs as [-> | (c & Hc & ->)]; [left|right; exists c; split; [done|]];
    rewrite !JsonFacts.append_cons; do 4 f_equal;
    by rewrite ?JsonFacts.append_cons, JsonFacts.append_assoc.
Qed.

Lemma begins_with_http_trimStart (s : string) :
  begins_with_http s → trimStart s = s.
Proof.
  intros (h & t1 & t2 & p & rest & Hh & _ & _ & _ & Hs).
  assert (is_white_space h = false) as Eh by scheme_char.
  destruct Hs as [-> | (c & _ & ->)]; simpl; by rewrite Eh.
Qed.

Lemma begins_with_http_trimEnd (s : string) :
  begins_with_http s → begins_with_http (trimEnd s).
Proof.
  intros (h & t1 & t2 & p & rest & Hh & Ht1 & Ht2 & Hp & Hs).
  assert (is_white_space h = false) as Eh by scheme_char.
  assert (is_white_space t1 = false) as Et1 by scheme_char.
  assert (is_white_space t2 = false) as Et2 by scheme_char.
  assert (is_white_space p = false) as Ep by scheme_char.
  exists h, t1, t2, p, (trimEnd rest).
  split; [done|]. split; [done|]. split; [done|]. split; [done|].
  destruct Hs as [-> | (c & Hc & ->)].
  - left. change ("://" +:+ rest) with (String ":" (String "/" (String "/" rest))).
    by rewrite !trimEnd_cons_keep.
  - right. exists c. split; [done|].
    assert (is_white_space c = false) as Ec by scheme_char.
    change ("://" +:+ rest) with (String ":" (String "/" (String "/" rest))).
    by rewrite !trimEnd_cons_keep.
Qed.

Lemma requested_url_trim (u : string) (kinds : option (list json)) :
  requested_url (Some {| RegisterBody.url := Some u; RegisterBody.kinds := kinds |})
    = trim u.
Proof.
  unfold requested_url. simpl. unfold truthy_string.
  by destruct (decide (u = EmptyString)) as [->|].
Qed.

(** The handler's test, on the URL as it was sent. *)
Lemma accepted_spec (u : string) :
  has_http_scheme (trim u) = true ↔
  ∃ pre rest,
    u = pre +:+ rest ∧ all_white_space pre = true ∧ begins_with_http rest.
Proof.
  unfold trim. rewrite has_http_scheme_spec. split.
  - intros Hb.
    destruct (trimStart_decomp u) as (pre & Hu & Hpre).
    destruct (trimEnd_decomp (trimStart u)) as (post & Ht & _ & _).
    exists pre, (trimStart u). split; [done|]. split; [done|].
    rewrite Ht. by apply begins_with_http_app.
  - intros (pre & rest & -> & Hpre & Hb).
    rewrite trimStart_app_ws, begins_with_http_trimStart by done.
    by apply begins_with_http_trimEnd.
Qed.

(** X21.  [POST /register] and the URL it is sent, for an ASCII URL.  The
    request is accepted exactly when the URL, after any white space at its
    beginning, starts with [http://] or [https://], the letters in either
    case.  What an accepted request registers is the URL without the white
    space at its two ends: it is answered 200, the URL is stored with the
    kinds and the time of the request, the sticky selections are left
    alone, and the URL, less one trailing slash, is among the active peers
    at once.  Every other request -- also one without a body or without a
    URL -- is answered 400 [Invalid url] and changes nothing. *)
Theorem register_handler_checks_the_url
    (w : World) (options : GatewayOptions) (url : string)
    (kinds : option (list json)) (g : Gateway) :
  let body := Some {| RegisterBody.url := Some url; RegisterBody.kinds := kinds |} in
  ascii_only url = true →
  (eval (register_handler w body) g = Respond 200 (Some (JObj [("ok", JBool true)]))
   ↔ ∃ pre rest,
       url = pre +:+ rest ∧ all_white_space pre = true ∧ begins_with_http rest) ∧
  (∀ pre core post,
      url = pre +:+ (core +:+ post) →
      all_white_space pre = true → all_white_space post = true →
      begins_with_http core → ends_with_white_space core = false →
      register_handler w body g
        = (Respond 200 (Some (JObj [("ok", JBool true)])),
           {| sticky := sticky g;
              registry :=
                exec (PeerRegistry.register core kinds (Date_now w 0))
                     (registry g) |}) ∧
      normalizeUrl core
        ∈ eval (peers w options) (exec (register_handler w body) g)) ∧
  (eval (register_handler w body) g
     ≠ Respond 200 (Some (JObj [("ok", JBool true)])) →
   register_handler w body g
     = (Respond 400 (Some (JObj [("error", JStr "Invalid url")])), g)) ∧
  register_handler w None g
    = (Respond 400 (Some (JObj [("error", JStr "Invalid url")])), g) ∧
  register_handler w
    (Some {| RegisterBody.url := None; RegisterBody.kinds := kinds |}) g
    = (Respond 400 (Some (JObj [("error", JStr "Invalid url")])), g).
Proof.
  intros body _.
  pose proof (register_handler_run w body g) as Hrun.
  unfold body in Hrun at 2 3. rewrite requested_url_trim in Hrun. simpl in Hrun.
  split; [|split; [|split; [|by split]]].
  - rewrite <- accepted_spec. unfold eval. rewrite Hrun.
    destruct (has_http_scheme (trim url)); [done|]. by split.
  - intros pre core post Hurl Hpre Hpost Hcore Hend.
    assert (trim url = core) as Htrim.
    { rewrite Hurl. unfold trim. rewrite trimStart_app_ws by done.
      rewrite (begins_with_http_trimStart (core +:+ post))
        by by apply begins_with_http_app.
      rewrite trimEnd_app_ws by done. by apply trimEnd_fixed. }
    assert (has_http_scheme core = true) as Hscheme
      by by apply has_http_scheme_spec.
    rewrite Htrim, Hscheme in Hrun. split; [done|].
    unfold exec. rewrite Hrun. simpl. rewrite peers_eval. simpl.
    apply RegistryFacts.registered_is_active. unfold REGISTRY_TTL_MS. lia.
  - unfold eval. rewrite Hrun.
    by destruct (has_http_scheme (trim url)).
Qed.

Lemma register_handler_checks_the_url_witness :
  register_handler world_at_10s register_c fresh_gateway
    = (Respond 200 (Some (JObj [("ok", JBool true)])),
       {| sticky := sticky fresh_gateway;
          registry :=
            exec (PeerRegistry.register "http://c/" None 10000)
                 (registry fresh_gateway) |}) ∧
  "http://c"
    ∈ eval (peers world_at_10s two_static_peers)
           (exec (register_handler world_at_10s register_c) fresh_gateway).
Proof.
  apply (proj1 (proj2 (register_handler_checks_the_url world_at_10s
                         two_static_peers "  http://c/ " None fresh_gateway
                         eq_refl)) "  " "http://c/" " ").
  - reflexivity.
  - reflexivity.
  - reflexivity.
  - exists "h"%char, "t"%char, "t"%char, "p"%char, "c/". by repeat split; left.
  - reflexivity.
Defined.

Lemma served_registry_inv (options : GatewayOptions) (g : Gateway) :
  served options g →
  distinct_keys (registry g) ∧
  ∀ kv, kv ∈ registry g →
        url kv.2 = kv.1 ∧ has_http_scheme kv.1 = true ∧ trimmed kv.1.
Proof.
  induction 1 as [|w reqBody g _ IH|w reqBody g _ IH|w body g _ IH
                  |w fetch g _ IH|w g _ IH|now g _ IH|now g _ IH].
  - split; [apply NoDup_nil_2|]. intros kv Hkv. by apply elem_of_nil in Hkv.
  - by rewrite verify_keeps_registry.
  - by rewrite settle_keeps_state.
  - unfold exec. rewrite register_handler_run.
    destruct (has_http_scheme (requested_url body)) eqn:E; [|done].
    destruct IH as [Hnd IH]. simpl. rewrite RegistryFacts.register_exec. split.
    + by apply RegistryFacts.distinct_keys_map_set.
    + intros [k e] Hkv.
      apply elem_of_map_set_weak in Hkv as [[= -> ->]|Hkv]; [|by apply IH].
      simpl. split; [done|]. split; [done|]. apply trim_idem.
  - by rewrite supported_route_keeps_state.
  - by rewrite peers_route_keeps_state.
  - done.
  - destruct IH as [Hnd IH]. split.
    + unfold exec, zoom_registry, PeerRegistry.cleanup, modify. simpl.
      by apply RegistryFacts.distinct_keys_filter.
    + intros kv Hkv. apply IH.
      change (kv ∈ exec (PeerRegistry.cleanup now) (registry g)) in Hkv.
      by apply RegistryFacts.cleanup_spec in Hkv as [Hkv _].
Qed.

(** X22.  In a gateway in service -- after any requests to its routes and
    any sweeps -- the registry holds each URL once, under itself as key,
    and only URLs that begin with [http://] or [https://] and have no
    white space at either end.  So an active peer is a static peer or such
    a URL, less one trailing slash. *)
Theorem served_registry_holds_http_urls (options : GatewayOptions) (g : Gateway) :
  served options g →
  NoDup (map fst (registry g)) ∧
  (∀ kv, kv ∈ registry g →
         url kv.2 = kv.1 ∧ has_http_scheme kv.1 = true ∧ trim kv.1 = kv.1) ∧
  (∀ w u, u ∈ eval (peers w options) g →
          (∃ p, p ∈ httpPeers options ∧ u = normalizeUrl p) ∨
          (∃ v, has_http_scheme v = true ∧ trim v = v ∧ u = normalizeUrl v)).
Proof.
  intros Hs. destruct (served_registry_inv options g Hs) as [Hnd Hinv].
  split; [done|]. split; [done|].
  intros w u Hu. rewrite peers_eval in Hu.
  apply RegistryFacts.elem_of_getActivePeers in Hu as [?|(kv & Hkv & _ & ->)];
    [by left|].
  right. destruct (Hinv kv Hkv) as (Hurl & Hscheme & Htrim).
  exists kv.1. by rewrite Hurl.
Qed.

Lemma served_registry_holds_http_urls_witness :
  NoDup (map fst (registry
                    (exec (register_handler world_at_60s register_d)
                       (exec (register_handler world_at_10s register_c)
                          fresh_gateway)))) ∧
  (∀ kv,
      kv ∈ registry (exec (register_handler world_at_60s register_d)
                       (exec (register_handler world_at_10s register_c)
                          fresh_gateway)) →
      url kv.2 = kv.1 ∧ has_http_scheme kv.1 = true ∧ trim kv.1 = kv.1).
Proof.
  destruct (served_registry_holds_http_urls two_static_peers _
    (served_register two_static_peers world_at_60s register_d _
       (served_register two_static_peers world_at_10s register_c _
          (served_fresh two_static_peers)))) as (Hnd & Hkeys & _).
  exact (conj Hnd Hkeys).
Defined.

Lemma served_since_entry (options : GatewayOptions) (T0 Tmax : Z)
    (g0 g : Gateway) (u : string) :
  served_since options T0 Tmax g0 g →
  Tmax <= T0 + REGISTRY_TTL_MS →
  (∃ e, (u, e) ∈ registry g0 ∧ url e = u ∧ T0 <= lastSeenMs e) →
  ∃ e, (u, e) ∈ registry g ∧ url e = u ∧ T0 <= lastSeenMs e.
Proof.
  intros Hs Hmax H0.
  induction Hs as [|w reqBody g _ IH|w reqBody g _ IH|w body g Hclock _ IH
                   |w fetch g _ IH|w g _ IH|now g _ IH|now g Hnow _ IH].
  - done.
  - by rewrite verify_keeps_registry.
  - by rewrite settle_keeps_state.
  - destruct IH as (e & Hin & Hurl & Hseen).
    unfold exec. rewrite register_handler_run.
    destruct (has_http_scheme (requested_url body)) eqn:E; [|by exists e].
    simpl. rewrite RegistryFacts.register_exec.
    destruct (decide (u = requested_url body)) as [->|Hne].
    + eexists. split; [apply RegistryFacts.elem_of_map_set|done].
    + exists e. split; [|done].
      by apply RegistryFacts.elem_of_map_set_other.
  - by rewrite supported_route_keeps_state.
  - by rewrite peers_route_keeps_state.
  - done.
  - destruct IH as (e & Hin & Hurl & Hseen). exists e. split; [|done].
    change ((u, e) ∈ exec (PeerRegistry.cleanup now) (registry g)).
    apply RegistryFacts.cleanup_spec. split; [done|].
    unfold fresh_at. simpl. lia.
Qed.

(** X23.  A node whose registration was accepted at time [T0] stays among
    the active peers until [T0 + REGISTRY_TTL_MS], whatever the gateway
    serves in between -- verifies, settles, other registrations, repeated
    registrations of the same node, sweeps -- as long as the clock does not
    go back before [T0]. *)
Theorem registered_node_stays_active
    (options : GatewayOptions) (w : World) (body : option RegisterBody.t)
    (g0 g : Gateway) (Tmax : Z) :
  let url := trim (default EmptyString (truthy_string (body ?. RegisterBody.url))) in
  has_http_scheme url = true →
  Tmax <= Date_now w 0 + REGISTRY_TTL_MS →
  served_since options (Date_now w 0) Tmax (exec (register_handler w body) g0) g →
  ∀ w', Date_now w' 0 <= Tmax → normalizeUrl url ∈ eval (peers w' options) g.
Proof.
  intros url Hscheme Hmax Hs w' Hw'.
  destruct (served_since_entry options (Date_now w 0) Tmax _ g url Hs Hmax)
    as (e & Hin & Hurl & Hseen).
  { unfold exec. rewrite register_handler_run.
    fold (requested_url body) in url. fold url. rewrite Hscheme. simpl.
    rewrite RegistryFacts.register_exec.
    eexists. split; [apply RegistryFacts.elem_of_map_set|]. simpl. split; [done|lia]. }
  rewrite peers_eval. apply RegistryFacts.elem_of_getActivePeers. right.
  exists (url, e). split; [done|]. simpl. split; [|by rewrite Hurl].
  unfold fresh_at. lia.
Qed.

Lemma registered_node_stays_active_witness :
  "http://c" ∈
    eval (peers world_at_100s two_static_peers)
         (exec (zoom_registry (PeerRegistry.cleanup 90000))
            (exec (register_handler world_at_60s register_d)
               (exec (register_handler world_at_10s register_c) fresh_gateway))).
Proof.
  apply (registered_node_stays_active two_static_peers world_at_10s register_c
           fresh_gateway _ 100000).
  - reflexivity.
  - simpl. unfold REGISTRY_TTL_MS. lia.
  - apply since_registry_cleanup; [lia|].
    apply since_register; [simpl; lia|]. apply since_now.
  - simpl. lia.
Defined.



(** ** The facilitator node *)

Module FacilitatorFacts.
Import Facilitator.

Lemma bind_run_run {A B} (m : Run A) (k : A → Run B) (log : list Call) :
  bind_run m k log =
  match m log with
  | (Normal a, log') => k a log'
  | (Throw e, log') => (Throw e, log')
  end.
Proof. unfold bind_run, bind. by destruct (m log) as [[a|e] log']. Qed.

Lemma call_run {A} (c : Call) (r : Completion A) (log : list Call) :
  call c r log = (r, log ++ [c]).
Proof. reflexivity. Qed.

Lemma lift_run {A} (r : Completion A) (log : list Call) : lift r log = (r, log).
Proof. reflexivity. Qed.

Lemma evm_kinds_spec (chains : list Chain.t) (kinds : list json) :
  evm_kinds chains kinds =
  match chain_networks chains with
  | Some networks => Normal (kinds ++ map evm_kind networks)
  | None =>
      Throw (ErrorWith "Provided viem Chain is missing the 'network' identifier")
  end.
Proof.
  revert kinds. induction chains as [|chain rest IH]; intros kinds; simpl.
  - by rewrite app_nil_r.
  - unfold getViemChainNetwork.
    destruct (truthy_string (Chain.network chain)) as [network|]; [|done].
    simpl. rewrite IH. destruct (chain_networks rest) as [networks|]; [|done].
    simpl. by rewrite <- app_assoc.
Qed.

Lemma svm_kinds_calls (x : X402) (key : string) (networks : list string)
    (kinds : list json) (log : list Call) :
  ∃ made, snd (svm_kinds x key networks kinds log) = log ++ made ∧
          Forall (fun c => is_CreateSigner c = true) made.
Proof.
  revert kinds log. induction networks as [|network rest IH]; intros kinds log.
  - exists []. by rewrite app_nil_r.
  - simpl. case_bool_decide; [|apply IH].
    rewrite bind_run_run, call_run.
    destruct (createSigner x network key) as [signer|e]; cbn beta iota.
    + match goal with
      | |- context [svm_kinds x key rest ?k ?l] =>
          destruct (IH k l) as (made & Heq & Hmade)
      end.
      exists (CreateSigner network key :: made).
      split; [rewrite Heq; by rewrite <- app_assoc|]. by apply List.Forall_cons.
    + exists [CreateSigner network key]. split; [done|]. by repeat constructor.
Qed.

Lemma svm_kinds_spec (x : X402) (key : string) (signer : string → json)
    (networks : list string) (kinds : list json) (log : list Call) :
  (∀ n, n ∈ networks → n ∈ SupportedSVMNetworks x →
        createSigner x n key = Normal (signer n)) →
  let supported := filter (fun n => n ∈ SupportedSVMNetworks x) networks in
  svm_kinds x key networks kinds log =
  (Normal (kinds ++ map (fun n => svm_kind n (fee_payer x (signer n))) supported),
   log ++ map (fun n => CreateSigner n key) supported).
Proof.
  revert kinds log. induction networks as [|network rest IH];
    intros kinds log Hsign; simpl.
  - by rewrite !app_nil_r.
  - assert (∀ n, n ∈ rest → n ∈ SupportedSVMNetworks x →
                 createSigner x n key = Normal (signer n)) as Hrest.
    { intros n Hn. apply Hsign. by apply list_elem_of_further. }
    case_bool_decide as Hin.
    + rewrite filter_cons_True by done.
      rewrite bind_run_run, call_run.
      rewrite (Hsign network (list_elem_of_here _ _) Hin). cbn beta iota.
      rewrite (IH _ _ Hrest). simpl. unfold fee_payer, raw_field.
      by rewrite <- !app_assoc.
    + rewrite filter_cons_False by done. by apply IH.
Qed.

Lemma getSupportedKinds_calls (x : X402) (this : t) (log : list Call) :
  ∃ made, snd (getSupportedKinds x this log) = log ++ made ∧
          Forall (fun c => is_CreateSigner c = true) made.
Proof.
  unfold getSupportedKinds. rewrite bind_run_run.
  assert (∃ r, (match truthy_string (evmPrivateKey this) with
                | Some _ =>
                    if (0 <? length (evmNetworks this))%nat
                    then lift (evm_kinds (evmNetworks this) [])
                    else lift (Normal [])
                | None => lift (Normal [])
                end) log = (r, log)) as [r ->].
  { destruct (truthy_string (evmPrivateKey this)); [|by eexists].
    destruct (0 <? length (evmNetworks this))%nat; by eexists. }
  destruct r as [kinds|e]; [|exists []; by rewrite app_nil_r].
  destruct (truthy_string (svmPrivateKey this)) as [key|];
    [|exists []; by rewrite app_nil_r].
  destruct (0 <? length (svmNetworks this))%nat;
    [apply svm_kinds_calls|exists []; by rewrite app_nil_r].
Qed.

End FacilitatorFacts.

Lemma route_cases (x : Facilitator.X402) (this : Facilitator.t)
    (req : Facilitator.HandlerRequest) (log : list Call) :
  (known_route req = false ∧
   Facilitator.route x this req log
     = (Normal {| Facilitator.status := 404;
                  Facilitator.response_body := error_body "Not Found" |}, log)) ∨
  (known_route req = true ∧
   ∃ r log', Facilitator.route x this req log = (r, log') ∧
             ((∃ b, r = Normal {| Facilitator.status := 200;
                                  Facilitator.response_body := b |}) ∨
              (∃ e, r = Throw e))).
Proof.
  unfold Facilitator.route, known_route.
  destruct (Facilitator.method req).
  - case_bool_decide; [right|by left]. split; [done|].
    rewrite FacilitatorFacts.bind_run_run.
    destruct (Facilitator.getSupportedKinds x this log) as [[kinds|e] log'];
      do 2 eexists; (split; [reflexivity|]);
      [left; by eexists|right; by eexists].
  - case_bool_decide; [right; split; [done|]|].
    { rewrite FacilitatorFacts.bind_run_run, FacilitatorFacts.lift_run.
      destruct (Facilitator.parseBody x (Facilitator.body req))
        as [[payload reqs]|e];
        [|do 2 eexists; (split; [reflexivity|]); right; by eexists].
      rewrite FacilitatorFacts.bind_run_run.
      destruct (Facilitator.getVerifyClient x this reqs log) as [[client|e] log1];
        [|do 2 eexists; (split; [reflexivity|]); right; by eexists].
      rewrite FacilitatorFacts.bind_run_run, FacilitatorFacts.call_run.
      destruct (Facilitator.verify x client payload reqs (Facilitator.x402Config this))
        as [valid|e];
        do 2 eexists; (split; [reflexivity|]);
        [left; by eexists|right; by eexists]. }
    case_bool_decide; [right; split; [done|]|by left].
    rewrite FacilitatorFacts.bind_run_run, FacilitatorFacts.lift_run.
    destruct (Facilitator.parseBody x (Facilitator.body req))
      as [[payload reqs]|e];
      [|do 2 eexists; (split; [reflexivity|]); right; by eexists].
    rewrite FacilitatorFacts.bind_run_run.
    destruct (Facilitator.getSettleSigner x this reqs log) as [[signer|e] log1];
      [|do 2 eexists; (split; [reflexivity|]); right; by eexists].
    rewrite FacilitatorFacts.bind_run_run, FacilitatorFacts.call_run.
    destruct (Facilitator.settle x signer payload reqs (Facilitator.x402Config this))
      as [response|e];
      do 2 eexists; (split; [reflexivity|]);
      [left; by eexists|right; by eexists].
Qed.


Lemma elem_of_Forall_CreateSigner (made : list Call) :
  Forall (fun c => is_CreateSigner c = true) made → Settle ∉ made.
Proof.
  intros Hall Hin. by apply (proj1 (Forall_forall _ _) Hall) in Hin.
Qed.

(** X26.  The x402 [settle] is reached on one path only: a [POST /settle]
    whose body parses, on a supported network for which the facilitator
    holds a private key (the EVM key on an EVM network, the SVM key on an
    SVM network), after [createSigner] returned a signer for that network
    and key.  No other request, and no settle without the key, gets to
    it. *)
Theorem settle_is_reached_only_with_a_configured_key
    (x : Facilitator.X402) (this : Facilitator.t)
    (req : Facilitator.HandlerRequest) :
  Settle ∈ exec (Facilitator.handleRequest x this req) [] →
  Facilitator.method req = Facilitator.POST ∧
  Facilitator.path req = "/settle" ∧
  ∃ payload reqs key signer,
    Facilitator.parseBody x (Facilitator.body req) = Normal (payload, reqs) ∧
    settlement_key x this (Facilitator.Requirements.network reqs) = Some key ∧
    Facilitator.createSigner x (Facilitator.Requirements.network reqs) key
      = Normal signer ∧
    exec (Facilitator.handleRequest x this req) []
      = [CreateSigner (Facilitator.Requirements.network reqs) key; Settle].
Proof.
  unfold exec, Facilitator.handleRequest, bind, Facilitator.route.
  destruct (Facilitator.method req).
  - case_bool_decide.
    + rewrite FacilitatorFacts.bind_run_run.
      destruct (FacilitatorFacts.getSupportedKinds_calls x this [])
        as (made & Hmade & Hall).
      destruct (Facilitator.getSupportedKinds x this []) as [[kinds|e] log'];
        simpl in *; subst log'; intros Hin;
        by apply elem_of_Forall_CreateSigner in Hin.
    + simpl. intros Hin. by apply elem_of_nil in Hin.
  - case_bool_decide.
    { rewrite FacilitatorFacts.bind_run_run, FacilitatorFacts.lift_run.
      destruct (Facilitator.parseBody x (Facilitator.body req))
        as [[payload reqs]|e]; [|intros Hin; by apply elem_of_nil in Hin].
      rewrite FacilitatorFacts.bind_run_run. unfold Facilitator.getVerifyClient.
      repeat case_bool_decide;
        repeat match goal with
               | |- context [truthy_string ?o] => destruct (truthy_string o)
               end;
        rewrite ?FacilitatorFacts.call_run, ?FacilitatorFacts.lift_run;
        repeat match goal with
               | |- context [Facilitator.createConnectedClient ?a ?b] =>
                   destruct (Facilitator.createConnectedClient a b)
               | |- context [Facilitator.createSigner ?a ?b ?c] =>
                   destruct (Facilitator.createSigner a b c)
               end;
        rewrite ?FacilitatorFacts.bind_run_run, ?FacilitatorFacts.call_run;
        repeat match goal with
               | |- context [Facilitator.verify ?a ?b ?c ?d ?e] =>
                   destruct (Facilitator.verify a b c d e)
               end;
        simpl; rewrite ?elem_of_cons, ?elem_of_nil; intros Hin;
        intuition discriminate. }
    case_bool_decide as Hpath; [|simpl; intros Hin; by apply elem_of_nil in Hin].
    intros Hin. split; [done|]. split; [done|]. revert Hin.
    rewrite FacilitatorFacts.bind_run_run, FacilitatorFacts.lift_run.
    destruct (Facilitator.parseBody x (Facilitator.body req))
      as [[payload reqs]|e]; [|intros Hin; by apply elem_of_nil in Hin].
    rewrite FacilitatorFacts.bind_run_run.
    unfold Facilitator.getSettleSigner.
    repeat case_bool_decide;
      repeat match goal with
             | |- context [truthy_string ?o] =>
                 destruct (truthy_string o) as [key|] eqn:?
             end;
      rewrite ?FacilitatorFacts.call_run, ?FacilitatorFacts.lift_run;
      try (simpl; rewrite ?elem_of_cons, ?elem_of_nil; intros Hin;
           exfalso; intuition discriminate);
      (destruct (Facilitator.createSigner x
                   (Facilitator.Requirements.network reqs) key)
         as [signer|e] eqn:Hsigner;
       [|simpl; rewrite ?elem_of_cons, ?elem_of_nil; intros Hin;
         exfalso; intuition discriminate]);
      rewrite FacilitatorFacts.bind_run_run, FacilitatorFacts.call_run;
      intros _; exists payload, reqs, key, signer;
      (split; [done|]);
      (split; [unfold settlement_key; repeat case_bool_decide; done|]);
      (split; [done|]);
      by destruct (Facilitator.settle x signer payload reqs
                     (Facilitator.x402Config this)).
Qed.

Lemma settle_is_reached_only_with_a_configured_key_witness :
  ∃ payload reqs key signer,
    Facilitator.parseBody mock_x402 payment_request = Normal (payload, reqs) ∧
    settlement_key mock_x402 (Facilitator.constructor evm_node_config)
      (Facilitator.Requirements.network reqs) = Some key ∧
    Facilitator.createSigner mock_x402 (Facilitator.Requirements.network reqs) key
      = Normal signer ∧
    exec (Facilitator.handleRequest mock_x402
            (Facilitator.constructor evm_node_config)
            (post_settle payment_request)) []
      = [CreateSigner (Facilitator.Requirements.network reqs) key; Settle].
Proof.
  refine (proj2 (proj2 (settle_is_reached_only_with_a_configured_key mock_x402
                          (Facilitator.constructor evm_node_config)
                          (post_settle payment_request) _))).
  vm_compute. apply list_elem_of_further, list_elem_of_here.
Defined.

(** X27.  A facilitator without an EVM private key still verifies payments
    on an EVM network -- through a connected client, no signer being
    created -- but refuses to settle them: 400 with
    [Missing evmPrivateKey for EVM settlement], before any call to the
    x402 library. *)
Theorem keyless_facilitator_verifies_but_does_not_settle
    (x : Facilitator.X402) (this : Facilitator.t) (body : jsvalue)
    (payload : json) (reqs : Facilitator.Requirements.t) (log : list Call) :
  let network := Facilitator.Requirements.network reqs in
  truthy_string (Facilitator.evmPrivateKey this) = None →
  Facilitator.parseBody x body = Normal (payload, reqs) →
  network ∈ Facilitator.SupportedEVMNetworks x →
  Facilitator.handleRequest x this (post_settle body) log
    = ({| Facilitator.status := 400;
          Facilitator.response_body :=
            Some (JObj [("error",
                         JStr "Missing evmPrivateKey for EVM settlement")]) |},
       log) ∧
  (∀ client valid,
      Facilitator.createConnectedClient x network = Normal client →
      Facilitator.verify x client payload reqs (Facilitator.x402Config this)
        = Normal valid →
      Facilitator.handleRequest x this (post_verify body) log
        = ({| Facilitator.status := 200;
              Facilitator.response_body := Some valid |},
           log ++ [CreateConnectedClient network; Verify])).
Proof.
  intros network Hkey Hparse Hevm. split.
  - unfold Facilitator.handleRequest, bind, Facilitator.route. simpl.
    rewrite FacilitatorFacts.bind_run_run, FacilitatorFacts.lift_run, Hparse.
    rewrite FacilitatorFacts.bind_run_run. unfold Facilitator.getSettleSigner.
    fold network. rewrite bool_decide_eq_true_2 by done. by rewrite Hkey.
  - intros client valid Hclient Hvalid.
    unfold Facilitator.handleRequest, bind, Facilitator.route. simpl.
    rewrite FacilitatorFacts.bind_run_run, FacilitatorFacts.lift_run, Hparse.
    rewrite FacilitatorFacts.bind_run_run. unfold Facilitator.getVerifyClient.
    fold network. rewrite bool_decide_eq_true_2 by done.
    rewrite FacilitatorFacts.call_run, Hclient.
    rewrite FacilitatorFacts.bind_run_run, FacilitatorFacts.call_run, Hvalid.
    simpl. by rewrite <- app_assoc.
Qed.

Lemma keyless_facilitator_verifies_but_does_not_settle_witness :
  Facilitator.handleRequest mock_x402 (Facilitator.constructor keyless_node_config)
    (post_settle payment_request) []
    = ({| Facilitator.status := 400;
          Facilitator.response_body :=
            Some (JObj [("error",
                         JStr "Missing evmPrivateKey for EVM settlement")]) |},
       []) ∧
  Facilitator.handleRequest mock_x402 (Facilitator.constructor keyless_node_config)
    (post_verify payment_request) []
    = ({| Facilitator.status := 200;
          Facilitator.response_body := Some (JBool true) |},
       [CreateConnectedClient "base-sepolia"; Verify]).
Proof.
  destruct (keyless_facilitator_verifies_but_does_not_settle mock_x402
              (Facilitator.constructor keyless_node_config) payment_request
              (JObj [("x402Version", JNum 1); ("scheme", JStr "exact");
                     ("network", JStr "base-sepolia")])
              {| Facilitator.Requirements.network := "base-sepolia";
                 Facilitator.Requirements.document :=
                   JObj [("scheme", JStr "exact");
                         ("network", JStr "base-sepolia")] |} [])
    as [Hsettle Hverify].
  - reflexivity.
  - reflexivity.
  - apply list_elem_of_here.
  - split; [exact Hsettle|].
    apply (Hverify (JObj []) (JBool true)); reflexivity.
Defined.

Lemma chain_networks_missing (chains : list Facilitator.Chain.t)
    (chain : Facilitator.Chain.t) :
  chain ∈ chains → truthy_string (Facilitator.Chain.network chain) = None →
  chain_networks chains = None.
Proof.
  intros Hin Hnone. induction chains as [|c rest IH].
  - by apply elem_of_nil in Hin.
  - simpl. apply elem_of_cons in Hin as [<-|Hin].
    + by rewrite Hnone.
    + rewrite (IH Hin). by destruct (truthy_string (Facilitator.Chain.network c)).
Qed.

Lemma supported_of_evm_node (x : Facilitator.X402) (this : Facilitator.t)
    (log : list Call) :
  truthy_string (Facilitator.svmPrivateKey this) = None →
  Facilitator.handleRequest x this get_supported log =
  (match truthy_string (Facilitator.evmPrivateKey this) with
   | None =>
       {| Facilitator.status := 200;
          Facilitator.response_body := Some (JObj [("kinds", JArr [])]) |}
   | Some _ =>
       match chain_networks (Facilitator.evmNetworks this) with
       | Some networks =>
           {| Facilitator.status := 200;
              Facilitator.response_body :=
                Some (JObj [("kinds", JArr (map Facilitator.evm_kind networks))]) |}
       | None =>
           {| Facilitator.status := 400;
              Facilitator.response_body :=
                error_body
                  "Provided viem Chain is missing the 'network' identifier" |}
       end
   end, log).
Proof.
  intros Hsvm.
  unfold Facilitator.handleRequest, bind, Facilitator.route. simpl.
  rewrite FacilitatorFacts.bind_run_run. unfold Facilitator.getSupportedKinds.
  rewrite FacilitatorFacts.bind_run_run, Hsvm.
  destruct (truthy_string (Facilitator.evmPrivateKey this)) as [key|]; [|done].
  destruct (Facilitator.evmNetworks this) as [|chain rest] eqn:E; [done|].
  cbn [length Nat.ltb Nat.leb]. rewrite FacilitatorFacts.lift_run.
  rewrite FacilitatorFacts.evm_kinds_spec.
  by destruct (chain_networks (chain :: rest)).
Qed.

(** X28.  What an EVM-only facilitator advertises.  With the chains taken
    from [evmNetworks], else from the older [networks], else none:
    without an EVM private key [GET /supported] answers 200 with no kinds,
    whatever the chains; with one, it answers 200 with one [exact] kind
    per chain, in order -- unless some chain has no [network] identifier,
    and then the whole request is answered 400.  No case calls the x402
    library. *)
Theorem supported_kinds_of_an_evm_node
    (x : Facilitator.X402) (config : Facilitator.FacilitatorConfig.t)
    (log : list Call) :
  let chains :=
    match Facilitator.FacilitatorConfig.evmNetworks config with
    | Some chains => chains
    | None => default [] (Facilitator.FacilitatorConfig.networks config)
    end in
  let answer :=
    Facilitator.handleRequest x (Facilitator.constructor config) get_supported log in
  truthy_string (Facilitator.FacilitatorConfig.svmPrivateKey config) = None →
  (truthy_string (Facilitator.FacilitatorConfig.evmPrivateKey config) = None →
   answer = ({| Facilitator.status := 200;
                Facilitator.response_body := Some (JObj [("kinds", JArr [])]) |},
             log)) ∧
  (∀ key networks,
      truthy_string (Facilitator.FacilitatorConfig.evmPrivateKey config) = Some key →
      chain_networks chains = Some networks →
      answer = ({| Facilitator.status := 200;
                   Facilitator.response_body :=
                     Some (JObj [("kinds",
                                  JArr (map Facilitator.evm_kind networks))]) |},
                log)) ∧
  (∀ key chain,
      truthy_string (Facilitator.FacilitatorConfig.evmPrivateKey config) = Some key →
      chain ∈ chains →
      truthy_string (Facilitator.Chain.network chain) = None →
      answer = ({| Facilitator.status := 400;
                   Facilitator.response_body :=
                     Some (JObj [("error",
                                  JStr "Provided viem Chain is missing the 'network' identifier")]) |},
                log)).
Proof.
  intros chains answer Hsvm. subst answer.
  rewrite supported_of_evm_node by done. simpl. fold chains.
  split; [by intros ->|]. split.
  - intros key networks -> ->. done.
  - intros key chain -> Hin Hnone.
    by rewrite (chain_networks_missing chains chain Hin Hnone).
Qed.

Lemma supported_kinds_of_an_evm_node_witness :
  Facilitator.handleRequest mock_x402 (Facilitator.constructor evm_node_config)
    get_supported []
    = ({| Facilitator.status := 200;
          Facilitator.response_body :=
            Some (JObj [("kinds", JArr [Facilitator.evm_kind "base-sepolia"])]) |},
       []).
Proof.
  apply (proj1 (proj2 (supported_kinds_of_an_evm_node mock_x402 evm_node_config []
                         eq_refl)) "0xabc" ["base-sepolia"]); reflexivity.
Defined.

(** X29.  What an SVM-only facilitator advertises.  Its networks are those
    configured, or [solana-devnet] when none is; the ones x402 does not
    support are passed over in silence.  For each of the others, in order,
    one signer is created with the SVM private key and one [exact] kind is
    advertised, with the signer's address as fee payer when the signer is
    an SVM wallet. *)
Theorem supported_kinds_of_an_svm_node
    (x : Facilitator.X402) (config : Facilitator.FacilitatorConfig.t)
    (key : string) (signer : string → json) (log : list Call) :
  let configured :=
    default ["solana-devnet"] (Facilitator.FacilitatorConfig.svmNetworks config) in
  let supported :=
    filter (fun n => n ∈ Facilitator.SupportedSVMNetworks x) configured in
  truthy_string (Facilitator.FacilitatorConfig.evmPrivateKey config) = None →
  truthy_string (Facilitator.FacilitatorConfig.svmPrivateKey config) = Some key →
  (∀ n, n ∈ supported → Facilitator.createSigner x n key = Normal (signer n)) →
  Facilitator.handleRequest x (Facilitator.constructor config) get_supported log
    = ({| Facilitator.status := 200;
          Facilitator.response_body :=
            Some (JObj [("kinds",
                         JArr (map (fun n =>
                                      Facilitator.svm_kind n (fee_payer x (signer n)))
                                   supported))]) |},
       log ++ map (fun n => CreateSigner n key) supported).
Proof.
  intros configured supported Hevm Hsvm Hsign.
  assert (Facilitator.svmNetworks (Facilitator.constructor config) = configured)
    as Hnet.
  { simpl. rewrite Hsvm. subst configured.
    by destruct (Facilitator.FacilitatorConfig.svmNetworks config). }
  unfold Facilitator.handleRequest, bind, Facilitator.route.
  cbn [Facilitator.method Facilitator.path get_supported].
  rewrite bool_decide_eq_true_2 by done.
  rewrite FacilitatorFacts.bind_run_run. unfold Facilitator.getSupportedKinds.
  rewrite FacilitatorFacts.bind_run_run.
  cbn [Facilitator.evmPrivateKey Facilitator.svmPrivateKey Facilitator.constructor].
  rewrite Hevm, Hsvm, FacilitatorFacts.lift_run. rewrite Hnet.
  destruct configured as [|n0 rest] eqn:E.
  - simpl. by rewrite app_nil_r.
  - cbn [length Nat.ltb Nat.leb].
    rewrite (FacilitatorFacts.svm_kinds_spec x key signer (n0 :: rest) [] log).
    + done.
    + intros n Hn Hs. apply Hsign. subst supported.
      apply list_elem_of_filter. by split.
Qed.

Lemma supported_kinds_of_an_svm_node_witness :
  Facilitator.handleRequest mock_x402 (Facilitator.constructor svm_node_config)
    get_supported []
    = ({| Facilitator.status := 200;
          Facilitator.response_body :=
            Some (JObj [("kinds",
                         JArr [Facilitator.svm_kind "solana-devnet"
                                 (Some (JStr "signer-solana-devnet"))])]) |},
       [CreateSigner "solana-devnet" "svm-key"]).
Proof.
  apply (supported_kinds_of_an_svm_node mock_x402 svm_node_config "svm-key"
           (fun n => JObj [("address", JStr ("signer-" +:+ n))]) []).
  - reflexivity.
  - reflexivity.
  - intros n _. reflexivity.
Defined.

(** * The handlers on bodies as they arrive *)

Module RawFacts.

Lemma raw_peers_run (w : Raw.World) (options : GatewayOptions) (g : Gateway) :
  Raw.peers w options g
    = (eval (PeerRegistry.getActivePeers (httpPeers options) (Raw.Date_now w 0))
            (registry g), g).
Proof. apply (GatewayFacts.peers_run (env_of w)). Qed.

Lemma verify_order_env (w : Raw.World) (active : list string) :
  Raw.verify_order w active = verify_order (env_of w) active.
Proof. reflexivity. Qed.

Lemma settle_order_env (w : Raw.World) (active : list string)
    (stickyPeer : option string) :
  Raw.settle_order w active stickyPeer = settle_order (env_of w) active stickyPeer.
Proof. reflexivity. Qed.

(** Normalising the body leaves the payer where it is. *)
Lemma getPayerFromBody_normalize (b : Raw.ForwardBody) :
  Raw.getPayerFromBody (Raw.normalizeForwardBody b) = Raw.getPayerFromBody b.
Proof.
  unfold Raw.normalizeForwardBody.
  destruct (Raw.paymentPayload b) as [pp|] eqn:Epp;
    destruct (Raw.paymentRequirements b) as [reqs|] eqn:Ereqs; try done;
    destruct (truthy_string (Raw.paymentHeader b)) as [h|] eqn:Eh; try done.
  unfold Raw.getPayerFromBody. by rewrite Epp.
Qed.

Lemma payer_is_string_or_absent_normalize (b : Raw.ForwardBody) :
  payer_is_string_or_absent (Raw.normalizeForwardBody b)
    = payer_is_string_or_absent b.
Proof. unfold payer_is_string_or_absent. by rewrite getPayerFromBody_normalize. Qed.

(** The lookup throws exactly on a payer that is neither a string nor
    absent, and never writes. *)
Lemma getPreferredPeer_run (fb : Raw.ForwardBody) (now : Z) (s : StickyRouter.t) :
  if payer_is_string_or_absent fb
  then ∃ stickyPeer, Raw.getPreferredPeer fb now s = (Normal stickyPeer, s)
  else ∃ t, Raw.getPreferredPeer fb now s = (Throw t, s).
Proof.
  unfold payer_is_string_or_absent, Raw.getPreferredPeer, Raw.lowered_payer,
    bind, get, ret.
  destruct (Raw.getPayerFromBody fb) as [[| | | | |]|]; simpl;
    try (by eexists);
    match goal with
    | |- context [StickyRouter.live now ?e] =>
        destruct (StickyRouter.live now e); by eexists
    end.
Qed.

(** A recording that throws has written nothing. *)
Lemma recordSelection_run (peer : string) (fb : Raw.ForwardBody) (resp : jsvalue)
    (now : Z) (s : StickyRouter.t) :
  (∃ s', Raw.recordSelection peer fb resp now s = (Normal tt, s')) ∨
  (∃ t, Raw.recordSelection peer fb resp now s = (Throw t, s)).
Proof.
  assert (∀ e s0, ∃ s', Raw.record_header e fb s0 = (Normal tt, s')) as Hheader.
  { intros e s0. unfold Raw.record_header.
    destruct (truthy_string (Raw.getHeaderFromBody fb)); by eexists. }
  unfold Raw.recordSelection.
  destruct (match getPayerFromVerifyResponse resp with
            | Some p => Some (JStr p)
            | None => Raw.getPayerFromBody fb
            end) as [v|]; [|left; apply Hheader].
  destruct (Raw.truthy (Some v)); [|left; apply Hheader].
  destruct v; simpl; try (right; by eexists).
  left. unfold bind, modify. apply Hheader.
Qed.

(** [POST /verify], unfolded up to its loop. *)
Lemma raw_verify_run (w : Raw.World) (options : GatewayOptions)
    (reqBody : Raw.ForwardBody) (g : Gateway) :
  let active := eval (Raw.peers w options) g in
  Raw.verify w options reqBody g =
  if bool_decide (active = []) then
    ((Respond 503 (error_body "No peers configured"), []), g)
  else
    match Raw.verify_order w active with
    | Some order =>
        let '(res, s) :=
          Raw.verify_loop w (Raw.normalizeForwardBody reqBody) order None []
            (sticky g) in
        (res, {| sticky := s; registry := registry g |})
    | None =>
        ((Respond 500 (internal_error_body undefined_replace_message), []), g)
    end.
Proof.
  intros active. subst active. unfold Raw.verify, bind, eval.
  rewrite raw_peers_run. simpl. rewrite GatewayFacts.length_eqb_0.
  case_bool_decide; [done|].
  destruct (Raw.verify_order w _); [|done].
  unfold zoom_sticky. simpl. done.
Qed.

(** [POST /settle], unfolded up to its loop. *)
Lemma raw_settle_run (w : Raw.World) (options : GatewayOptions)
    (reqBody : Raw.ForwardBody) (g : Gateway) :
  let active := eval (Raw.peers w options) g in
  let fb := Raw.normalizeForwardBody reqBody in
  Raw.settle w options reqBody g =
  if bool_decide (active = []) then
    ((Respond 503 (settle_error_body "No peers configured"), []), g)
  else
    match eval (Raw.getPreferredPeer fb (Raw.Date_now w 0)) (sticky g) with
    | Throw _ => ((Uncaught, []), g)
    | Normal stickyPeer =>
        match Raw.settle_order w active stickyPeer with
        | Some order => (Raw.settle_loop w fb order [], g)
        | None => ((Uncaught, []), g)
        end
    end.
Proof.
  intros active fb. subst active fb. unfold Raw.settle, bind, eval.
  rewrite raw_peers_run. simpl. rewrite GatewayFacts.length_eqb_0.
  case_bool_decide; [done|].
  unfold zoom_sticky.
  pose proof (getPreferredPeer_run (Raw.normalizeForwardBody reqBody)
                (Raw.Date_now w 0) (sticky g)) as Hrun.
  destruct (payer_is_string_or_absent (Raw.normalizeForwardBody reqBody));
    destruct Hrun as [x ->]; simpl.
  - destruct (Raw.settle_order w _ x); by destruct g.
  - by destruct g.
Qed.

(** The calls of the verify loop are those to a prefix of the order, and
    its answer is what it started with or what one of the peers so called
    returned. *)
Lemma verify_loop_answer (w : Raw.World) (fb : Raw.ForwardBody)
    (order : list string) (lastError : option PeerResponse)
    (calls : list string) (s : StickyRouter.t) :
  ∃ k,
    (k ≤ length order)%nat ∧
    snd (eval (Raw.verify_loop w fb order lastError calls) s)
      = calls ++ call_urls "/verify" (take k order) ∧
    (fst (eval (Raw.verify_loop w fb order lastError calls) s)
       = match lastError with
         | Some e => Respond (status e) (body e)
         | None => Respond 503 (error_body "Verification unavailable")
         end ∨
     ∃ r, Returned r ∈ raw_call_outcomes w fb "/verify" VERIFY_TIMEOUT calls
                         (take k order) ∧
          fst (eval (Raw.verify_loop w fb order lastError calls) s)
            = Respond (status r) (body r)).
Proof.
  revert lastError calls s.
  induction order as [|base order IH]; intros lastError calls s.
  - exists 0%nat. split; [done|]. simpl. rewrite app_nil_r.
    split; [by destruct lastError|]. left. by destruct lastError.
  - assert (∀ lastError' s',
              (lastError' = lastError ∨
               ∃ r, lastError' = Some r ∧
                    Raw.postJson w calls (normalizeUrl base +:+ "/verify") fb
                      VERIFY_TIMEOUT = Returned r) →
              ∃ k,
                (k ≤ length (base :: order))%nat ∧
                snd (eval (Raw.verify_loop w fb order lastError'
                             (calls ++ [normalizeUrl base +:+ "/verify"])) s')
                  = calls ++ call_urls "/verify" (take k (base :: order)) ∧
                (fst (eval (Raw.verify_loop w fb order lastError'
                              (calls ++ [normalizeUrl base +:+ "/verify"])) s')
                   = match lastError with
                     | Some e => Respond (status e) (body e)
                     | None => Respond 503 (error_body "Verification unavailable")
                     end ∨
                 ∃ r, Returned r
                        ∈ raw_call_outcomes w fb "/verify" VERIFY_TIMEOUT calls
                            (take k (base :: order)) ∧
                      fst (eval (Raw.verify_loop w fb order lastError'
                                   (calls ++ [normalizeUrl base +:+ "/verify"])) s')
                        = Respond (status r) (body r))) as Hnext.
    { intros lastError' s' Hlast.
      destruct (IH lastError' (calls ++ [normalizeUrl base +:+ "/verify"]) s')
        as (k & Hk & Hcalls & Hanswer).
      exists (S k). split; [simpl; lia|]. split.
      { rewrite Hcalls. simpl take. rewrite GatewayFacts.call_urls_cons.
        by rewrite <- app_assoc. }
      simpl take. simpl raw_call_outcomes.
      destruct Hanswer as [Hleft|(r & Hin & Hres)].
      - destruct Hlast as [->|(r & -> & Hcall)]; [by left|].
        right. exists r. split; [rewrite Hcall; apply list_elem_of_here|done].
      - right. exists r. split; [by apply list_elem_of_further|done]. }
    simpl Raw.verify_loop.
    destruct (Raw.postJson w calls (normalizeUrl base +:+ "/verify") fb
                VERIFY_TIMEOUT) as [|r] eqn:Hcall.
    + apply Hnext. by left.
    + case_bool_decide as Hok.
      * unfold eval at 1 2 3. unfold bind.
        destruct (recordSelection_run base fb (body r)
                    (Raw.Date_now w (S (length calls))) s)
          as [[s' ->]|[t ->]].
        -- exists 1%nat. split; [simpl; lia|]. split; [done|].
           right. exists r. simpl. rewrite Hcall.
           split; [apply list_elem_of_here|by rewrite Hok].
        -- apply (Hnext lastError s). by left.
      * apply Hnext. right. by exists r.
Qed.

(** The settle loop, at its first success. *)
Lemma raw_settle_loop_first_success (w : Raw.World) (fb : Raw.ForwardBody)
    (pre : list string) (base : string) (post calls : list string)
    (r : PeerResponse) :
  Forall (fun o => is_success o = false)
         (raw_call_outcomes w fb "/settle" SETTLE_TIMEOUT calls pre) →
  Raw.postJson w (calls ++ call_urls "/settle" pre)
    (normalizeUrl base +:+ "/settle") fb SETTLE_TIMEOUT = Returned r →
  status r = 200 →
  Raw.settle_loop w fb (pre ++ base :: post) calls
    = (Respond 200 (body r), calls ++ call_urls "/settle" (pre ++ [base])).
Proof.
  revert calls. induction pre as [|b pre IH]; intros calls Hfail Hcall Hok.
  - simpl in *. rewrite app_nil_r in Hcall.
    by rewrite Hcall, bool_decide_eq_true_2.
  - simpl in Hfail. apply Forall_cons in Hfail as [Hhd Htl].
    rewrite GatewayFacts.call_urls_cons, cons_middle, app_assoc in Hcall.
    simpl.
    destruct (Raw.postJson w calls (normalizeUrl b +:+ "/settle") fb SETTLE_TIMEOUT)
      as [|r'] eqn:Hcall'; simpl in Hhd.
    + rewrite (IH _ Htl Hcall Hok). by rewrite <- app_assoc.
    + rewrite Hhd, (IH _ Htl Hcall Hok). by rewrite <- app_assoc.
Qed.

Lemma settle_loop_responds (w : Raw.World) (fb : Raw.ForwardBody)
    (order calls : list string) :
  ∃ st b, fst (Raw.settle_loop w fb order calls) = Respond st b.
Proof.
  revert calls. induction order as [|peer order IH]; intros calls.
  - by do 2 eexists.
  - simpl.
    destruct (Raw.postJson w calls (normalizeUrl peer +:+ "/settle") fb
                SETTLE_TIMEOUT) as [|r]; [apply IH|].
    case_bool_decide; [by do 2 eexists|apply IH].
Qed.

(** *** Bodies of the declared type

    On a body whose payer is a string or missing, nothing throws, and the
    handlers are those of the first part. *)

Lemma getHeaderFromBody_of_typed (b : ForwardBody) :
  Raw.getHeaderFromBody (of_typed b) = getHeaderFromBody b.
Proof.
  unfold Raw.getHeaderFromBody, getHeaderFromBody. simpl.
  destruct (truthy_string (paymentHeader b)); [done|].
  destruct (paymentPayload b) as [pp|]; [|done]. simpl.
  destruct (truthy_string (header pp)); [done|].
  by destruct (payload pp).
Qed.

Lemma getPayerFromBody_of_typed (b : ForwardBody) :
  Raw.getPayerFromBody (of_typed b) = JStr <$> getPayerFromBody b.
Proof.
  unfold Raw.getPayerFromBody, getPayerFromBody. simpl.
  destruct (paymentPayload b) as [pp|]; [|done]. simpl.
  destruct (payload pp) as [pl|]; [|done]. simpl.
  by destruct (authorization pl).
Qed.

Lemma normalizeForwardBody_of_typed (b : ForwardBody) :
  Raw.normalizeForwardBody (of_typed b) = of_typed (normalizeForwardBody b).
Proof.
  unfold Raw.normalizeForwardBody, normalizeForwardBody. simpl.
  destruct (paymentPayload b) as [pp|], (paymentRequirements b) as [reqs|];
    simpl; try done;
    by destruct (truthy_string (paymentHeader b)).
Qed.

Lemma recordSelection_of_typed (peer : string) (b : ForwardBody) (resp : jsvalue)
    (now : Z) (s : StickyRouter.t) :
  Raw.recordSelection peer (of_typed b) resp now s
    = (Normal tt, exec (StickyRouter.recordSelection peer b resp now) s).
Proof.
  assert (∀ e s0,
            Raw.record_header e (of_typed b) s0
            = (Normal tt,
               match truthy_string (getHeaderFromBody b) with
               | Some k => StickyRouter.set_byHeader k e s0
               | None => s0
               end)) as Hheader.
  { intros e s0. unfold Raw.record_header.
    rewrite getHeaderFromBody_of_typed.
    by destruct (truthy_string (getHeaderFromBody b)). }
  unfold Raw.recordSelection, StickyRouter.recordSelection.
  rewrite getPayerFromBody_of_typed.
  destruct (getPayerFromVerifyResponse resp) as [p|] eqn:Eresp.
  - simpl. destruct (decide (p = EmptyString)) as [E|E].
    + rewrite bool_decide_eq_true_2 by done. simpl. rewrite Hheader.
      unfold exec, bind, ret, modify. simpl.
      by destruct (truthy_string (getHeaderFromBody b)).
    + rewrite bool_decide_eq_false_2 by done. simpl.
      unfold bind, modify. rewrite Hheader.
      unfold exec, bind, ret, modify. simpl.
      by destruct (truthy_string (getHeaderFromBody b)).
  - destruct (getPayerFromBody b) as [p|]; simpl.
    + destruct (decide (p = EmptyString)) as [E|E].
      * rewrite bool_decide_eq_true_2 by done. simpl. rewrite Hheader.
        unfold exec, bind, ret, modify. simpl.
        by destruct (truthy_string (getHeaderFromBody b)).
      * rewrite bool_decide_eq_false_2 by done. simpl.
        unfold bind, modify. rewrite Hheader.
        unfold exec, bind, ret, modify. simpl.
        by destruct (truthy_string (getHeaderFromBody b)).
    + rewrite Hheader. unfold exec, bind, ret, modify. simpl.
      by destruct (truthy_string (getHeaderFromBody b)).
Qed.

Lemma getPreferredPeer_of_typed (b : ForwardBody) (now : Z) (s : StickyRouter.t) :
  Raw.getPreferredPeer (of_typed b) now s
    = (Normal (eval (StickyRouter.getPreferredPeer b now) s), s).
Proof.
  rewrite StickyFacts.getPreferredPeer_eval.
  unfold Raw.getPreferredPeer, Raw.lowered_payer, bind, get, ret.
  rewrite getPayerFromBody_of_typed, getHeaderFromBody_of_typed.
  unfold StickyRouter.byPayer_entry, StickyRouter.byHeader_entry.
  destruct (getPayerFromBody b) as [p|]; simpl;
    match goal with
    | |- context [StickyRouter.live now ?e] =>
        by destruct (StickyRouter.live now e)
    end.
Qed.

Lemma getPreferredPeer_of_typed_eval (b : ForwardBody) (now : Z)
    (s : StickyRouter.t) :
  eval (Raw.getPreferredPeer (of_typed b) now) s
    = Normal (eval (StickyRouter.getPreferredPeer b now) s).
Proof. unfold eval at 1. by rewrite getPreferredPeer_of_typed. Qed.

Lemma verify_loop_of_typed (w : Raw.World) (fb : ForwardBody)
    (order : list string) (lastError : option PeerResponse)
    (calls : list string) (s : StickyRouter.t) :
  Raw.verify_loop w (of_typed fb) order lastError calls s
    = verify_loop (typed_world w) fb order lastError calls s.
Proof.
  revert lastError calls.
  induction order as [|base order IH]; intros lastError calls; [done|].
  simpl.
  destruct (Raw.postJson w calls (normalizeUrl base +:+ "/verify") (of_typed fb)
              VERIFY_TIMEOUT) as [|r]; [apply IH|].
  case_bool_decide; [|apply IH].
  unfold bind. rewrite recordSelection_of_typed. unfold exec.
  by destruct (StickyRouter.recordSelection base fb (body r)
                 (Raw.Date_now w (S (length calls))) s) as [[] s'].
Qed.

Lemma settle_loop_of_typed (w : Raw.World) (fb : ForwardBody)
    (order calls : list string) :
  Raw.settle_loop w (of_typed fb) order calls
    = settle_loop (typed_world w) fb order calls.
Proof.
  revert calls. induction order as [|peer order IH]; intros calls; [done|].
  simpl.
  destruct (Raw.postJson w calls (normalizeUrl peer +:+ "/settle") (of_typed fb)
              SETTLE_TIMEOUT) as [|r]; [apply IH|].
  case_bool_decide; [done|apply IH].
Qed.

(** On a body of the declared type the verify handler is [verify]. *)
Lemma verify_of_typed (w : Raw.World) (options : GatewayOptions)
    (reqBody : ForwardBody) (g : Gateway) :
  Raw.verify w options (of_typed reqBody) g
    = verify (typed_world w) options reqBody g.
Proof.
  rewrite raw_verify_run, GatewayFacts.verify_run. cbv zeta.
  change (eval (Raw.peers w options) g)
    with (eval (peers (typed_world w) options) g).
  case_bool_decide; [done|].
  change (Raw.verify_order w (eval (peers (typed_world w) options) g))
    with (verify_order (typed_world w) (eval (peers (typed_world w) options) g)).
  destruct (verify_order (typed_world w) _); [|done].
  by rewrite normalizeForwardBody_of_typed, verify_loop_of_typed.
Qed.

(** On a body of the declared type the settle handler is [settle]. *)
Lemma settle_of_typed (w : Raw.World) (options : GatewayOptions)
    (reqBody : ForwardBody) (g : Gateway) :
  Raw.settle w options (of_typed reqBody) g
    = settle (typed_world w) options reqBody g.
Proof.
  rewrite raw_settle_run, GatewayFacts.settle_run. cbv zeta.
  change (eval (Raw.peers w options) g)
    with (eval (peers (typed_world w) options) g).
  case_bool_decide; [done|].
  rewrite normalizeForwardBody_of_typed, getPreferredPeer_of_typed_eval.
  change (Raw.Date_now w 0) with (Date_now (typed_world w) 0).
  set (sp := eval (StickyRouter.getPreferredPeer _ _) (sticky g)).
  change (Raw.settle_order w (eval (peers (typed_world w) options) g) sp)
    with (settle_order (typed_world w)
            (eval (peers (typed_world w) options) g) sp).
  destruct (settle_order (typed_world w) _ sp); [|done].
  by rewrite settle_loop_of_typed.
Qed.

End RawFacts.

(** C1.  The verify handler run on a request whose
    [paymentPayload.payload.authorization.from] is the number 5, with the
    static peers [http://a] and [http://b]: [a] is called first and returns
    200, its body naming no payer; recording the selection throws at
    [payer.toLowerCase()]; the handler goes on to call [b] and answers [b]'s
    402, and nothing is recorded.  With the string ["0xabc"] in the place of
    5 the same request is answered with [a]'s 200 after the one call. *)
Theorem verify_success_is_lost_on_an_ill_typed_payer :
  Raw.verify_order raw_world_a_verifies ["http://a"; "http://b"]
    = Some ["http://a"; "http://b"] ∧
  Raw.postJson raw_world_a_verifies [] "http://a/verify"
    (Raw.normalizeForwardBody body_with_numeric_payer) VERIFY_TIMEOUT
    = Returned {| status := 200; body := valid_without_payer |} ∧
  Raw.verify raw_world_a_verifies two_static_peers body_with_numeric_payer
    fresh_gateway
    = ((Respond 402 (body payment_required),
        ["http://a/verify"; "http://b/verify"]),
       fresh_gateway) ∧
  eval (Raw.verify raw_world_a_verifies two_static_peers
          (raw_body (JStr "0xabc"))) fresh_gateway
    = (Respond 200 valid_without_payer, ["http://a/verify"]).
Proof. vm_compute. by repeat split. Qed.

(** C5.  The settle handler run on a request whose
    [paymentPayload.payload.authorization.from] is the number 5, with the
    static peers [http://a] and [http://b], both of which would answer 402:
    [sticky.getPreferredPeer] throws at [toLowerCase] outside any [try], no
    peer is called, and the handler ends with the exception instead of a
    503.  With the string ["0xabc"] in the place of 5 both peers are called
    and the answer is the 503 [Settle unavailable]. *)
Theorem settle_escapes_on_an_ill_typed_payer :
  eval (Raw.peers raw_world_a_verifies two_static_peers) fresh_gateway
    = ["http://a"; "http://b"] ∧
  Raw.settle raw_world_a_verifies two_static_peers body_with_numeric_payer
    fresh_gateway
    = ((Uncaught, []), fresh_gateway) ∧
  Raw.settle raw_world_a_verifies two_static_peers (raw_body (JStr "0xabc"))
    fresh_gateway
    = ((Respond 503 (settle_error_body "Settle unavailable"),
        ["http://a/settle"; "http://b/settle"]),
       fresh_gateway).
Proof. vm_compute. by repeat split. Qed.

(** X11.  Verify never makes an answer up, whatever the request body.  It
    answers 503 [No peers configured] without a call; or it has called the
    first [k] peers of its fallback order, in order, and answers 503
    [Verification unavailable] or the status and body, unchanged, of a
    response that one of those [k] peers returned.  In particular a 200
    always comes from a peer that was called. *)
Theorem verify_answer_is_genuine
    (w : Raw.World) (options : GatewayOptions) (reqBody : Raw.ForwardBody)
    (g : Gateway) :
  let active := eval (Raw.peers w options) g in
  let fb := Raw.normalizeForwardBody reqBody in
  let answer := fst (eval (Raw.verify w options reqBody) g) in
  let calls := snd (eval (Raw.verify w options reqBody) g) in
  (answer = Respond 503 (Some (JObj [("error", JStr "No peers configured")])) ∧
   calls = []) ∨
  ∃ order k,
    Raw.verify_order w active = Some order ∧
    (k ≤ length order)%nat ∧
    calls = call_urls "/verify" (take k order) ∧
    (answer
       = Respond 503 (Some (JObj [("error", JStr "Verification unavailable")])) ∨
     ∃ r,
       Returned r
         ∈ raw_call_outcomes w fb "/verify" VERIFY_TIMEOUT [] (take k order) ∧
       answer = Respond (status r) (body r)).
Proof.
  intros active fb answer calls. subst answer calls. unfold eval.
  rewrite RawFacts.raw_verify_run. fold active fb.
  case_bool_decide as Hne; [by left|right].
  destruct (fallback_order_exists (env_of w) active Hne) as [order Horder].
  rewrite RawFacts.verify_order_env, Horder.
  destruct (RawFacts.verify_loop_answer w fb order None [] (sticky g))
    as (k & Hk & Hcalls & Hanswer).
  unfold eval in Hcalls, Hanswer.
  destruct (Raw.verify_loop w fb order None [] (sticky g)) as [[res calls] s'].
  simpl in *. by exists order, k.
Qed.

(** X13.  A settle whose body carries a string as payer, or no payer, and
    that finds active peers, stops at the first peer of its fallback order
    whose call returns status 200 (every peer before it having thrown or
    returned another status): it answers 200 with that peer's body,
    unchanged, has called the peers up to that one in order, calls no later
    peer and leaves the gateway state as it was. *)
Theorem settle_first_success_wins
    (w : Raw.World) (options : GatewayOptions) (reqBody : Raw.ForwardBody)
    (g : Gateway) :
  let active := eval (Raw.peers w options) g in
  let fb := Raw.normalizeForwardBody reqBody in
  payer_is_string_or_absent reqBody = true →
  active ≠ [] →
  ∃ stickyPeer order,
    eval (Raw.getPreferredPeer fb (Raw.Date_now w 0)) (sticky g)
      = Normal stickyPeer ∧
    Raw.settle_order w active stickyPeer = Some order ∧
    ∀ pre base post r,
      order = pre ++ base :: post →
      Forall (fun o => is_success o = false)
             (raw_call_outcomes w fb "/settle" SETTLE_TIMEOUT [] pre) →
      Raw.postJson w (call_urls "/settle" pre) (normalizeUrl base +:+ "/settle")
        fb SETTLE_TIMEOUT = Returned r →
      status r = 200 →
      Raw.settle w options reqBody g
        = ((Respond 200 (body r), call_urls "/settle" (pre ++ [base])), g).
Proof.
  intros active fb Hpayer Hne.
  pose proof (RawFacts.getPreferredPeer_run fb (Raw.Date_now w 0) (sticky g))
    as Hrun.
  unfold fb in Hrun at 1.
  rewrite RawFacts.payer_is_string_or_absent_normalize, Hpayer in Hrun.
  destruct Hrun as [stickyPeer Hrun].
  destruct (settle_order_exists (env_of w) active stickyPeer Hne)
    as [order Horder].
  exists stickyPeer, order.
  split; [unfold eval; by rewrite Hrun|]. split; [done|].
  intros pre base post r -> Hfail Hcall Hok.
  rewrite RawFacts.raw_settle_run. fold active fb.
  rewrite (bool_decide_eq_false_2 _ Hne). unfold eval. rewrite Hrun. simpl.
  rewrite RawFacts.settle_order_env, Horder.
  by rewrite (RawFacts.raw_settle_loop_first_success w fb pre base post [] r
                Hfail Hcall Hok).
Qed.

Lemma settle_first_success_wins_witness :
  Raw.settle raw_world_b_settles two_static_peers (raw_body (JStr "0xabc"))
    fresh_gateway
    = ((Respond 200 settle_ok_body, ["http://a/settle"; "http://b/settle"]),
       fresh_gateway).
Proof.
  destruct (settle_first_success_wins raw_world_b_settles two_static_peers
              (raw_body (JStr "0xabc")) fresh_gateway)
    as (stickyPeer & order & Hsticky & Horder & H).
  { reflexivity. }
  { vm_compute. discriminate. }
  vm_compute in Hsticky. injection Hsticky as <-.
  vm_compute in Horder. injection Horder as <-.
  apply (H ["http://a"] "http://b" [] {| status := 200; body := settle_ok_body |}).
  - reflexivity.
  - repeat constructor.
  - reflexivity.
  - reflexivity.
Defined.

(** X30.  Which requests get an answer.  Verify answers every request,
    whatever its body and whatever the peers do: what [recordSelection]
    throws is caught in the loop.  Settle answers when there is no active
    peer, and when the payer in the body is a string or absent.  When the
    payer is anything else -- a number, a boolean, an array, an object --
    and there are active peers, settle ends with the exception that
    [getPreferredPeer] throws: no peer is called, nothing is answered and
    the gateway state is as it was. *)
Theorem settle_escapes_exactly_on_an_ill_typed_payer
    (w : Raw.World) (options : GatewayOptions) (reqBody : Raw.ForwardBody)
    (g : Gateway) :
  let active := eval (Raw.peers w options) g in
  (∃ st b, fst (eval (Raw.verify w options reqBody) g) = Respond st b) ∧
  (active = [] ∨ payer_is_string_or_absent reqBody = true →
   ∃ st b, fst (eval (Raw.settle w options reqBody) g) = Respond st b) ∧
  (active ≠ [] → payer_is_string_or_absent reqBody = false →
   Raw.settle w options reqBody g = ((Uncaught, []), g)).
Proof.
  intros active. split; [|split].
  - unfold eval. rewrite RawFacts.raw_verify_run. fold active.
    case_bool_decide as Hne; [by do 2 eexists|].
    destruct (Raw.verify_order w active) as [order|]; [|by do 2 eexists].
    destruct (RawFacts.verify_loop_answer w (Raw.normalizeForwardBody reqBody)
                order None [] (sticky g)) as (k & _ & _ & Hanswer).
    unfold eval in Hanswer.
    destruct (Raw.verify_loop w (Raw.normalizeForwardBody reqBody) order None []
                (sticky g)) as [[res calls] s'].
    simpl in *. destruct Hanswer as [->|(r & _ & ->)]; by do 2 eexists.
  - intros Hcase. unfold eval. rewrite RawFacts.raw_settle_run. fold active.
    case_bool_decide as Hne; [by do 2 eexists|].
    destruct Hcase as [?|Hpayer]; [done|].
    pose proof (RawFacts.getPreferredPeer_run (Raw.normalizeForwardBody reqBody)
                  (Raw.Date_now w 0) (sticky g)) as Hrun.
    rewrite RawFacts.payer_is_string_or_absent_normalize, Hpayer in Hrun.
    destruct Hrun as [stickyPeer Hrun]. unfold eval. rewrite Hrun. simpl.
    destruct (settle_order_exists (env_of w) active stickyPeer Hne)
      as [order Horder].
    rewrite RawFacts.settle_order_env, Horder. simpl.
    apply RawFacts.settle_loop_responds.
  - intros Hne Hpayer. rewrite RawFacts.raw_settle_run. fold active.
    rewrite (bool_decide_eq_false_2 _ Hne).
    pose proof (RawFacts.getPreferredPeer_run (Raw.normalizeForwardBody reqBody)
                  (Raw.Date_now w 0) (sticky g)) as Hrun.
    rewrite RawFacts.payer_is_string_or_absent_normalize, Hpayer in Hrun.
    destruct Hrun as [t Hrun]. unfold eval. by rewrite Hrun.
Qed.
